(** * BrowserRenderer: applying render-tree edits to a live node tree

    A shallow embedding of
    [src/Microsoft.AspNetCore.Blazor.Browser.JS/src/Rendering/BrowserRenderer.ts]
    together with the properties its specification states about it.

    The renderer mutates two pieces of state: the browser's node tree and
    its own [childComponentLocations] object.  Both are modelled as an
    explicit store that every operation threads through:

    - nodes live in a growing list, a node reference is an index into it
      (nodes are never freed while something refers to them);
    - function objects (the listeners the renderer creates) live in a
      second list, so that two closures with the same captured values are
      still two different listeners;
    - [childComponentLocations] is a finite map from component ids to node
      references.

    A JavaScript exception is a [Throw] result that carries the store as it
    was when the exception was raised: nothing is rolled back. *)

From Stdlib Require Import ZArith String Ascii Bool Lia.
From stdpp Require Import base option list gmap.

Local Open Scope Z_scope.

(** ** Strings and JavaScript values *)

Definition ascii_upper (c : ascii) : ascii :=
  let n := nat_of_ascii c in
  if ((97 <=? n) && (n <=? 122))%nat then ascii_of_nat (n - 32) else c.

Definition ascii_lower (c : ascii) : ascii :=
  let n := nat_of_ascii c in
  if ((65 <=? n) && (n <=? 90))%nat then ascii_of_nat (n + 32) else c.

Fixpoint string_map (f : ascii -> ascii) (s : string) : string :=
  match s with
  | EmptyString => EmptyString
  | String c s' => String (f c) (string_map f s')
  end.

Definition toUpperCase : string -> string := string_map ascii_upper.
Definition toLowerCase : string -> string := string_map ascii_lower.

(** A value of type [string | null]. *)
Definition JsString := option string.

(** What a DOM method taking a [DOMString] makes of such a value. *)
Definition jsToString (v : JsString) : string :=
  match v with
  | Some s => s
  | None => "null"%string
  end.

(** [l[i]] for a JavaScript number [i]: [undefined] outside the list. *)
Definition nthZ {A : Type} (l : list A) (i : Z) : option A :=
  if i <? 0 then None else l !! Z.to_nat i.

(** ** The live tree *)

Definition NodeId := nat.
Definition ListenerId := nat.

Inductive NodeKind := ElementNode | TextNode | CommentNode.

Record DomNode := mkDomNode {
  nodeKind : NodeKind;
  nodeName : string;            (* elements: the upper-cased tag name *)
  nodeData : string;            (* text and comment nodes: their data *)
  parentNode : option NodeId;
  childNodes : list NodeId;
  attributes : list (string * string);
  checked : bool;
  valueProperty : option JsString;   (* last value assigned to [.value] *)
  eventListeners : list (string * ListenerId);
  _blazorClickListener : option ListenerId;
  _blazorChangeListener : option ListenerId;
  _blazorKeypressListener : option ListenerId
}.

Definition freshNode (k : NodeKind) (name data : string) : DomNode :=
  mkDomNode k name data None [] [] false None [] None None None.

Definition set_nodeData (d : string) (n : DomNode) : DomNode :=
  mkDomNode (nodeKind n) (nodeName n) d (parentNode n) (childNodes n)
    (attributes n) (checked n) (valueProperty n) (eventListeners n)
    (_blazorClickListener n) (_blazorChangeListener n) (_blazorKeypressListener n).

Definition set_parentNode (p : option NodeId) (n : DomNode) : DomNode :=
  mkDomNode (nodeKind n) (nodeName n) (nodeData n) p (childNodes n)
    (attributes n) (checked n) (valueProperty n) (eventListeners n)
    (_blazorClickListener n) (_blazorChangeListener n) (_blazorKeypressListener n).

Definition set_childNodes (c : list NodeId) (n : DomNode) : DomNode :=
  mkDomNode (nodeKind n) (nodeName n) (nodeData n) (parentNode n) c
    (attributes n) (checked n) (valueProperty n) (eventListeners n)
    (_blazorClickListener n) (_blazorChangeListener n) (_blazorKeypressListener n).

Definition set_attributes (a : list (string * string)) (n : DomNode) : DomNode :=
  mkDomNode (nodeKind n) (nodeName n) (nodeData n) (parentNode n) (childNodes n)
    a (checked n) (valueProperty n) (eventListeners n)
    (_blazorClickListener n) (_blazorChangeListener n) (_blazorKeypressListener n).

Definition set_checked (b : bool) (n : DomNode) : DomNode :=
  mkDomNode (nodeKind n) (nodeName n) (nodeData n) (parentNode n) (childNodes n)
    (attributes n) b (valueProperty n) (eventListeners n)
    (_blazorClickListener n) (_blazorChangeListener n) (_blazorKeypressListener n).

Definition set_valueProperty (v : option JsString) (n : DomNode) : DomNode :=
  mkDomNode (nodeKind n) (nodeName n) (nodeData n) (parentNode n) (childNodes n)
    (attributes n) (checked n) v (eventListeners n)
    (_blazorClickListener n) (_blazorChangeListener n) (_blazorKeypressListener n).

Definition set_eventListeners (l : list (string * ListenerId)) (n : DomNode) : DomNode :=
  mkDomNode (nodeKind n) (nodeName n) (nodeData n) (parentNode n) (childNodes n)
    (attributes n) (checked n) (valueProperty n) l
    (_blazorClickListener n) (_blazorChangeListener n) (_blazorKeypressListener n).

(** The three expando properties the renderer keeps on an element. *)
Inductive ListenerSlot := ClickSlot | ChangeSlot | KeypressSlot.

Definition get_slot (k : ListenerSlot) (n : DomNode) : option ListenerId :=
  match k with
  | ClickSlot => _blazorClickListener n
  | ChangeSlot => _blazorChangeListener n
  | KeypressSlot => _blazorKeypressListener n
  end.

Definition set_slot (k : ListenerSlot) (v : option ListenerId) (n : DomNode) : DomNode :=
  mkDomNode (nodeKind n) (nodeName n) (nodeData n) (parentNode n) (childNodes n)
    (attributes n) (checked n) (valueProperty n) (eventListeners n)
    (match k with ClickSlot => v | _ => _blazorClickListener n end)
    (match k with ChangeSlot => v | _ => _blazorChangeListener n end)
    (match k with KeypressSlot => v | _ => _blazorKeypressListener n end).

(** [node.tagName]: [undefined] on anything but an element. *)
Definition tagName (n : DomNode) : option string :=
  match nodeKind n with
  | ElementNode => Some (nodeName n)
  | _ => None
  end.

Definition isElement (n : DomNode) : bool :=
  match nodeKind n with ElementNode => true | _ => false end.

Definition isComment (n : DomNode) : bool :=
  match nodeKind n with CommentNode => true | _ => false end.

(** ** Listeners

    What a listener created by [applyAttribute] has captured.  The body of
    the closure (the call of [raiseEvent]) only reads these values. *)

Inductive EventInfoType := mouse | keyboard | change.

Record Listener := mkListener {
  l_eventInfoType : EventInfoType;
  l_browserRendererId : Z;
  l_componentId : Z;
  l_eventHandlerId : Z;
  l_targetIsCheckbox : bool
}.

(** ** The store and the monad of the renderer *)

Record World := mkWorld {
  nodes : list DomNode;
  closures : list Listener;
  childComponentLocations : gmap Z (option NodeId);
  browserRendererId : Z
}.

Definition set_nodes (ns : list DomNode) (w : World) : World :=
  mkWorld ns (closures w) (childComponentLocations w) (browserRendererId w).

Definition set_closures (cs : list Listener) (w : World) : World :=
  mkWorld (nodes w) cs (childComponentLocations w) (browserRendererId w).

Definition set_locations (m : gmap Z (option NodeId)) (w : World) : World :=
  mkWorld (nodes w) (closures w) m (browserRendererId w).

Inductive Error :=
| UnknownComponent (componentId : Z)
| UnknownEditType (raw : Z)
| UnknownFrameType (raw : Z)
| MisplacedAttributeFrame
| TypeError
| HierarchyRequestError
| NotFoundError
| BadRead.

Inductive Result (A : Type) :=
| Ok (a : A) (w : World)
| Throw (e : Error) (w : World)
| OutOfFuel.

Arguments Ok {A} a w.
Arguments Throw {A} e w.
Arguments OutOfFuel {A}.

Definition M (A : Type) : Type := World -> Result A.

Definition ret {A} (a : A) : M A := fun w => Ok a w.

Definition bind {A B} (m : M A) (f : A -> M B) : M B :=
  fun w =>
    match m w with
    | Ok a w' => f a w'
    | Throw e w' => Throw e w'
    | OutOfFuel => OutOfFuel
    end.

Definition throw {A} (e : Error) : M A := fun w => Throw e w.
Definition outOfFuel {A} : M A := fun _ => OutOfFuel.
Definition getWorld : M World := fun w => Ok w w.
Definition modifyWorld (f : World -> World) : M unit := fun w => Ok tt (f w).

Notation "x <- c1 ;; c2" := (bind c1 (fun x => c2))
  (at level 100, c1 at next level, right associativity).
Notation "c1 ;; c2" := (bind c1 (fun _ => c2))
  (at level 100, right associativity).

(** Dereferencing a value of type [Node | null | undefined]. *)
Definition deref (r : option NodeId) : M (NodeId * DomNode) :=
  fun w =>
    match r with
    | None => Throw TypeError w
    | Some id =>
      match nodes w !! id with
      | Some n => Ok (id, n) w
      | None => Throw TypeError w
      end
    end.

Definition readNode (id : NodeId) : M DomNode :=
  p <- deref (Some id) ;; ret (snd p).

Definition updateNode (id : NodeId) (f : DomNode -> DomNode) : M unit :=
  modifyWorld (fun w => set_nodes (alter f id (nodes w)) w).

Definition allocNode (n : DomNode) : M NodeId :=
  fun w => Ok (length (nodes w)) (set_nodes (nodes w ++ [n]) w).

Definition allocListener (l : Listener) : M ListenerId :=
  fun w => Ok (length (closures w)) (set_closures (closures w ++ [l]) w).

(** ** The operations of the live tree

    The part of the DOM interface the renderer calls, after the DOM
    standard: [appendChild] and [insertBefore] first take the node out of
    the child list it is in, [insertBefore] with a null reference child
    appends, [removeChild] wants a child of the receiver, attribute names
    of HTML elements are compared in lower case and [tagName] is in upper
    case.  Two checks of the standard are left out.  The first one is the
    refusal to insert a node into its own descendants: the renderer only
    ever inserts nodes it has just created, or siblings of a wrapper it
    has just created, and for those the check cannot fire in a tree.  The
    second one is the validation of element and attribute names. *)

Definition NodeRef := option NodeId.

Fixpoint removeId (x : NodeId) (l : list NodeId) : list NodeId :=
  match l with
  | [] => []
  | y :: l' => if Nat.eqb y x then removeId x l' else y :: removeId x l'
  end.

Fixpoint insertBeforeId (x c : NodeId) (l : list NodeId) : list NodeId :=
  match l with
  | [] => [x]
  | y :: l' => if Nat.eqb y c then x :: y :: l' else y :: insertBeforeId x c l'
  end.

Fixpoint indexOfFrom (x : NodeId) (l : list NodeId) (i : Z) : Z :=
  match l with
  | [] => -1
  | y :: l' => if Nat.eqb y x then i else indexOfFrom x l' (i + 1)
  end.

(** [Array.prototype.indexOf.call(l, x)] *)
Definition indexOf (x : NodeId) (l : list NodeId) : Z := indexOfFrom x l 0.

Definition sameRef (r : option NodeId) (id : NodeId) : bool :=
  match r with
  | Some x => Nat.eqb x id
  | None => false
  end.

Fixpoint assoc_get (k : string) (l : list (string * string)) : JsString :=
  match l with
  | [] => None
  | (k', v) :: l' => if String.eqb k' k then Some v else assoc_get k l'
  end.

Fixpoint assoc_set (k v : string) (l : list (string * string)) : list (string * string) :=
  match l with
  | [] => [(k, v)]
  | (k', v') :: l' =>
    if String.eqb k' k then (k, v) :: l' else (k', v') :: assoc_set k v l'
  end.

Fixpoint assoc_remove (k : string) (l : list (string * string)) : list (string * string) :=
  match l with
  | [] => []
  | (k', v') :: l' =>
    if String.eqb k' k then l' else (k', v') :: assoc_remove k l'
  end.

Definition createElement (name : string) : M NodeId :=
  allocNode (freshNode ElementNode (toUpperCase name) "").

Definition createTextNode (data : string) : M NodeId :=
  allocNode (freshNode TextNode "" data).

Definition createComment (data : string) : M NodeId :=
  allocNode (freshNode CommentNode "" data).

(** Take a node out of the child list of its parent, if it has one. *)
Definition detach (id : NodeId) : M unit :=
  n <- readNode id ;;
  match parentNode n with
  | None => ret tt
  | Some p =>
    updateNode p (fun pn => set_childNodes (removeId id (childNodes pn)) pn) ;;
    updateNode id (set_parentNode None)
  end.

Definition appendChild (parent : NodeId) (node : NodeRef) : M unit :=
  nd <- deref node ;;
  pn <- readNode parent ;;
  if isElement pn then
    detach (fst nd) ;;
    updateNode parent (fun pn => set_childNodes (childNodes pn ++ [fst nd]) pn) ;;
    updateNode (fst nd) (set_parentNode (Some parent))
  else throw HierarchyRequestError.

Definition insertBefore (parent : NodeId) (node : NodeRef) (child : NodeRef) : M unit :=
  match child with
  | None => appendChild parent node
  | Some c =>
    nd <- deref node ;;
    pn <- readNode parent ;;
    if isElement pn then
      cn <- readNode c ;;
      if sameRef (parentNode cn) parent then
        if Nat.eqb (fst nd) c then ret tt
        else
          detach (fst nd) ;;
          updateNode parent
            (fun pn => set_childNodes (insertBeforeId (fst nd) c (childNodes pn)) pn) ;;
          updateNode (fst nd) (set_parentNode (Some parent))
      else throw NotFoundError
    else throw HierarchyRequestError
  end.

Definition removeChild (parent : NodeId) (child : NodeRef) : M unit :=
  c <- deref child ;;
  if sameRef (parentNode (snd c)) parent then detach (fst c)
  else throw NotFoundError.

(** [node.parentElement] *)
Definition parentElement (id : NodeId) : M NodeRef :=
  n <- readNode id ;;
  match parentNode n with
  | None => ret None
  | Some p => pn <- readNode p ;; ret (if isElement pn then Some p else None)
  end.

(** [parent.childNodes[i]] *)
Definition childAt (parent : NodeRef) (i : Z) : M NodeRef :=
  p <- deref parent ;; ret (nthZ (childNodes (snd p)) i).

Definition asElement (r : NodeRef) : M NodeId :=
  p <- deref r ;;
  if isElement (snd p) then ret (fst p) else throw TypeError.

Definition setAttribute (element : NodeRef) (name value : string) : M unit :=
  el <- asElement element ;;
  updateNode el (fun n => set_attributes (assoc_set (toLowerCase name) value (attributes n)) n).

Definition getAttribute (element : NodeRef) (name : string) : M JsString :=
  el <- asElement element ;;
  n <- readNode el ;;
  ret (assoc_get (toLowerCase name) (attributes n)).

Definition removeAttribute (element : NodeRef) (name : string) : M unit :=
  el <- asElement element ;;
  updateNode el (fun n => set_attributes (assoc_remove (toLowerCase name) (attributes n)) n).

Definition hasListener (type : string) (l : ListenerId)
    (ls : list (string * ListenerId)) : bool :=
  existsb (fun e => String.eqb (fst e) type && Nat.eqb (snd e) l) ls.

Definition dropListener (type : string) (l : ListenerId)
    (ls : list (string * ListenerId)) : list (string * ListenerId) :=
  List.filter (fun e => negb (String.eqb (fst e) type && Nat.eqb (snd e) l)) ls.

Definition addEventListener (target : NodeId) (type : string)
    (listener : option ListenerId) : M unit :=
  match listener with
  | None => ret tt
  | Some l =>
    updateNode target (fun n =>
      if hasListener type l (eventListeners n) then n
      else set_eventListeners (eventListeners n ++ [(type, l)]) n)
  end.

Definition removeEventListener (target : NodeId) (type : string)
    (listener : option ListenerId) : M unit :=
  match listener with
  | None => ret tt
  | Some l =>
    updateNode target (fun n =>
      set_eventListeners (dropListener type l (eventListeners n)) n)
  end.

Fixpoint orphan (ids : list NodeId) : M unit :=
  match ids with
  | [] => ret tt
  | c :: ids' => updateNode c (set_parentNode None) ;; orphan ids'
  end.

(** [node.textContent = v] *)
Definition setTextContent (node : NodeRef) (v : JsString) : M unit :=
  p <- deref node ;;
  let data := match v with Some s => s | None => ""%string end in
  match nodeKind (snd p) with
  | ElementNode =>
    orphan (childNodes (snd p)) ;;
    updateNode (fst p) (set_childNodes []) ;;
    if String.eqb data "" then ret tt
    else t <- createTextNode data ;; appendChild (fst p) (Some t)
  | _ => updateNode (fst p) (set_nodeData data)
  end.

(** ** Frames and edits

    [RenderTreeFrame.ts] and [RenderTreeEdit.ts] are not among the sources:
    the renderer only sees their enumerations and accessor functions. *)

Module FrameType.
(** Modelled from the spec: the closed set of frame variants of
    [RenderTreeFrame.ts] (element, text, attribute, component, region);
    [unknown] stands for any other number found in the table, which the
    [default] branch of [insertFrame] is there for. *)
Inductive t := element | text | attribute | component | region | unknown (raw : Z).

Definition eqb (a b : t) : bool :=
  match a, b with
  | element, element | text, text | attribute, attribute
  | component, component | region, region => true
  | unknown x, unknown y => Z.eqb x y
  | _, _ => false
  end.
End FrameType.

Module renderTreeFrame.
(** Modelled from the spec: one entry of the reference-frame table, with
    the fields the accessors of [RenderTreeFrame.ts] read.  Every accessor
    can be applied to every frame, as in the source, whatever its type. *)
Record t := mk {
  frameType : FrameType.t;
  subtreeLength : Z;
  elementName : JsString;
  textContent : JsString;
  attributeName : JsString;
  attributeValue : JsString;
  attributeEventHandlerId : Z;
  componentId : Z
}.
End renderTreeFrame.

Definition RenderTreeFramePointer : Type := renderTreeFrame.t.

Module EditType.
(** Modelled from the spec: the closed set of edit variants of
    [RenderTreeEdit.ts]; [unknown] stands for any other number. *)
Inductive t :=
| prependFrame | removeFrame | setAttribute | removeAttribute
| updateText | stepIn | stepOut | unknown (raw : Z).
End EditType.

Module renderTreeEdit.
(** Modelled from the spec: one entry of the edit script, with the fields
    the accessors of [RenderTreeEdit.ts] read. *)
Record t := mk {
  type : EditType.t;
  siblingIndex : Z;
  newTreeIndex : Z;
  removedAttributeName : JsString
}.
End renderTreeEdit.

Definition RenderTreeEditPointer : Type := renderTreeEdit.t.

(** Modelled from the spec: the tables are flat arrays addressed by index.
    A read outside the table has no meaning in the source (it is pointer
    arithmetic on the host's memory); here it is the failure [BadRead]. *)
Definition getTreeFramePtr (frames : list RenderTreeFramePointer) (i : Z)
    : M RenderTreeFramePointer :=
  match nthZ frames i with
  | Some f => ret f
  | None => throw BadRead
  end.

Definition getRenderTreeEditPtr (edits : list RenderTreeEditPointer) (i : Z)
    : M RenderTreeEditPointer :=
  match nthZ edits i with
  | Some e => ret e
  | None => throw BadRead
  end.

(** ** The renderer *)

(** [a === s] for [a : string | null] and a string literal [s]. *)
Definition strictEq (a : JsString) (s : string) : bool :=
  match a with
  | Some x => String.eqb x s
  | None => false
  end.

Definition isCheckbox (element : NodeId) : M bool :=
  n <- readNode element ;;
  if strictEq (tagName n) "INPUT" then
    ty <- getAttribute (Some element) "type" ;;
    ret (strictEq ty "checkbox")
  else ret false.

Definition insertNodeIntoDOM (node : NodeId) (parent : NodeRef) (childIndex : Z) : M unit :=
  p <- deref parent ;;
  if childIndex >=? Z.of_nat (length (childNodes (snd p))) then
    appendChild (fst p) (Some node)
  else
    insertBefore (fst p) (Some node) (nthZ (childNodes (snd p)) childIndex).

Definition removeNodeFromDOM (parent : NodeRef) (childIndex : Z) : M unit :=
  p <- deref parent ;;
  removeChild (fst p) (nthZ (childNodes (snd p)) childIndex).

Definition removeAttributeFromDOM (parent : NodeRef) (childIndex : Z)
    (attributeName : string) : M unit :=
  element <- childAt parent childIndex ;;
  removeAttribute element attributeName.

Definition tryApplyValueProperty (element : NodeId) (value : JsString) : M bool :=
  n <- readNode element ;;
  if strictEq (tagName n) "INPUT" || strictEq (tagName n) "SELECT" then
    cb <- isCheckbox element ;;
    (if cb then updateNode element (set_checked (strictEq value "True"))
     else updateNode element (set_valueProperty (Some value))) ;;
    ret true
  else ret false.

Definition applyAttribute (componentId : Z) (toDomElement : NodeRef)
    (attributeFrame : RenderTreeFramePointer) : M unit :=
  let attributeName := renderTreeFrame.attributeName attributeFrame in
  w <- getWorld ;;
  let browserRendererId := browserRendererId w in
  let eventHandlerId := renderTreeFrame.attributeEventHandlerId attributeFrame in
  el <- deref toDomElement ;;
  let el := fst el in
  handled <-
    (if strictEq attributeName "value" then
       tryApplyValueProperty el (renderTreeFrame.attributeValue attributeFrame)
     else ret false) ;;
  if (handled : bool) then ret tt
  else if strictEq attributeName "onclick" then
    n <- readNode el ;;
    removeEventListener el "click" (_blazorClickListener n) ;;
    listener <- allocListener
      (mkListener mouse browserRendererId componentId eventHandlerId false) ;;
    updateNode el (set_slot ClickSlot (Some listener)) ;;
    addEventListener el "click" (Some listener)
  else if strictEq attributeName "onchange" then
    n <- readNode el ;;
    removeEventListener el "change" (_blazorChangeListener n) ;;
    targetIsCheckbox <- isCheckbox el ;;
    listener <- allocListener
      (mkListener change browserRendererId componentId eventHandlerId targetIsCheckbox) ;;
    updateNode el (set_slot ChangeSlot (Some listener)) ;;
    addEventListener el "change" (Some listener)
  else if strictEq attributeName "onkeypress" then
    n <- readNode el ;;
    removeEventListener el "keypress" (_blazorKeypressListener n) ;;
    listener <- allocListener
      (mkListener keyboard browserRendererId componentId eventHandlerId false) ;;
    updateNode el (set_slot KeypressSlot (Some listener)) ;;
    addEventListener el "keypress" (Some listener)
  else
    setAttribute toDomElement (jsToString attributeName)
      (jsToString (renderTreeFrame.attributeValue attributeFrame)).

(** [this.childComponentLocations[componentId] = location] *)
Definition bindLocation (componentId : Z) (location : NodeRef) : M unit :=
  modifyWorld (fun w =>
    set_locations (<[componentId := location]> (childComponentLocations w)) w).

Definition insertComponentMarker (componentId : Z) (parent : NodeRef) (childIndex : Z)
    : M unit :=
  marker <- createComment "blazor-component" ;;
  insertNodeIntoDOM marker parent childIndex ;;
  bindLocation componentId (Some marker).

Definition attachComponentToElement (componentId : Z) (element : NodeRef) : M unit :=
  insertComponentMarker componentId element 0.

Definition insertComponent (parent : NodeRef) (childIndex : Z)
    (frame : RenderTreeFramePointer) : M unit :=
  let childComponentId := renderTreeFrame.componentId frame in
  insertComponentMarker childComponentId parent childIndex.

Definition insertText (parent : NodeRef) (childIndex : Z)
    (textFrame : RenderTreeFramePointer) : M unit :=
  let textContent := jsToString (renderTreeFrame.textContent textFrame) in
  newDomTextNode <- createTextNode textContent ;;
  insertNodeIntoDOM newDomTextNode parent childIndex.

(** *** Materializing frames

    [insertFrame], [insertElement] and [insertFrameRange] call each other;
    every call and every turn of a loop goes to a larger frame index.  The
    recursion is written on a fuel argument, and [frameFuel] below is
    enough for every table (lemmas [fuel_enough_at] and [settles_insertFrame]):
    four units for each entry of the table, one for each of the four
    functions a frame can go through.

    [insertElement_loop] is the [for] loop of [insertElement] from its
    current [descendantIndex]; [insertFrameRange_loop] is the [for] loop of
    [insertFrameRange] from its current [index] and [childIndex]. *)

Fixpoint insertFrame_fuel (fuel : nat) (componentId : Z) (parent : NodeRef)
    (childIndex : Z) (frames : list RenderTreeFramePointer)
    (frame : RenderTreeFramePointer) (frameIndex : Z) {struct fuel} : M Z :=
  match fuel with
  | O => outOfFuel
  | S fuel =>
    match renderTreeFrame.frameType frame with
    | FrameType.element =>
      insertElement_fuel fuel componentId parent childIndex frames frame frameIndex ;;
      ret 1
    | FrameType.text =>
      insertText parent childIndex frame ;;
      ret 1
    | FrameType.attribute =>
      throw MisplacedAttributeFrame
    | FrameType.component =>
      insertComponent parent childIndex frame ;;
      ret 1
    | FrameType.region =>
      insertFrameRange_loop fuel componentId parent childIndex childIndex frames
        (frameIndex + 1) (frameIndex + renderTreeFrame.subtreeLength frame)
    | FrameType.unknown raw =>
      throw (UnknownFrameType raw)
    end
  end

with insertElement_fuel (fuel : nat) (componentId : Z) (parent : NodeRef)
    (childIndex : Z) (frames : list RenderTreeFramePointer)
    (frame : RenderTreeFramePointer) (frameIndex : Z) {struct fuel} : M unit :=
  match fuel with
  | O => outOfFuel
  | S fuel =>
    let tagName := jsToString (renderTreeFrame.elementName frame) in
    newDomElement <- createElement tagName ;;
    insertNodeIntoDOM newDomElement parent childIndex ;;
    let descendantsEndIndexExcl := frameIndex + renderTreeFrame.subtreeLength frame in
    insertElement_loop fuel componentId newDomElement frames
      (frameIndex + 1) descendantsEndIndexExcl
  end

with insertElement_loop (fuel : nat) (componentId : Z) (newDomElement : NodeId)
    (frames : list RenderTreeFramePointer)
    (descendantIndex descendantsEndIndexExcl : Z) {struct fuel} : M unit :=
  match fuel with
  | O => outOfFuel
  | S fuel =>
    if descendantIndex <? descendantsEndIndexExcl then
      descendantFrame <- getTreeFramePtr frames descendantIndex ;;
      if FrameType.eqb (renderTreeFrame.frameType descendantFrame) FrameType.attribute then
        applyAttribute componentId (Some newDomElement) descendantFrame ;;
        insertElement_loop fuel componentId newDomElement frames
          (descendantIndex + 1) descendantsEndIndexExcl
      else
        insertFrameRange_loop fuel componentId (Some newDomElement) 0 0 frames
          descendantIndex descendantsEndIndexExcl ;;
        ret tt
    else ret tt
  end

with insertFrameRange_loop (fuel : nat) (componentId : Z) (parent : NodeRef)
    (origChildIndex childIndex : Z) (frames : list RenderTreeFramePointer)
    (index endIndexExcl : Z) {struct fuel} : M Z :=
  match fuel with
  | O => outOfFuel
  | S fuel =>
    if index <? endIndexExcl then
      frame <- getTreeFramePtr frames index ;;
      numChildrenInserted <-
        insertFrame_fuel fuel componentId parent childIndex frames frame index ;;
      let childIndex := childIndex + numChildrenInserted in
      let subtreeLength := renderTreeFrame.subtreeLength frame in
      let index := if subtreeLength >? 1 then index + (subtreeLength - 1) else index in
      insertFrameRange_loop fuel componentId parent origChildIndex childIndex frames
        (index + 1) endIndexExcl
    else ret (childIndex - origChildIndex)
  end.

Definition insertFrameRange_fuel (fuel : nat) (componentId : Z) (parent : NodeRef)
    (childIndex : Z) (frames : list RenderTreeFramePointer)
    (startIndex endIndexExcl : Z) : M Z :=
  insertFrameRange_loop fuel componentId parent childIndex childIndex frames
    startIndex endIndexExcl.

Definition frameFuel (frames : list RenderTreeFramePointer) : nat :=
  4 * length frames + 4.

Definition insertFrame (componentId : Z) (parent : NodeRef) (childIndex : Z)
    (frames : list RenderTreeFramePointer) (frame : RenderTreeFramePointer)
    (frameIndex : Z) : M Z :=
  insertFrame_fuel (frameFuel frames) componentId parent childIndex frames frame frameIndex.

Definition insertElement (componentId : Z) (parent : NodeRef) (childIndex : Z)
    (frames : list RenderTreeFramePointer) (frame : RenderTreeFramePointer)
    (frameIndex : Z) : M unit :=
  insertElement_fuel (frameFuel frames) componentId parent childIndex frames frame frameIndex.

Definition insertFrameRange (componentId : Z) (parent : NodeRef) (childIndex : Z)
    (frames : list RenderTreeFramePointer) (startIndex endIndexExcl : Z) : M Z :=
  insertFrameRange_fuel (frameFuel frames) componentId parent childIndex frames
    startIndex endIndexExcl.

(** *** The edit-script walk

    [Cursor] holds the local variables of [applyEdits] that its loop
    updates; [applyEdit] is the body of the loop, [applyEdits_loop] the
    remaining turns of the loop from [editIndex]. *)

Record Cursor := mkCursor {
  cur_parent : NodeRef;
  currentDepth : Z;
  childIndexAtCurrentDepth : Z;
  topLevelNodeCountChange : Z
}.

Definition applyEdit (componentId : Z) (childIndex : Z)
    (referenceFrames : list RenderTreeFramePointer)
    (edit : RenderTreeEditPointer) (c : Cursor) : M Cursor :=
  let parent := cur_parent c in
  let siblingIndex := renderTreeEdit.siblingIndex edit in
  match renderTreeEdit.type edit with
  | EditType.prependFrame =>
    let frameIndex := renderTreeEdit.newTreeIndex edit in
    frame <- getTreeFramePtr referenceFrames frameIndex ;;
    numNodesInserted <-
      insertFrame componentId parent (childIndexAtCurrentDepth c + siblingIndex)
        referenceFrames frame frameIndex ;;
    ret (if currentDepth c =? 0
         then mkCursor parent (currentDepth c) (childIndexAtCurrentDepth c)
                (topLevelNodeCountChange c + numNodesInserted)
         else c)
  | EditType.removeFrame =>
    removeNodeFromDOM parent (childIndexAtCurrentDepth c + siblingIndex) ;;
    ret (if currentDepth c =? 0
         then mkCursor parent (currentDepth c) (childIndexAtCurrentDepth c)
                (topLevelNodeCountChange c - 1)
         else c)
  | EditType.setAttribute =>
    let frameIndex := renderTreeEdit.newTreeIndex edit in
    frame <- getTreeFramePtr referenceFrames frameIndex ;;
    element <- childAt parent (childIndexAtCurrentDepth c + siblingIndex) ;;
    applyAttribute componentId element frame ;;
    ret c
  | EditType.removeAttribute =>
    removeAttributeFromDOM parent (childIndexAtCurrentDepth c + siblingIndex)
      (jsToString (renderTreeEdit.removedAttributeName edit)) ;;
    ret c
  | EditType.updateText =>
    let frameIndex := renderTreeEdit.newTreeIndex edit in
    frame <- getTreeFramePtr referenceFrames frameIndex ;;
    domTextNode <- childAt parent (childIndexAtCurrentDepth c + siblingIndex) ;;
    setTextContent domTextNode (renderTreeFrame.textContent frame) ;;
    ret c
  | EditType.stepIn =>
    child <- childAt parent (childIndexAtCurrentDepth c + siblingIndex) ;;
    ret (mkCursor child (currentDepth c + 1) 0 (topLevelNodeCountChange c))
  | EditType.stepOut =>
    p <- deref parent ;;
    up <- parentElement (fst p) ;;
    let currentDepth := currentDepth c - 1 in
    ret (mkCursor up currentDepth
           (if currentDepth =? 0 then childIndex else 0)
           (topLevelNodeCountChange c))
  | EditType.unknown raw =>
    throw (UnknownEditType raw)
  end.

Fixpoint applyEdits_loop (turns : nat) (componentId : Z) (childIndex : Z)
    (edits : list RenderTreeEditPointer)
    (referenceFrames : list RenderTreeFramePointer)
    (editIndex : Z) (c : Cursor) : M Cursor :=
  match turns with
  | O => ret c
  | S turns =>
    edit <- getRenderTreeEditPtr edits editIndex ;;
    c' <- applyEdit componentId childIndex referenceFrames edit c ;;
    applyEdits_loop turns componentId childIndex edits referenceFrames (editIndex + 1) c'
  end.

Definition applyEdits (componentId : Z) (parent : NodeRef) (childIndex : Z)
    (edits : list RenderTreeEditPointer) (editsOffset editsLength : Z)
    (referenceFrames : list RenderTreeFramePointer) : M Z :=
  let maxEditIndexExcl := editsOffset + editsLength in
  c <- applyEdits_loop (Z.to_nat (maxEditIndexExcl - editsOffset))
         componentId childIndex edits referenceFrames editsOffset
         (mkCursor parent 0 childIndex 0) ;;
  ret (topLevelNodeCountChange c).

(** *** The entry points *)

(** The [for] loop of [updateComponent] that fills the new wrapper. *)
Fixpoint moveIntoWrapper (turns : nat) (wrapper parent : NodeId) (childIndex : Z) : M unit :=
  match turns with
  | O => ret tt
  | S turns =>
    next <- childAt (Some parent) (childIndex + 1) ;;
    appendChild wrapper next ;;
    moveIntoWrapper turns wrapper parent childIndex
  end.

(** The three-way case of [updateComponent] on the kind of node the
    component is bound to: it gives [parent], [childIndex], [nodeCount] and
    [isWrapped] their values (and takes a comment marker out of the tree). *)
Definition locateAnchor (marker : NodeId) : M (NodeId * Z * Z * bool) :=
  m <- readNode marker ;;
  if isComment m then
    parent <- parentElement marker ;;
    p <- deref parent ;;
    let childIndex := indexOf marker (childNodes (snd p)) in
    removeChild (fst p) (Some marker) ;;
    ret (fst p, childIndex, 0, false)
  else if isElement m && strictEq (tagName m) "BLAZOR-COMPONENT" then
    ret (marker, 0, Z.of_nat (length (childNodes m)), true)
  else
    parent <- parentElement marker ;;
    p <- deref parent ;;
    let childIndex := indexOf marker (childNodes (snd p)) in
    ret (fst p, childIndex, 1, false).

Definition updateComponent (componentId : Z)
    (edits : list RenderTreeEditPointer) (editsOffset editsLength : Z)
    (referenceFrames : list RenderTreeFramePointer) : M unit :=
  w <- getWorld ;;
  match childComponentLocations w !! componentId with
  | None | Some None => throw (UnknownComponent componentId)
  | Some (Some marker) =>
    anchor <- locateAnchor marker ;;
    let '(parent, childIndex, nodeCount, isWrapped) := anchor in
    delta <- applyEdits componentId (Some parent) childIndex
               edits editsOffset editsLength referenceFrames ;;
    let nodeCount := nodeCount + delta in
    if negb isWrapped then
      if nodeCount =? 1 then
        single <- childAt (Some parent) childIndex ;;
        bindLocation componentId single
      else
        wrapper <- createElement "blazor-component" ;;
        insertNodeIntoDOM wrapper (Some parent) childIndex ;;
        moveIntoWrapper (Z.to_nat nodeCount) wrapper parent childIndex ;;
        bindLocation componentId (Some wrapper)
    else ret tt
  end.

Definition disposeComponent (componentId : Z) : M unit :=
  modifyWorld (fun w =>
    set_locations (delete componentId (childComponentLocations w)) w).

(** * Notions used in the statements *)

(** ** The store around a node *)

(** The store after [node], a node [nn] that was in no child list, has been
    put at position [k] of the child list of [parent], a node [pn]. *)
Definition linkChild (k : nat) (node parent : NodeId) (pn nn : DomNode) (w : World) : World :=
  set_nodes
    (<[node := set_parentNode (Some parent) nn]>
       (<[parent := set_childNodes
                      (take k (childNodes pn) ++ node :: drop k (childNodes pn)) pn]>
          (nodes w))) w.

(** [parent] is an element whose child list has no duplicates and lists
    nodes other than [parent] that have [parent] as their parent. *)
Definition childrenConsistent (w : World) (parent : NodeId) (pn : DomNode) : Prop :=
  nodes w !! parent = Some pn /\
  isElement pn = true /\
  NoDup (childNodes pn) /\
  (parent ∉ childNodes pn) /\
  forall c, c ∈ childNodes pn ->
    exists cn, nodes w !! c = Some cn /\ parentNode cn = Some parent.

(** The store while [updateComponent] fills a new wrapper: [j] of the nodes
    that followed the wrapper in the child list [cs] of [parent] have been
    moved into it.  [ci] is the index of the wrapper. *)
Definition Wrapping (parent wrapper : NodeId) (pn : DomNode) (ci j : nat)
    (w : World) : Prop :=
  let cs := childNodes pn in
  nodes w !! parent =
    Some (set_childNodes (take ci cs ++ wrapper :: drop (ci + j) cs) pn) /\
  (exists wn,
     nodes w !! wrapper = Some wn /\ isElement wn = true /\
     nodeName wn = "BLAZOR-COMPONENT"%string /\
     parentNode wn = Some parent /\
     childNodes wn = take j (drop ci cs)) /\
  (forall c, c ∈ drop (ci + j) cs ->
     exists cn, nodes w !! c = Some cn /\ parentNode cn = Some parent) /\
  (forall c, c ∈ take j (drop ci cs) ->
     exists cn, nodes w !! c = Some cn /\ parentNode cn = Some wrapper).

(** ** Listeners of one event on one node *)

(** The listeners of [node] that are registered for events of [type], in
    the order in which they would be called. *)
Definition forEvent (type : string) (ls : list (string * ListenerId)) : list ListenerId :=
  map snd (List.filter (fun e => String.eqb (fst e) type) ls).

Definition listenersFor (type : string) (n : DomNode) : list ListenerId :=
  forEvent type (eventListeners n).

Definition slotEvent (k : ListenerSlot) : string :=
  match k with
  | ClickSlot => "click"
  | ChangeSlot => "change"
  | KeypressSlot => "keypress"
  end.

Definition slotAttribute (k : ListenerSlot) : string :=
  match k with
  | ClickSlot => "onclick"
  | ChangeSlot => "onchange"
  | KeypressSlot => "onkeypress"
  end.

(** The listeners of a node for the event of slot [k] are those the
    renderer remembers in that slot: none, or the one it attached last.
    A node that has just been created is in this state, and
    [applyAttribute] keeps a node in it. *)
Definition tracked (k : ListenerSlot) (n : DomNode) : Prop :=
  listenersFor (slotEvent k) n =
    match get_slot k n with
    | Some l => [l]
    | None => []
    end.

(** The steps the three event cases of [applyAttribute] share: [pre] is
    what the case computes between removing the old listener and creating
    the new one, [mk] the closure it creates. *)
Definition rebind (k : ListenerSlot) (el : NodeId) (pre : M bool)
    (mk : bool -> Listener) : M unit :=
  n <- readNode el ;;
  removeEventListener el (slotEvent k) (get_slot k n) ;;
  b <- pre ;;
  listener <- allocListener (mk b) ;;
  updateNode el (set_slot k (Some listener)) ;;
  addEventListener el (slotEvent k) (Some listener).

Definition slotPre (k : ListenerSlot) (el : NodeId) : M bool :=
  match k with
  | ChangeSlot => isCheckbox el
  | _ => ret false
  end.

Definition slotListener (k : ListenerSlot) (browserRendererId componentId eventHandlerId : Z)
    (targetIsCheckbox : bool) : Listener :=
  match k with
  | ClickSlot => mkListener mouse browserRendererId componentId eventHandlerId false
  | ChangeSlot =>
    mkListener change browserRendererId componentId eventHandlerId targetIsCheckbox
  | KeypressSlot => mkListener keyboard browserRendererId componentId eventHandlerId false
  end.

(** ** The walk over a list of edits *)

(** The loop of [applyEdits] when the edits it reads are given as a list. *)
Fixpoint applyEditList (componentId : Z) (childIndex : Z)
    (referenceFrames : list RenderTreeFramePointer)
    (es : list RenderTreeEditPointer) (c : Cursor) : M Cursor :=
  match es with
  | [] => ret c
  | edit :: es =>
    c' <- applyEdit componentId childIndex referenceFrames edit c ;;
    applyEditList componentId childIndex referenceFrames es c'
  end.

(** What an edit adds to [currentDepth]. *)
Definition depthChange (edit : RenderTreeEditPointer) : Z :=
  match renderTreeEdit.type edit with
  | EditType.stepIn => 1
  | EditType.stepOut => -1
  | _ => 0
  end.


(** From depth [d], the edits never step out further than they have
    stepped in. *)
Fixpoint wellNested (d : Z) (es : list RenderTreeEditPointer) : bool :=
  match es with
  | [] => true
  | edit :: es => (0 <=? d + depthChange edit) && wellNested (d + depthChange edit) es
  end.

(** ** What a computation leaves of the registry *)

(** Whether [m] returns or throws, the entry of [componentId] in
    [childComponentLocations] is what it was. *)
Definition keepsLocation (componentId : Z) {A} (m : M A) : Prop :=
  forall w,
    match m w with
    | Ok _ w' | Throw _ w' =>
      childComponentLocations w' !! componentId = childComponentLocations w !! componentId
    | OutOfFuel => True
    end.

(** [frame] is not a component frame for [componentId] itself. *)
Definition selfFree (componentId : Z) (frame : RenderTreeFramePointer) : Prop :=
  renderTreeFrame.frameType frame = FrameType.component ->
  renderTreeFrame.componentId frame <> componentId.

(** ** Fuel *)

(** A computation that never runs out of fuel: it returns or throws. *)
Definition settles {A} (m : M A) : Prop := forall w, m w <> OutOfFuel.

(** [m2] does what [m1] does wherever [m1] does not run out of fuel. *)
Definition extends {A} (m1 m2 : M A) : Prop :=
  forall w, m1 w <> OutOfFuel -> m2 w = m1 w.

(** How many entries of the table lie at or after index [i]. *)
Definition room (frames : list RenderTreeFramePointer) (i : Z) : nat :=
  Nat.min (Z.to_nat (Z.of_nat (length frames) - i)) (length frames).

(** ** The scan of a range of frames *)

(** Where the loop of [insertFrameRange] goes on after the frame at [index]:
    [index += subtreeLength - 1] when [subtreeLength > 1], then [index++]. *)
Definition nextIndex (frame : RenderTreeFramePointer) (index : Z) : Z :=
  (if renderTreeFrame.subtreeLength frame >? 1
   then index + (renderTreeFrame.subtreeLength frame - 1) else index) + 1.

(** The values [index] takes in the body of the loop of [insertFrameRange],
    in order: the frames the loop itself hands to [insertFrame].  The loop
    ends at [endIndexExcl], and a read outside the table ends it too;
    [turns] bounds the number of turns. *)
Fixpoint scanIndices (turns : nat) (frames : list RenderTreeFramePointer)
    (index endIndexExcl : Z) : list Z :=
  match turns with
  | O => []
  | S turns =>
    if index <? endIndexExcl then
      index ::
        match nthZ frames index with
        | Some frame => scanIndices turns frames (nextIndex frame index) endIndexExcl
        | None => []
        end
    else []
  end.

(** No loop over a table has more turns than the table has entries, plus
    one for a read outside of it. *)
Definition insertFrameRange_indices (frames : list RenderTreeFramePointer)
    (startIndex endIndexExcl : Z) : list Z :=
  scanIndices (S (length frames)) frames startIndex endIndexExcl.

(** Handing the frames at the given indices to [insertFrame], one after the
    other, each at the child index the ones before it have left. *)
Fixpoint visitFrames (componentId : Z) (parent : NodeRef) (origChildIndex childIndex : Z)
    (frames : list RenderTreeFramePointer) (indices : list Z) : M Z :=
  match indices with
  | [] => ret (childIndex - origChildIndex)
  | index :: indices =>
    frame <- getTreeFramePtr frames index ;;
    numChildrenInserted <-
      insertFrame componentId parent childIndex frames frame index ;;
    visitFrames componentId parent origChildIndex (childIndex + numChildrenInserted)
      frames indices
  end.

(** ** The frames of an element *)



Definition isAttribute (frame : RenderTreeFramePointer) : Prop :=
  renderTreeFrame.frameType frame = FrameType.attribute.

(** An attribute frame that [applyAttribute] writes as a string attribute
    whatever the element is: its name is not "value" and not one of the
    three event names. *)
Definition isPlainAttribute (frame : RenderTreeFramePointer) : Prop :=
  isAttribute frame /\
  strictEq (renderTreeFrame.attributeName frame) "value" = false /\
  strictEq (renderTreeFrame.attributeName frame) "onclick" = false /\
  strictEq (renderTreeFrame.attributeName frame) "onchange" = false /\
  strictEq (renderTreeFrame.attributeName frame) "onkeypress" = false.

(** The string attribute a plain attribute frame is written as. *)
Definition attributeOf (frame : RenderTreeFramePointer) : string * string :=
  (toLowerCase (jsToString (renderTreeFrame.attributeName frame)),
   jsToString (renderTreeFrame.attributeValue frame)).


(** The text node [insertText] makes of a text frame under [parent]. *)
Definition textNodeOf (parent : NodeId) (textFrame : RenderTreeFramePointer) : DomNode :=
  set_parentNode (Some parent)
    (freshNode TextNode "" (jsToString (renderTreeFrame.textContent textFrame))).

(** ** Frames as trees

    The table is the pre-order listing of a forest: an element frame is
    followed by its attribute frames and then by its children, a region
    frame by its children, a component frame by its parameters (attribute
    frames that the renderer skips). *)

Inductive FrameTree :=
| TText (frame : RenderTreeFramePointer)
| TComponent (frame : RenderTreeFramePointer) (params : list RenderTreeFramePointer)
| TElement (frame : RenderTreeFramePointer) (attrs : list RenderTreeFramePointer)
    (children : FrameForest)
| TRegion (frame : RenderTreeFramePointer) (children : FrameForest)
with FrameForest :=
| FNil
| FCons (t : FrameTree) (rest : FrameForest).

Scheme FrameTree_ind2 := Induction for FrameTree Sort Prop
  with FrameForest_ind2 := Induction for FrameForest Sort Prop.
Combined Scheme FrameTree_FrameForest_ind from FrameTree_ind2, FrameForest_ind2.

Definition rootFrame (t : FrameTree) : RenderTreeFramePointer :=
  match t with
  | TText frame | TComponent frame _ | TElement frame _ _ | TRegion frame _ => frame
  end.

Fixpoint flattenTree (t : FrameTree) : list RenderTreeFramePointer :=
  match t with
  | TText frame => [frame]
  | TComponent frame params => frame :: params
  | TElement frame attrs children => frame :: attrs ++ flattenForest children
  | TRegion frame children => frame :: flattenForest children
  end
with flattenForest (ts : FrameForest) : list RenderTreeFramePointer :=
  match ts with
  | FNil => []
  | FCons t rest => flattenTree t ++ flattenForest rest
  end.





(** On every run that returns, [m] adds [k] nodes to the store. *)
Definition addsNodes {A} (k : nat) (m : M A) : Prop :=
  forall w a w', m w = Ok a w' -> length (nodes w') = (length (nodes w) + k)%nat.

(** ** What a computation leaves of the store *)

(** Whether [m] returns or throws, the store it leaves is related by [R] to
    the store it started from. *)
Definition preserves (R : World -> World -> Prop) {A} (m : M A) : Prop :=
  forall w,
    match m w with
    | Ok _ w' | Throw _ w' => R w w'
    | OutOfFuel => True
    end.

(** [n'] is the node [n] at the same place of the tree: the same kind of
    node with the same name and data, the same parent and the same child
    list.  Attributes, live properties and listeners may differ. *)
Definition samePlace (n n' : DomNode) : Prop :=
  nodeKind n' = nodeKind n /\
  nodeName n' = nodeName n /\
  nodeData n' = nodeData n /\
  parentNode n' = parentNode n /\
  childNodes n' = childNodes n.

(** The store [w'] differs from [w] at most in the node [el], which is at
    the same place of the tree, and in listeners created since: no node has
    been created, the registry is what it was. *)
Definition touchesOnly (el : NodeId) (w w' : World) : Prop :=
  length (nodes w') = length (nodes w) /\
  childComponentLocations w' = childComponentLocations w /\
  browserRendererId w' = browserRendererId w /\
  (exists created, closures w' = closures w ++ created) /\
  (forall x, x <> el -> nodes w' !! x = nodes w !! x) /\
  (forall n, nodes w !! el = Some n ->
     exists n', nodes w' !! el = Some n' /\ samePlace n n').

(** ** What materializing frames leaves of the tree *)

(** From the store [w], where [parent] is the node [pn], to the store [w']:
    [k] nodes created in between stand in the child list of [parent], one
    after the other, from the position of the child index (the end of the
    list when the index is beyond it); the children [parent] had are around
    them in the order they were in; no node that was in [w] has changed,
    apart from the child list of [parent]. *)
Definition Placed (w : World) (parent : NodeId) (pn : DomNode) (childIndex k : Z)
    (w' : World) : Prop :=
  let cs := childNodes pn in
  let i := Z.to_nat (Z.min childIndex (Z.of_nat (length cs))) in
  (length (nodes w) <= length (nodes w'))%nat /\
  (forall x, (x < length (nodes w))%nat -> x <> parent -> nodes w' !! x = nodes w !! x) /\
  exists created,
    Z.of_nat (length created) = k /\
    (forall c, c ∈ created -> (length (nodes w) <= c)%nat) /\
    childrenConsistent w' parent
      (set_childNodes (take i cs ++ created ++ drop i cs) pn).

(** From [w] to [w']: no node that was in [w] has changed, apart from the
    node [el], which has kept its kind and its parent. *)
Definition Grown (el : NodeId) (w w' : World) : Prop :=
  (length (nodes w) <= length (nodes w'))%nat /\
  (forall x, (x < length (nodes w))%nat -> x <> el -> nodes w' !! x = nodes w !! x) /\
  (forall n, nodes w !! el = Some n ->
     exists n', nodes w' !! el = Some n' /\
       nodeKind n' = nodeKind n /\ parentNode n' = parentNode n).

(** * Examples

    The subtree length of a frame counts the frame itself, so it is 1 for a
    frame without descendants. *)

Definition textFrame (content : string) : RenderTreeFramePointer :=
  renderTreeFrame.mk FrameType.text 1 None (Some content) None None 0 0.

Definition regionFrame (subtreeLength : Z) : RenderTreeFramePointer :=
  renderTreeFrame.mk FrameType.region subtreeLength None None None None 0 0.

Definition elementFrame (name : string) (subtreeLength : Z) : RenderTreeFramePointer :=
  renderTreeFrame.mk FrameType.element subtreeLength (Some name) None None None 0 0.

Definition plainAttribute (name : string) (value : JsString) : RenderTreeFramePointer :=
  renderTreeFrame.mk FrameType.attribute 1 None None (Some name) value 0 0.

Definition eventAttribute (name : string) (eventHandlerId : Z) : RenderTreeFramePointer :=
  renderTreeFrame.mk FrameType.attribute 1 None None (Some name) None eventHandlerId 0.

Definition prependFrameEdit (siblingIndex newTreeIndex : Z) : RenderTreeEditPointer :=
  renderTreeEdit.mk EditType.prependFrame siblingIndex newTreeIndex None.

Definition removeFrameEdit (siblingIndex : Z) : RenderTreeEditPointer :=
  renderTreeEdit.mk EditType.removeFrame siblingIndex 0 None.


Definition stepOutEdit : RenderTreeEditPointer :=
  renderTreeEdit.mk EditType.stepOut 0 0 None.

Definition setAttributeEdit (siblingIndex newTreeIndex : Z) : RenderTreeEditPointer :=
  renderTreeEdit.mk EditType.setAttribute siblingIndex newTreeIndex None.

Definition removeAttributeEdit (siblingIndex : Z) (name : string) : RenderTreeEditPointer :=
  renderTreeEdit.mk EditType.removeAttribute siblingIndex 0 (Some name).

Definition updateTextEdit (siblingIndex newTreeIndex : Z) : RenderTreeEditPointer :=
  renderTreeEdit.mk EditType.updateText siblingIndex newTreeIndex None.

(** A renderer that has rendered nothing yet, on a page with one [div]. *)
Definition page : World :=
  mkWorld [freshNode ElementNode "DIV" ""] [] ∅ 0.

(** A [div] with the text nodes "a" and "b" as children, and a text node
    "c" that is in no child list yet. *)
Definition twoTexts : World :=
  mkWorld
    [ set_childNodes [1; 2]%nat (freshNode ElementNode "DIV" "");
      set_parentNode (Some 0%nat) (freshNode TextNode "" "a");
      set_parentNode (Some 0%nat) (freshNode TextNode "" "b");
      freshNode TextNode "" "c" ]
    [] ∅ 0.

(** An [input type=checkbox] on its own, and the attribute frame
    [{name: "value", value: "True"}]. *)
Definition checkboxNode : DomNode :=
  set_attributes [("type", "checkbox")]%string (freshNode ElementNode "INPUT" "").

Definition checkboxPage : World := mkWorld [checkboxNode] [] ∅ 0.

(** A [div] that holds a [p] and a [ul] with two [li]. *)
Definition listPage : World :=
  mkWorld
    [ set_childNodes [1; 2]%nat (freshNode ElementNode "DIV" "");
      set_parentNode (Some 0%nat) (freshNode ElementNode "P" "");
      set_parentNode (Some 0%nat)
        (set_childNodes [3; 4]%nat (freshNode ElementNode "UL" ""));
      set_parentNode (Some 2%nat) (freshNode ElementNode "LI" "");
      set_parentNode (Some 2%nat) (freshNode ElementNode "LI" "") ]
    [] ∅ 0.

(** [region(subtreeLength=3), text("a"), text("b")] *)
Definition regionTable : list RenderTreeFramePointer :=
  [regionFrame 3; textFrame "a"; textFrame "b"].

(** The [div] of [page] with the text nodes "a" and "b" as its children. *)
Definition regionResult : World :=
  mkWorld
    [ set_childNodes [1; 2]%nat (freshNode ElementNode "DIV" "");
      set_parentNode (Some 0%nat) (freshNode TextNode "" "a");
      set_parentNode (Some 0%nat) (freshNode TextNode "" "b") ]
    [] ∅ 0.

(** [div(3), text "a", text "b", text "c"]: the [div] has the first two text
    frames as descendants, the third text frame follows it. *)
Definition nestedTable : list RenderTreeFramePointer :=
  [elementFrame "div" 3; textFrame "a"; textFrame "b"; textFrame "c"].



(** Component 7 is bound to the text node "x", the only child of a [div];
    the edits put the text nodes "y" and "z" after it. *)

Definition barePage : World :=
  mkWorld
    [ set_childNodes [1%nat] (freshNode ElementNode "DIV" "");
      set_parentNode (Some 0%nat) (freshNode TextNode "" "x") ]
    [] (<[7 := Some 1%nat]> ∅) 0.

Definition twoMoreEdits : list RenderTreeEditPointer :=
  [prependFrameEdit 1 0; prependFrameEdit 2 1].

Definition twoMoreFrames : list RenderTreeFramePointer :=
  [textFrame "y"; textFrame "z"].

(** [barePage] after the walk over [twoMoreEdits]. *)
Definition barePageWalked : World :=
  mkWorld
    [ set_childNodes [1; 2; 3]%nat (freshNode ElementNode "DIV" "");
      set_parentNode (Some 0%nat) (freshNode TextNode "" "x");
      set_parentNode (Some 0%nat) (freshNode TextNode "" "y");
      set_parentNode (Some 0%nat) (freshNode TextNode "" "z") ]
    [] (<[7 := Some 1%nat]> ∅) 0.


(** Component 7 has just been attached to a [div]: it is bound to its
    marker, the only child of the [div]. *)
Definition markedPage : World :=
  mkWorld
    [ set_childNodes [1%nat] (freshNode ElementNode "DIV" "");
      set_parentNode (Some 0%nat) (freshNode CommentNode "" "blazor-component") ]
    [] (<[7 := Some 1%nat]> ∅) 0.

(** [markedPage] once the marker has been taken out of the tree. *)
Definition unmarkedPage : World :=
  mkWorld
    [ freshNode ElementNode "DIV" "";
      freshNode CommentNode "" "blazor-component" ]
    [] (<[7 := Some 1%nat]> ∅) 0.

(** Component 7 is bound to its [blazor-component] wrapper, the only child
    of a [div]; the wrapper holds the text nodes "x" and "y". *)
Definition wrappedPage : World :=
  mkWorld
    [ set_childNodes [1%nat] (freshNode ElementNode "DIV" "");
      set_parentNode (Some 0%nat)
        (set_childNodes [2; 3]%nat (freshNode ElementNode "BLAZOR-COMPONENT" ""));
      set_parentNode (Some 1%nat) (freshNode TextNode "" "x");
      set_parentNode (Some 1%nat) (freshNode TextNode "" "y") ]
    [] (<[7 := Some 1%nat]> ∅) 0.

(** [wrappedPage] once both text nodes have been removed. *)
Definition wrappedPageEmptied : World :=
  mkWorld
    [ set_childNodes [1%nat] (freshNode ElementNode "DIV" "");
      set_parentNode (Some 0%nat) (freshNode ElementNode "BLAZOR-COMPONENT" "");
      freshNode TextNode "" "x";
      freshNode TextNode "" "y" ]
    [] (<[7 := Some 1%nat]> ∅) 0.

(** An edit of a type the renderer does not know. *)
Definition unknownEdit (raw : Z) : RenderTreeEditPointer :=
  renderTreeEdit.mk (EditType.unknown raw) 0 0 None.


(** * Properties *)

(** ** The monad *)

Lemma bind_Ok {A B} (m : M A) (f : A -> M B) w a w' :
  m w = Ok a w' -> bind m f w = f a w'.
Proof. intros H. unfold bind. now rewrite H. Qed.

Lemma bind_Throw {A B} (m : M A) (f : A -> M B) w e w' :
  m w = Throw e w' -> bind m f w = Throw e w'.
Proof. intros H. unfold bind. now rewrite H. Qed.

Lemma bind_ret_l {A B} (a : A) (f : A -> M B) w : bind (ret a) f w = f a w.
Proof. reflexivity. Qed.

Lemma bind_getWorld {B} (f : World -> M B) w : bind getWorld f w = f w w.
Proof. reflexivity. Qed.

Lemma bind_assoc {A B C} (m : M A) (f : A -> M B) (g : B -> M C) w :
  bind (bind m f) g w = bind m (fun a => bind (f a) g) w.
Proof. unfold bind. destruct (m w); reflexivity. Qed.

Lemma bind_ext {A B} (m : M A) (f g : A -> M B) w :
  (forall a w', f a w' = g a w') -> bind m f w = bind m g w.
Proof. intros H. unfold bind. destruct (m w); auto. Qed.


Lemma bind_inv_Ok {A B} (m : M A) (f : A -> M B) w b w2 :
  bind m f w = Ok b w2 -> exists a w1, m w = Ok a w1 /\ f a w1 = Ok b w2.
Proof.
  unfold bind. destruct (m w) as [a w1| |]; try discriminate. eauto.
Qed.

(** ** C10, C2: the registry *)

(** C10: [disposeComponent] returns normally and changes nothing but
    [childComponentLocations]: the nodes (and the listeners) of the store
    are what they were, the entry of [componentId] is gone, and every other
    entry is what it was. *)
Theorem disposeComponent_only_unbinds (componentId : Z) (w : World) :
  exists w',
    disposeComponent componentId w = Ok tt w' /\
    nodes w' = nodes w /\
    closures w' = closures w /\
    browserRendererId w' = browserRendererId w /\
    forall other : Z,
      childComponentLocations w' !! other =
      if decide (other = componentId) then None
      else childComponentLocations w !! other.
Proof.
  eexists. split; [reflexivity|]. cbn. repeat split.
  intros other. destruct (decide (other = componentId)) as [->|Hne].
  - apply lookup_delete_eq.
  - apply lookup_delete_ne. congruence.
Qed.

(** C2, as stated, fails for [disposeComponent]: on a renderer with no
    component bound, disposing component 5 returns normally. *)
Lemma disposeComponent_unbound_returns :
  childComponentLocations page !! 5 = None /\
  disposeComponent 5 page = Ok tt page.
Proof. split; reflexivity. Qed.

(** C2, amended: for an id that is not bound, [updateComponent] throws
    [UnknownComponent] before it touches anything, and [disposeComponent]
    returns normally and leaves the whole store as it was. *)
Theorem unbound_component (componentId : Z) (w : World)
    (edits : list RenderTreeEditPointer) (editsOffset editsLength : Z)
    (referenceFrames : list RenderTreeFramePointer) :
  childComponentLocations w !! componentId = None ->
  updateComponent componentId edits editsOffset editsLength referenceFrames w
    = Throw (UnknownComponent componentId) w /\
  disposeComponent componentId w = Ok tt w.
Proof.
  intros Hnone. split.
  - unfold updateComponent, bind, getWorld. now rewrite Hnone.
  - unfold disposeComponent, modifyWorld. f_equal.
    destruct w as [ns cs locs rid]. unfold set_locations. cbn in *.
    f_equal. now apply delete_id.
Qed.

Lemma unbound_component_witness :
  updateComponent 5 [] 0 0 [] page = Throw (UnknownComponent 5) page /\
  disposeComponent 5 page = Ok tt page.
Proof. apply (unbound_component 5 page [] 0 0 []). reflexivity. Defined.

(** ** Child lists *)

Lemma removeId_notin (x : NodeId) (l : list NodeId) :
  x ∉ l -> removeId x l = l.
Proof.
  induction l as [|y l IH]; intros Hx; [reflexivity|]. cbn.
  apply not_elem_of_cons in Hx as [Hne Hx].
  destruct (Nat.eqb_spec y x) as [->|_]; [congruence|].
  now rewrite IH.
Qed.

Lemma removeId_head (x : NodeId) (l : list NodeId) :
  x ∉ l -> removeId x (x :: l) = l.
Proof. intros Hx. cbn. rewrite Nat.eqb_refl. now apply removeId_notin. Qed.


Lemma insertBeforeId_at (x c : NodeId) (l : list NodeId) (i : nat) :
  l !! i = Some c -> c ∉ take i l ->
  insertBeforeId x c l = take i l ++ x :: drop i l.
Proof.
  revert i. induction l as [|y l IH]; intros [|i] Hi Hc; try discriminate.
  - cbn in Hi. injection Hi as ->. cbn. now rewrite Nat.eqb_refl.
  - cbn in Hi, Hc. apply not_elem_of_cons in Hc as [Hne Hc]. cbn.
    destruct (Nat.eqb_spec y c) as [->|_]; [congruence|].
    now rewrite (IH i Hi Hc).
Qed.

Lemma NoDup_lookup_notin_take (l : list NodeId) (i : nat) (c : NodeId) :
  NoDup l -> l !! i = Some c -> c ∉ take i l.
Proof.
  intros Hnd Hi Hin.
  apply list_elem_of_lookup in Hin as [j Hj].
  assert (Hlt : (j < i)%nat).
  { apply lookup_lt_Some in Hj. rewrite length_take in Hj. lia. }
  rewrite lookup_take_lt in Hj by exact Hlt.
  pose proof (NoDup_lookup l j i c Hnd Hj Hi). lia.
Qed.

Lemma nthZ_Some {A} (l : list A) (i : Z) (x : A) :
  nthZ l i = Some x <-> 0 <= i /\ l !! Z.to_nat i = Some x.
Proof.
  unfold nthZ. destruct (Z.ltb_spec i 0); split.
  - discriminate.
  - intros [? _]. lia.
  - auto.
  - now intros [_ ?].
Qed.

Lemma nthZ_of_nat {A} (l : list A) (i : nat) : nthZ l (Z.of_nat i) = l !! i.
Proof.
  unfold nthZ. destruct (Z.ltb_spec (Z.of_nat i) 0); [lia|].
  now rewrite Nat2Z.id.
Qed.

(** ** C9: where a node is inserted *)

Lemma updateNode_eq (id : NodeId) (f : DomNode -> DomNode) (w : World) :
  updateNode id f w = Ok tt (set_nodes (alter f id (nodes w)) w).
Proof. reflexivity. Qed.

Lemma readNode_Some (id : NodeId) (w : World) (n : DomNode) :
  nodes w !! id = Some n -> readNode id w = Ok n w.
Proof. intros H. unfold readNode, bind, deref. now rewrite H. Qed.

Lemma deref_Some (id : NodeId) (w : World) (n : DomNode) :
  nodes w !! id = Some n -> deref (Some id) w = Ok (id, n) w.
Proof. intros H. unfold deref. now rewrite H. Qed.

Lemma detach_detached (id : NodeId) (w : World) (n : DomNode) :
  nodes w !! id = Some n -> parentNode n = None -> detach id w = Ok tt w.
Proof.
  intros Hn Hp. unfold detach. rewrite (bind_Ok _ _ _ _ _ (readNode_Some _ _ _ Hn)).
  now rewrite Hp.
Qed.

Lemma alter_known {A} (f : A -> A) (i : nat) (l : list A) (x : A) :
  l !! i = Some x -> alter f i l = <[i := f x]> l.
Proof.
  intros Hx. apply list_eq. intros j.
  destruct (decide (i = j)) as [<-|Hne].
  - rewrite list_lookup_alter_eq, Hx.
    rewrite list_lookup_insert_eq; [reflexivity|].
    now apply lookup_lt_Some in Hx.
  - now rewrite list_lookup_alter_ne, list_lookup_insert_ne.
Qed.

Lemma updateNode_known (id : NodeId) (f : DomNode -> DomNode) (w : World) (n : DomNode) :
  nodes w !! id = Some n ->
  updateNode id f w = Ok tt (set_nodes (<[id := f n]> (nodes w)) w).
Proof. intros H. rewrite updateNode_eq. now rewrite (alter_known _ _ _ _ H). Qed.

Lemma appendChild_detached (node parent : NodeId) (w : World) (pn nn : DomNode) :
  nodes w !! parent = Some pn -> isElement pn = true ->
  nodes w !! node = Some nn -> parentNode nn = None -> node <> parent ->
  appendChild parent (Some node) w =
    Ok tt (linkChild (length (childNodes pn)) node parent pn nn w).
Proof.
  intros Hp Hel Hn Hdet Hne. unfold appendChild.
  rewrite (bind_Ok _ _ _ _ _ (deref_Some _ _ _ Hn)). cbn [fst snd].
  rewrite (bind_Ok _ _ _ _ _ (readNode_Some _ _ _ Hp)). rewrite Hel.
  rewrite (bind_Ok _ _ _ _ _ (detach_detached _ _ _ Hn Hdet)).
  rewrite (bind_Ok _ _ _ _ _ (updateNode_known _ _ _ _ Hp)).
  rewrite (updateNode_known _ _ _ nn).
  2:{ cbn. rewrite list_lookup_insert_ne by congruence. exact Hn. }
  unfold linkChild. cbn. rewrite firstn_all, skipn_all. reflexivity.
Qed.

Lemma insertBefore_detached (node parent c : NodeId) (k : nat) (w : World)
    (pn nn cn : DomNode) :
  nodes w !! parent = Some pn -> isElement pn = true ->
  nodes w !! node = Some nn -> parentNode nn = None -> node <> parent ->
  childNodes pn !! k = Some c -> c ∉ take k (childNodes pn) ->
  nodes w !! c = Some cn -> parentNode cn = Some parent ->
  insertBefore parent (Some node) (Some c) w =
    Ok tt (linkChild k node parent pn nn w).
Proof.
  intros Hp Hel Hn Hdet Hne Hk Hfirst Hc Hcp. unfold insertBefore.
  rewrite (bind_Ok _ _ _ _ _ (deref_Some _ _ _ Hn)). cbn [fst snd].
  rewrite (bind_Ok _ _ _ _ _ (readNode_Some _ _ _ Hp)). rewrite Hel.
  rewrite (bind_Ok _ _ _ _ _ (readNode_Some _ _ _ Hc)). rewrite Hcp.
  cbn [sameRef]. rewrite Nat.eqb_refl.
  destruct (Nat.eqb_spec node c) as [->|Hnc].
  { rewrite Hn in Hc. injection Hc as <-. congruence. }
  rewrite (bind_Ok _ _ _ _ _ (detach_detached _ _ _ Hn Hdet)).
  rewrite (bind_Ok _ _ _ _ _ (updateNode_known _ _ _ _ Hp)).
  rewrite (updateNode_known _ _ _ nn).
  2:{ cbn. rewrite list_lookup_insert_ne by congruence. exact Hn. }
  unfold linkChild. cbn. now rewrite (insertBeforeId_at _ _ _ _ Hk Hfirst).
Qed.

Lemma insertNodeIntoDOM_detached (node parent : NodeId) (i : Z) (w : World)
    (pn nn : DomNode) :
  nodes w !! parent = Some pn -> isElement pn = true ->
  nodes w !! node = Some nn -> parentNode nn = None -> node <> parent ->
  0 <= i ->
  NoDup (childNodes pn) ->
  (forall c, c ∈ childNodes pn ->
     exists cn, nodes w !! c = Some cn /\ parentNode cn = Some parent) ->
  insertNodeIntoDOM node (Some parent) i w =
    Ok tt (linkChild (Z.to_nat (Z.min i (Z.of_nat (length (childNodes pn)))))
             node parent pn nn w).
Proof.
  intros Hp Hel Hn Hdet Hne Hi Hnd Hcs. unfold insertNodeIntoDOM.
  rewrite (bind_Ok _ _ _ _ _ (deref_Some _ _ _ Hp)). cbn [fst snd].
  destruct (Z.geb_spec i (Z.of_nat (length (childNodes pn)))) as [Hge|Hlt].
  - rewrite Z.min_r by lia. rewrite Nat2Z.id.
    now apply appendChild_detached.
  - rewrite Z.min_l by lia.
    destruct (lookup_lt_is_Some_2 (childNodes pn) (Z.to_nat i)) as [c Hc]; [lia|].
    assert (Hnth : nthZ (childNodes pn) i = Some c) by (apply nthZ_Some; auto).
    rewrite Hnth.
    destruct (Hcs c) as (cn & Hcn & Hcp).
    { apply list_elem_of_lookup. eauto. }
    eapply insertBefore_detached; eauto using NoDup_lookup_notin_take.
Qed.



(** ** C6: the [value] attribute of input and select elements *)

Lemma tagName_Some_element (n : DomNode) (s : string) :
  strictEq (tagName n) s = true -> isElement n = true.
Proof. unfold tagName, isElement. now destruct (nodeKind n). Qed.

Lemma getAttribute_element (el : NodeId) (name : string) (w : World) (n : DomNode) :
  nodes w !! el = Some n -> isElement n = true ->
  getAttribute (Some el) name w = Ok (assoc_get (toLowerCase name) (attributes n)) w.
Proof.
  intros Hn Hel. unfold getAttribute, asElement.
  rewrite bind_assoc. rewrite (bind_Ok _ _ _ _ _ (deref_Some _ _ _ Hn)).
  cbn [fst snd]. rewrite Hel. rewrite bind_ret_l.
  now rewrite (bind_Ok _ _ _ _ _ (readNode_Some _ _ _ Hn)).
Qed.

Lemma isCheckbox_eq (el : NodeId) (w : World) (n : DomNode) :
  nodes w !! el = Some n ->
  isCheckbox el w =
    Ok (strictEq (tagName n) "INPUT" &&
        strictEq (assoc_get "type" (attributes n)) "checkbox") w.
Proof.
  intros Hn. unfold isCheckbox.
  rewrite (bind_Ok _ _ _ _ _ (readNode_Some _ _ _ Hn)).
  destruct (strictEq (tagName n) "INPUT") eqn:Htag; [|reflexivity].
  rewrite (bind_Ok _ _ _ _ _
             (getAttribute_element _ "type" _ _ Hn (tagName_Some_element _ _ Htag))).
  reflexivity.
Qed.

Lemma tryApplyValueProperty_eq (el : NodeId) (value : JsString) (w : World) (n : DomNode) :
  nodes w !! el = Some n ->
  tryApplyValueProperty el value w =
    if strictEq (tagName n) "INPUT" || strictEq (tagName n) "SELECT" then
      Ok true
        (set_nodes
           (<[el := if strictEq (tagName n) "INPUT" &&
                       strictEq (assoc_get "type" (attributes n)) "checkbox"
                    then set_checked (strictEq value "True") n
                    else set_valueProperty (Some value) n]> (nodes w)) w)
    else Ok false w.
Proof.
  intros Hn. unfold tryApplyValueProperty.
  rewrite (bind_Ok _ _ _ _ _ (readNode_Some _ _ _ Hn)).
  destruct (strictEq (tagName n) "INPUT" || strictEq (tagName n) "SELECT");
    [|reflexivity].
  rewrite (bind_Ok _ _ _ _ _ (isCheckbox_eq _ _ _ Hn)).
  destruct (strictEq (tagName n) "INPUT" &&
            strictEq (assoc_get "type" (attributes n)) "checkbox").
  - now rewrite (bind_Ok _ _ _ _ _ (updateNode_known _ _ _ _ Hn)).
  - now rewrite (bind_Ok _ _ _ _ _ (updateNode_known _ _ _ _ Hn)).
Qed.

(** C6: applying an attribute frame named "value" to an [input] or
    [select] element returns normally and changes one property of that
    element and nothing else in the store: [checked], set to whether the
    frame's value is the string "True", when the element is an [input]
    whose [type] attribute is "checkbox"; the [value] property, set to the
    frame's raw value, otherwise.  The element's string attributes and its
    listeners are what they were. *)
Theorem applyAttribute_value_on_control (componentId : Z) (el : NodeId)
    (frame : RenderTreeFramePointer) (w : World) (n : DomNode) :
  nodes w !! el = Some n ->
  tagName n = Some "INPUT"%string \/ tagName n = Some "SELECT"%string ->
  renderTreeFrame.attributeName frame = Some "value"%string ->
  let value := renderTreeFrame.attributeValue frame in
  let checkbox :=
    strictEq (tagName n) "INPUT" &&
    strictEq (assoc_get "type" (attributes n)) "checkbox" in
  let n' := if checkbox then set_checked (strictEq value "True") n
            else set_valueProperty (Some value) n in
  applyAttribute componentId (Some el) frame w
    = Ok tt (set_nodes (<[el := n']> (nodes w)) w) /\
  attributes n' = attributes n /\
  eventListeners n' = eventListeners n /\
  checked n' = (if checkbox then strictEq value "True" else checked n) /\
  valueProperty n' = (if checkbox then valueProperty n else Some value).
Proof.
  intros Hn Htag Hname value checkbox n'. split.
  - unfold applyAttribute. rewrite Hname.
    rewrite bind_getWorld.
    rewrite (bind_Ok _ _ _ _ _ (deref_Some _ _ _ Hn)). cbn [fst snd].
    change (strictEq (Some "value"%string) "value") with true. cbn iota.
    pose proof (tryApplyValueProperty_eq el value w n Hn) as Htry.
    assert (Hctl : strictEq (tagName n) "INPUT" || strictEq (tagName n) "SELECT" = true)
      by (destruct Htag as [-> | ->]; reflexivity).
    rewrite Hctl in Htry.
    now rewrite (bind_Ok _ _ _ _ _ Htry).
  - subst n'. destruct checkbox; repeat split.
Qed.

Lemma applyAttribute_value_on_control_witness :
  exists w' n',
    applyAttribute 1 (Some 0%nat) (plainAttribute "value" (Some "True"%string)) checkboxPage
      = Ok tt w' /\
    nodes w' !! 0%nat = Some n' /\
    checked n' = true /\
    attributes n' = [("type", "checkbox")]%string /\
    eventListeners n' = [].
Proof.
  destruct (applyAttribute_value_on_control 1 0%nat
              (plainAttribute "value" (Some "True"%string)) checkboxPage checkboxNode)
    as (Hrun & Hattrs & Hls & Hchk & _).
  - reflexivity.
  - left. reflexivity.
  - reflexivity.
  - eexists. eexists. split; [exact Hrun|]. split; [reflexivity|].
    split; [exact Hchk|]. split; [exact Hattrs|exact Hls].
Defined.

(** ** C7: rebinding a listener *)

Lemma forEvent_drop (type : string) (l : ListenerId) (ls : list (string * ListenerId)) :
  forEvent type (dropListener type l ls) =
  List.filter (fun x => negb (Nat.eqb x l)) (forEvent type ls).
Proof.
  unfold forEvent, dropListener.
  induction ls as [|[t x] ls IH]; [reflexivity|]. cbn.
  destruct (String.eqb t type) eqn:Ht; cbn.
  - destruct (Nat.eqb x l); cbn.
    + exact IH.
    + rewrite Ht. cbn. now rewrite IH.
  - rewrite Ht. exact IH.
Qed.

Lemma forEvent_nil_has (type : string) (x : ListenerId) (ls : list (string * ListenerId)) :
  forEvent type ls = [] -> hasListener type x ls = false.
Proof.
  unfold forEvent, hasListener.
  induction ls as [|[t y] ls IH]; [reflexivity|]. cbn.
  destruct (String.eqb t type); cbn; [discriminate|exact IH].
Qed.

Lemma forEvent_snoc (type : string) (x : ListenerId) (ls : list (string * ListenerId)) :
  forEvent type (ls ++ [(type, x)]) = forEvent type ls ++ [x].
Proof.
  unfold forEvent. rewrite List.filter_app, map_app. cbn.
  now rewrite String.eqb_refl.
Qed.

Lemma removeEventListener_known (el : NodeId) (type : string) (o : option ListenerId)
    (w : World) (n : DomNode) :
  nodes w !! el = Some n ->
  removeEventListener el type o w =
    Ok tt (set_nodes
             (<[el := match o with
                      | Some l => set_eventListeners (dropListener type l (eventListeners n)) n
                      | None => n
                      end]> (nodes w)) w).
Proof.
  intros Hn. destruct o as [l|]; cbn.
  - now rewrite (updateNode_known _ _ _ _ Hn).
  - unfold ret. f_equal. destruct w. unfold set_nodes. cbn in *. f_equal.
    symmetry. now apply list_insert_id.
Qed.

Lemma get_set_slot (k : ListenerSlot) (v : option ListenerId) (n : DomNode) :
  get_slot k (set_slot k v n) = v.
Proof. now destruct k. Qed.

Lemma fresh_tracked (kind : NodeKind) (name data : string) (k : ListenerSlot) :
  tracked k (freshNode kind name data).
Proof. now destruct k. Qed.

(** One rebind, from a node whose listeners for the event are the tracked
    ones: afterwards the one listener for the event is the closure that has
    just been created, and it is the one remembered in the slot. *)
Lemma rebind_tracked (k : ListenerSlot) (el : NodeId) (pre : M bool)
    (mk : bool -> Listener) (w : World) (n : DomNode) :
  nodes w !! el = Some n ->
  tracked k n ->
  (forall w1 n1, nodes w1 !! el = Some n1 -> exists b, pre w1 = Ok b w1) ->
  exists w' n',
    rebind k el pre mk w = Ok tt w' /\
    nodes w' !! el = Some n' /\
    listenersFor (slotEvent k) n' = [length (closures w)] /\
    get_slot k n' = Some (length (closures w)) /\
    attributes n' = attributes n /\
    length (closures w') = S (length (closures w)).
Proof.
  intros Hn Htr Hpre. unfold rebind.
  rewrite (bind_Ok _ _ _ _ _ (readNode_Some _ _ _ Hn)).
  rewrite (bind_Ok _ _ _ _ _ (removeEventListener_known _ _ _ _ _ Hn)).
  set (n1 := match get_slot k n with
             | Some l => set_eventListeners
                           (dropListener (slotEvent k) l (eventListeners n)) n
             | None => n
             end).
  set (w1 := set_nodes (<[el := n1]> (nodes w)) w).
  assert (Hlen : (el < length (nodes w))%nat) by (now apply lookup_lt_Some in Hn).
  assert (Hn1 : nodes w1 !! el = Some n1) by (now apply list_lookup_insert_eq).
  assert (Hnone : listenersFor (slotEvent k) n1 = []).
  { unfold tracked, listenersFor in *. subst n1.
    destruct (get_slot k n) as [l|]; [|exact Htr].
    change (forEvent (slotEvent k)
              (dropListener (slotEvent k) l (eventListeners n)) = []).
    rewrite forEvent_drop, Htr. cbn. now rewrite Nat.eqb_refl. }
  destruct (Hpre w1 n1 Hn1) as [b Hb].
  rewrite (bind_Ok _ _ _ _ _ Hb).
  unfold allocListener at 1. unfold bind at 1.
  set (new := length (closures w1)).
  set (w2 := set_closures (closures w1 ++ [mk b]) w1).
  assert (Hn2 : nodes w2 !! el = Some n1) by exact Hn1.
  rewrite (bind_Ok _ _ _ _ _ (updateNode_known _ _ _ _ Hn2)).
  set (n2 := set_slot k (Some new) n1).
  set (w3 := set_nodes (<[el := n2]> (nodes w2)) w2).
  assert (Hn3 : nodes w3 !! el = Some n2).
  { apply list_lookup_insert_eq. subst w2 w1. cbn. now rewrite length_insert. }
  cbn [addEventListener].
  rewrite (updateNode_known _ _ _ _ Hn3).
  assert (Hls2 : eventListeners n2 = eventListeners n1) by (subst n2; now destruct k).
  rewrite Hls2.
  rewrite (forEvent_nil_has _ new _ Hnone).
  eexists. eexists. split; [reflexivity|].
  split.
  { cbn. apply list_lookup_insert_eq. rewrite !length_insert. exact Hlen. }
  split.
  { change (forEvent (slotEvent k) (eventListeners n1 ++ [(slotEvent k, new)])
            = [length (closures w)]).
    rewrite forEvent_snoc. unfold listenersFor in Hnone. now rewrite Hnone. }
  split.
  { change (get_slot k (set_eventListeners (eventListeners n1 ++ [(slotEvent k, new)]) n2))
      with (get_slot k n2).
    subst n2. apply get_set_slot. }
  split.
  { subst n2 n1. destruct k, (get_slot _ n); reflexivity. }
  cbn. rewrite length_app. cbn. lia.
Qed.

Lemma applyAttribute_event (k : ListenerSlot) (componentId : Z) (el : NodeId)
    (frame : RenderTreeFramePointer) (w : World) (n : DomNode) :
  renderTreeFrame.attributeName frame = Some (slotAttribute k) ->
  nodes w !! el = Some n ->
  applyAttribute componentId (Some el) frame w =
    rebind k el (slotPre k el)
      (slotListener k (browserRendererId w) componentId
         (renderTreeFrame.attributeEventHandlerId frame)) w.
Proof.
  intros Hname Hn. unfold applyAttribute. rewrite Hname, bind_getWorld.
  rewrite (bind_Ok _ _ _ _ _ (deref_Some _ _ _ Hn)). cbn [fst snd].
  destruct k; reflexivity.
Qed.

Lemma slotPre_total (k : ListenerSlot) (el : NodeId) (w : World) (n : DomNode) :
  nodes w !! el = Some n -> exists b, slotPre k el w = Ok b w.
Proof.
  intros Hn. destruct k.
  - eexists. reflexivity.
  - eexists. apply (isCheckbox_eq _ _ _ Hn).
  - eexists. reflexivity.
Qed.

(** C7: for [onclick], [onchange] and [onkeypress], applying the same
    attribute frame twice to a node whose listeners for that event are the
    tracked ones (as on every node the renderer has created) returns
    normally both times and leaves exactly one listener for the event: the
    closure made by the second application, which is also the one
    remembered on the node.  The closure made by the first application,
    the only listener in between, has been removed. *)
Theorem rebind_twice_one_listener (k : ListenerSlot) (componentId : Z) (el : NodeId)
    (frame : RenderTreeFramePointer) (w : World) (n : DomNode) :
  renderTreeFrame.attributeName frame = Some (slotAttribute k) ->
  nodes w !! el = Some n ->
  tracked k n ->
  exists w1 n1 l1 w2 n2 l2,
    applyAttribute componentId (Some el) frame w = Ok tt w1 /\
    nodes w1 !! el = Some n1 /\
    listenersFor (slotEvent k) n1 = [l1] /\
    applyAttribute componentId (Some el) frame w1 = Ok tt w2 /\
    nodes w2 !! el = Some n2 /\
    listenersFor (slotEvent k) n2 = [l2] /\
    get_slot k n2 = Some l2 /\
    l2 <> l1.
Proof.
  intros Hname Hn Htr.
  destruct (rebind_tracked k el (slotPre k el)
              (slotListener k (browserRendererId w) componentId
                 (renderTreeFrame.attributeEventHandlerId frame)) w n Hn Htr
              (slotPre_total k el))
    as (w1 & n1 & Hrun1 & Hn1 & Hls1 & Hslot1 & _ & Hlen1).
  assert (Htr1 : tracked k n1) by (unfold tracked; now rewrite Hls1, Hslot1).
  destruct (rebind_tracked k el (slotPre k el)
              (slotListener k (browserRendererId w1) componentId
                 (renderTreeFrame.attributeEventHandlerId frame)) w1 n1 Hn1 Htr1
              (slotPre_total k el))
    as (w2 & n2 & Hrun2 & Hn2 & Hls2 & Hslot2 & _ & _).
  exists w1, n1, (length (closures w)), w2, n2, (length (closures w1)).
  rewrite (applyAttribute_event k _ _ _ _ _ Hname Hn).
  rewrite (applyAttribute_event k _ _ _ _ _ Hname Hn1).
  repeat split; try assumption. lia.
Qed.

Lemma rebind_twice_one_listener_witness :
  exists w2 n2 l2,
    (applyAttribute 1 (Some 0%nat) (plainAttribute "onclick" None) ;;
     applyAttribute 1 (Some 0%nat) (plainAttribute "onclick" None)) page = Ok tt w2 /\
    nodes w2 !! 0%nat = Some n2 /\
    listenersFor "click" n2 = [l2].
Proof.
  destruct (rebind_twice_one_listener ClickSlot 1 0%nat
              (plainAttribute "onclick" None) page (freshNode ElementNode "DIV" ""))
    as (w1 & n1 & l1 & w2 & n2 & l2 & Hrun1 & _ & _ & Hrun2 & Hn2 & Hls2 & _).
  - reflexivity.
  - reflexivity.
  - apply fresh_tracked.
  - exists w2, n2, l2. split; [|split; assumption].
    now rewrite (bind_Ok _ _ _ _ _ Hrun1).
Defined.

(** ** C3: the cursor of the walk *)

Ltac inv_bind H :=
  repeat (let a := fresh "a" in let w := fresh "w" in let E := fresh "E" in
          apply bind_inv_Ok in H as (a & w & E & H)).

Lemma ret_inv_Ok {A} (a b : A) (w w' : World) : ret a w = Ok b w' -> a = b /\ w = w'.
Proof. unfold ret. intros H. injection H as -> ->. now split. Qed.

(** What one edit does to the depth and to the child index of the cursor. *)
Lemma applyEdit_cursor (componentId childIndex : Z)
    (referenceFrames : list RenderTreeFramePointer)
    (edit : RenderTreeEditPointer) (c c' : Cursor) (w w' : World) :
  applyEdit componentId childIndex referenceFrames edit c w = Ok c' w' ->
  currentDepth c' = currentDepth c + depthChange edit /\
  childIndexAtCurrentDepth c' =
    match renderTreeEdit.type edit with
    | EditType.stepIn => 0
    | EditType.stepOut => if currentDepth c' =? 0 then childIndex else 0
    | _ => childIndexAtCurrentDepth c
    end.
Proof.
  unfold applyEdit, depthChange. intros H.
  destruct (renderTreeEdit.type edit); inv_bind H;
    try (apply ret_inv_Ok in H as [<- _]);
    try discriminate;
    try (destruct (currentDepth c =? 0));
    cbn; (split; [lia|reflexivity]).
Qed.

Lemma applyEditList_app (componentId childIndex : Z)
    (referenceFrames : list RenderTreeFramePointer)
    (es1 es2 : list RenderTreeEditPointer) (c : Cursor) (w : World) :
  applyEditList componentId childIndex referenceFrames (es1 ++ es2) c w =
  (c1 <- applyEditList componentId childIndex referenceFrames es1 c ;;
   applyEditList componentId childIndex referenceFrames es2 c1) w.
Proof.
  revert c w. induction es1 as [|e es1 IH]; intros c w; [reflexivity|].
  cbn [app applyEditList]. rewrite bind_assoc.
  apply bind_ext. intros c1 w1. apply IH.
Qed.



Lemma getRenderTreeEditPtr_Some (edits : list RenderTreeEditPointer) (i : Z)
    (e : RenderTreeEditPointer) (w : World) :
  0 <= i -> edits !! Z.to_nat i = Some e -> getRenderTreeEditPtr edits i w = Ok e w.
Proof.
  intros Hi He. unfold getRenderTreeEditPtr.
  now rewrite (proj2 (nthZ_Some edits i e) (conj Hi He)).
Qed.

(** The loop of [applyEdits] is the walk over the edits it reads. *)
Lemma applyEdits_loop_list (componentId childIndex : Z)
    (edits : list RenderTreeEditPointer)
    (referenceFrames : list RenderTreeFramePointer)
    (turns : nat) (editIndex : Z) (c : Cursor) (w : World) :
  0 <= editIndex ->
  (Z.to_nat editIndex + turns <= length edits)%nat ->
  applyEdits_loop turns componentId childIndex edits referenceFrames editIndex c w =
  applyEditList componentId childIndex referenceFrames
    (take turns (drop (Z.to_nat editIndex) edits)) c w.
Proof.
  revert editIndex c w. induction turns as [|turns IH]; intros editIndex c w Hi Hlen.
  - reflexivity.
  - destruct (lookup_lt_is_Some_2 edits (Z.to_nat editIndex)) as [e He]; [lia|].
    rewrite (drop_S _ _ _ He). cbn [take applyEdits_loop applyEditList].
    rewrite (bind_Ok _ _ _ _ _ (getRenderTreeEditPtr_Some _ _ _ _ Hi He)).
    apply bind_ext. intros c1 w1.
    rewrite IH by lia. now replace (Z.to_nat (editIndex + 1)) with (S (Z.to_nat editIndex)) by lia.
Qed.

Lemma applyEdits_whole (componentId : Z) (parent : NodeRef) (childIndex : Z)
    (edits : list RenderTreeEditPointer)
    (referenceFrames : list RenderTreeFramePointer) (w : World) :
  applyEdits componentId parent childIndex edits 0 (Z.of_nat (length edits))
    referenceFrames w =
  (c <- applyEditList componentId childIndex referenceFrames edits
          (mkCursor parent 0 childIndex 0) ;;
   ret (topLevelNodeCountChange c)) w.
Proof.
  unfold applyEdits.
  replace (Z.to_nat (0 + Z.of_nat (length edits) - 0)) with (length edits) by lia.
  unfold bind. rewrite applyEdits_loop_list by (cbn; lia).
  cbn [Z.to_nat drop]. now rewrite firstn_all.
Qed.




(** ** Fuel: the materialization always returns or throws *)

Lemma settles_ret {A} (a : A) : settles (ret a).
Proof. intros w. discriminate. Qed.

Lemma settles_throw {A} (e : Error) : settles (@throw A e).
Proof. intros w. discriminate. Qed.

Lemma settles_getWorld : settles getWorld.
Proof. intros w. discriminate. Qed.

Lemma settles_modifyWorld (f : World -> World) : settles (modifyWorld f).
Proof. intros w. discriminate. Qed.

Lemma settles_bind {A B} (m : M A) (f : A -> M B) :
  settles m -> (forall a, settles (f a)) -> settles (bind m f).
Proof.
  intros Hm Hf w. unfold bind. specialize (Hm w).
  destruct (m w); [apply Hf|discriminate|congruence].
Qed.

Lemma bind_settles_at {A B} (m : M A) (f : A -> M B) (w : World) :
  m w <> OutOfFuel ->
  (forall a w', m w = Ok a w' -> f a w' <> OutOfFuel) ->
  bind m f w <> OutOfFuel.
Proof.
  intros Hm Hf. unfold bind. destruct (m w); [now apply Hf|discriminate|congruence].
Qed.

Lemma settles_deref (r : NodeRef) : settles (deref r).
Proof.
  intros w. unfold deref. destruct r; [|discriminate].
  destruct (nodes w !! n); discriminate.
Qed.

Lemma settles_allocNode (n : DomNode) : settles (allocNode n).
Proof. intros w. discriminate. Qed.

Lemma settles_allocListener (l : Listener) : settles (allocListener l).
Proof. intros w. discriminate. Qed.

Create HintDb settle.

#[local] Hint Resolve settles_ret settles_throw settles_getWorld settles_modifyWorld
  settles_deref settles_allocNode settles_allocListener : settle.

Ltac settle :=
  repeat first
    [ solve [auto 1 with settle nocore]
    | apply settles_bind; [|intros ?]
    | match goal with
      | |- settles (if ?b then _ else _) => destruct b
      | |- settles (match ?x with _ => _ end) => destruct x
      | |- settles (let (_, _) := ?x in _) => destruct x
      end ].

Lemma settles_readNode (id : NodeId) : settles (readNode id).
Proof. unfold readNode. settle. Qed.

Lemma settles_updateNode (id : NodeId) (f : DomNode -> DomNode) : settles (updateNode id f).
Proof. unfold updateNode. settle. Qed.

#[local] Hint Resolve settles_readNode settles_updateNode : settle.

Lemma settles_detach (id : NodeId) : settles (detach id).
Proof. unfold detach. settle. Qed.

#[local] Hint Resolve settles_detach : settle.

Lemma settles_appendChild (parent : NodeId) (node : NodeRef) :
  settles (appendChild parent node).
Proof. unfold appendChild. settle. Qed.

#[local] Hint Resolve settles_appendChild : settle.

Lemma settles_insertBefore (parent : NodeId) (node child : NodeRef) :
  settles (insertBefore parent node child).
Proof. unfold insertBefore. settle. Qed.

#[local] Hint Resolve settles_insertBefore : settle.

Lemma settles_insertNodeIntoDOM (node : NodeId) (parent : NodeRef) (childIndex : Z) :
  settles (insertNodeIntoDOM node parent childIndex).
Proof. unfold insertNodeIntoDOM. settle. Qed.

Lemma settles_asElement (r : NodeRef) : settles (asElement r).
Proof. unfold asElement. settle. Qed.

#[local] Hint Resolve settles_insertNodeIntoDOM settles_asElement : settle.

Lemma settles_getAttribute (element : NodeRef) (name : string) :
  settles (getAttribute element name).
Proof. unfold getAttribute. settle. Qed.

Lemma settles_setAttribute (element : NodeRef) (name value : string) :
  settles (setAttribute element name value).
Proof. unfold setAttribute. settle. Qed.

#[local] Hint Resolve settles_getAttribute settles_setAttribute : settle.

Lemma settles_isCheckbox (element : NodeId) : settles (isCheckbox element).
Proof. unfold isCheckbox. settle. Qed.

#[local] Hint Resolve settles_isCheckbox : settle.

Lemma settles_tryApplyValueProperty (element : NodeId) (value : JsString) :
  settles (tryApplyValueProperty element value).
Proof. unfold tryApplyValueProperty. settle. Qed.

Lemma settles_removeEventListener (target : NodeId) (type : string) (l : option ListenerId) :
  settles (removeEventListener target type l).
Proof. unfold removeEventListener. settle. Qed.

Lemma settles_addEventListener (target : NodeId) (type : string) (l : option ListenerId) :
  settles (addEventListener target type l).
Proof. unfold addEventListener. settle. Qed.

#[local] Hint Resolve settles_tryApplyValueProperty settles_removeEventListener
  settles_addEventListener : settle.

Lemma settles_applyAttribute (componentId : Z) (toDomElement : NodeRef)
    (attributeFrame : RenderTreeFramePointer) :
  settles (applyAttribute componentId toDomElement attributeFrame).
Proof. unfold applyAttribute. settle. Qed.

Lemma settles_insertComponentMarker (componentId : Z) (parent : NodeRef) (childIndex : Z) :
  settles (insertComponentMarker componentId parent childIndex).
Proof. unfold insertComponentMarker, createComment, bindLocation. settle. Qed.

Lemma settles_insertText (parent : NodeRef) (childIndex : Z)
    (textFrame : RenderTreeFramePointer) :
  settles (insertText parent childIndex textFrame).
Proof. unfold insertText, createTextNode. settle. Qed.

Lemma settles_getTreeFramePtr (frames : list RenderTreeFramePointer) (i : Z) :
  settles (getTreeFramePtr frames i).
Proof. unfold getTreeFramePtr. settle. Qed.

#[local] Hint Resolve settles_applyAttribute settles_insertComponentMarker
  settles_insertText settles_getTreeFramePtr : settle.

Lemma getTreeFramePtr_inv (frames : list RenderTreeFramePointer) (i : Z)
    (f : RenderTreeFramePointer) (w w' : World) :
  getTreeFramePtr frames i w = Ok f w' ->
  w' = w /\ nthZ frames i = Some f /\ 0 <= i < Z.of_nat (length frames).
Proof.
  unfold getTreeFramePtr. destruct (nthZ frames i) as [f'|] eqn:Hnth; [|discriminate].
  intros H. apply ret_inv_Ok in H as [-> ->]. split; [reflexivity|]. split; [reflexivity|].
  apply nthZ_Some in Hnth as [Hi Hl]. apply lookup_lt_Some in Hl. lia.
Qed.

Lemma getTreeFramePtr_Some (frames : list RenderTreeFramePointer) (i : Z)
    (f : RenderTreeFramePointer) (w : World) :
  nthZ frames i = Some f -> getTreeFramePtr frames i w = Ok f w.
Proof. intros H. unfold getTreeFramePtr. now rewrite H. Qed.

Lemma getTreeFramePtr_None (frames : list RenderTreeFramePointer) (i : Z) (w : World) :
  nthZ frames i = None -> getTreeFramePtr frames i w = Throw BadRead w.
Proof. intros H. unfold getTreeFramePtr. now rewrite H. Qed.

(** Every call and every turn of a loop of the materialization goes on at
    a larger index of the table, so four units of fuel for each entry that
    is left are enough. *)
Lemma fuel_enough_at (frames : list RenderTreeFramePointer) (m : nat) :
  (forall fuel componentId parent orig childIndex index endIndexExcl,
     (room frames index <= m)%nat -> (4 * m + 1 <= fuel)%nat ->
     settles (insertFrameRange_loop fuel componentId parent orig childIndex frames
                index endIndexExcl)) /\
  (forall fuel componentId newDomElement index endIndexExcl,
     (room frames index <= m)%nat -> (4 * m + 2 <= fuel)%nat ->
     settles (insertElement_loop fuel componentId newDomElement frames
                index endIndexExcl)) /\
  (forall fuel componentId parent childIndex frame frameIndex,
     (room frames (frameIndex + 1) <= m)%nat -> (4 * m + 3 <= fuel)%nat ->
     settles (insertElement_fuel fuel componentId parent childIndex frames
                frame frameIndex)) /\
  (forall fuel componentId parent childIndex frame frameIndex,
     (room frames (frameIndex + 1) <= m)%nat -> (4 * m + 4 <= fuel)%nat ->
     settles (insertFrame_fuel fuel componentId parent childIndex frames
                frame frameIndex)).
Proof.
  induction m as [m IH] using lt_wf_ind.
  assert (Hrange :
    forall fuel componentId parent orig childIndex index endIndexExcl,
      (room frames index <= m)%nat -> (4 * m + 1 <= fuel)%nat ->
      settles (insertFrameRange_loop fuel componentId parent orig childIndex frames
                 index endIndexExcl)).
  { intros [|fuel] componentId parent orig childIndex index endIndexExcl Hroom Hfuel;
      [lia|].
    cbn [insertFrameRange_loop]. destruct (index <? endIndexExcl); [|settle].
    intros w. apply bind_settles_at; [apply settles_getTreeFramePtr|].
    intros frame w' Hread. apply getTreeFramePtr_inv in Hread as (-> & _ & Hidx).
    assert (Hm : (1 <= m)%nat) by (unfold room in Hroom; lia).
    destruct (IH (m - 1)%nat ltac:(lia)) as (I1 & _ & _ & I4).
    apply bind_settles_at.
    - apply I4; unfold room in *; lia.
    - intros n w' _. apply I1; [|lia].
      unfold room in *. destruct (renderTreeFrame.subtreeLength frame >? 1) eqn:Hl;
        [apply Z.gtb_lt in Hl|]; lia. }
  assert (Hloop :
    forall fuel componentId newDomElement index endIndexExcl,
      (room frames index <= m)%nat -> (4 * m + 2 <= fuel)%nat ->
      settles (insertElement_loop fuel componentId newDomElement frames
                 index endIndexExcl)).
  { intros [|fuel] componentId newDomElement index endIndexExcl Hroom Hfuel; [lia|].
    cbn [insertElement_loop]. destruct (index <? endIndexExcl); [|settle].
    intros w. apply bind_settles_at; [apply settles_getTreeFramePtr|].
    intros frame w' Hread. apply getTreeFramePtr_inv in Hread as (-> & _ & Hidx).
    assert (Hm : (1 <= m)%nat) by (unfold room in Hroom; lia).
    destruct (IH (m - 1)%nat ltac:(lia)) as (_ & I2 & _ & _).
    destruct (FrameType.eqb _ _).
    - apply settles_bind; [apply settles_applyAttribute|]. intros _.
      apply I2; unfold room in *; lia.
    - apply settles_bind; [|intros ?; apply settles_ret].
      apply Hrange; [exact Hroom|lia]. }
  assert (Helement :
    forall fuel componentId parent childIndex frame frameIndex,
      (room frames (frameIndex + 1) <= m)%nat -> (4 * m + 3 <= fuel)%nat ->
      settles (insertElement_fuel fuel componentId parent childIndex frames
                 frame frameIndex)).
  { intros [|fuel] componentId parent childIndex frame frameIndex Hroom Hfuel; [lia|].
    cbn [insertElement_fuel]. unfold createElement.
    apply settles_bind; [settle|]. intros el.
    apply settles_bind; [settle|]. intros _.
    apply Hloop; [exact Hroom|lia]. }
  repeat split; try assumption.
  intros [|fuel] componentId parent childIndex frame frameIndex Hroom Hfuel; [lia|].
  cbn [insertFrame_fuel]. destruct (renderTreeFrame.frameType frame).
  - apply settles_bind; [|intros ?; apply settles_ret]. apply Helement; [exact Hroom|lia].
  - settle.
  - settle.
  - unfold insertComponent. settle.
  - apply Hrange; [exact Hroom|lia].
  - settle.
Qed.

Lemma room_le (frames : list RenderTreeFramePointer) (i : Z) :
  (room frames i <= length frames)%nat.
Proof. unfold room. lia. Qed.

Lemma settles_insertFrame (componentId : Z) (parent : NodeRef) (childIndex : Z)
    (frames : list RenderTreeFramePointer) (frame : RenderTreeFramePointer)
    (frameIndex : Z) :
  settles (insertFrame componentId parent childIndex frames frame frameIndex).
Proof.
  apply (fuel_enough_at frames (length frames)); [apply room_le|unfold frameFuel; lia].
Qed.

Lemma settles_insertFrameRange (componentId : Z) (parent : NodeRef) (childIndex : Z)
    (frames : list RenderTreeFramePointer) (startIndex endIndexExcl : Z) :
  settles (insertFrameRange componentId parent childIndex frames startIndex endIndexExcl).
Proof.
  apply (fuel_enough_at frames (length frames)); [apply room_le|unfold frameFuel; lia].
Qed.

(** ** Fuel: more fuel does not change a result *)

Lemma extends_refl {A} (m : M A) : extends m m.
Proof. intros w _. reflexivity. Qed.

Lemma extends_trans {A} (m1 m2 m3 : M A) :
  extends m1 m2 -> extends m2 m3 -> extends m1 m3.
Proof.
  intros H12 H23 w Hw. rewrite <- (H12 w Hw). apply H23. now rewrite (H12 w Hw).
Qed.

Lemma extends_outOfFuel {A} (m : M A) : extends outOfFuel m.
Proof. intros w Hw. now contradiction Hw. Qed.

Lemma extends_bind {A B} (m1 m2 : M A) (f1 f2 : A -> M B) :
  extends m1 m2 -> (forall a, extends (f1 a) (f2 a)) ->
  extends (bind m1 f1) (bind m2 f2).
Proof.
  intros Hm Hf w Hw. unfold bind in *.
  destruct (m1 w) as [a w1|e w1|] eqn:E1.
  - rewrite (Hm w) by (rewrite E1; discriminate). rewrite E1. now apply Hf.
  - rewrite (Hm w) by (rewrite E1; discriminate). now rewrite E1.
  - now contradiction Hw.
Qed.

Lemma insertFrame_fuel_S (fuel : nat) (componentId : Z) (parent : NodeRef)
    (childIndex : Z) (frames : list RenderTreeFramePointer)
    (frame : RenderTreeFramePointer) (frameIndex : Z) :
  insertFrame_fuel (S fuel) componentId parent childIndex frames frame frameIndex =
  match renderTreeFrame.frameType frame with
  | FrameType.element =>
    insertElement_fuel fuel componentId parent childIndex frames frame frameIndex ;;
    ret 1
  | FrameType.text => insertText parent childIndex frame ;; ret 1
  | FrameType.attribute => throw MisplacedAttributeFrame
  | FrameType.component => insertComponent parent childIndex frame ;; ret 1
  | FrameType.region =>
    insertFrameRange_loop fuel componentId parent childIndex childIndex frames
      (frameIndex + 1) (frameIndex + renderTreeFrame.subtreeLength frame)
  | FrameType.unknown raw => throw (UnknownFrameType raw)
  end.
Proof. reflexivity. Qed.

Lemma insertElement_fuel_S (fuel : nat) (componentId : Z) (parent : NodeRef)
    (childIndex : Z) (frames : list RenderTreeFramePointer)
    (frame : RenderTreeFramePointer) (frameIndex : Z) :
  insertElement_fuel (S fuel) componentId parent childIndex frames frame frameIndex =
  (newDomElement <- createElement (jsToString (renderTreeFrame.elementName frame)) ;;
   insertNodeIntoDOM newDomElement parent childIndex ;;
   insertElement_loop fuel componentId newDomElement frames
     (frameIndex + 1) (frameIndex + renderTreeFrame.subtreeLength frame)).
Proof. reflexivity. Qed.

Lemma insertElement_loop_S (fuel : nat) (componentId : Z) (newDomElement : NodeId)
    (frames : list RenderTreeFramePointer) (descendantIndex descendantsEndIndexExcl : Z) :
  insertElement_loop (S fuel) componentId newDomElement frames
    descendantIndex descendantsEndIndexExcl =
  if descendantIndex <? descendantsEndIndexExcl then
    descendantFrame <- getTreeFramePtr frames descendantIndex ;;
    if FrameType.eqb (renderTreeFrame.frameType descendantFrame) FrameType.attribute then
      applyAttribute componentId (Some newDomElement) descendantFrame ;;
      insertElement_loop fuel componentId newDomElement frames
        (descendantIndex + 1) descendantsEndIndexExcl
    else
      insertFrameRange_loop fuel componentId (Some newDomElement) 0 0 frames
        descendantIndex descendantsEndIndexExcl ;;
      ret tt
  else ret tt.
Proof. reflexivity. Qed.

Lemma insertFrameRange_loop_S (fuel : nat) (componentId : Z) (parent : NodeRef)
    (origChildIndex childIndex : Z) (frames : list RenderTreeFramePointer)
    (index endIndexExcl : Z) :
  insertFrameRange_loop (S fuel) componentId parent origChildIndex childIndex frames
    index endIndexExcl =
  if index <? endIndexExcl then
    frame <- getTreeFramePtr frames index ;;
    numChildrenInserted <-
      insertFrame_fuel fuel componentId parent childIndex frames frame index ;;
    insertFrameRange_loop fuel componentId parent origChildIndex
      (childIndex + numChildrenInserted) frames
      ((if renderTreeFrame.subtreeLength frame >? 1
        then index + (renderTreeFrame.subtreeLength frame - 1) else index) + 1)
      endIndexExcl
  else ret (childIndex - origChildIndex).
Proof. reflexivity. Qed.

Ltac extend :=
  repeat first
    [ apply extends_refl
    | apply extends_outOfFuel
    | solve [auto 1 with nocore]
    | apply extends_bind; [|intros ?]
    | match goal with
      | |- extends (if ?b then _ else _) (if ?b then _ else _) => destruct b
      | |- extends (match ?x with _ => _ end) (match ?x with _ => _ end) => destruct x
      end ].

Lemma fuel_step (frames : list RenderTreeFramePointer) (fuel : nat) :
  (forall componentId parent childIndex frame frameIndex,
     extends
       (insertFrame_fuel fuel componentId parent childIndex frames frame frameIndex)
       (insertFrame_fuel (S fuel) componentId parent childIndex frames frame frameIndex)) /\
  (forall componentId parent childIndex frame frameIndex,
     extends
       (insertElement_fuel fuel componentId parent childIndex frames frame frameIndex)
       (insertElement_fuel (S fuel) componentId parent childIndex frames frame frameIndex)) /\
  (forall componentId newDomElement index endIndexExcl,
     extends
       (insertElement_loop fuel componentId newDomElement frames index endIndexExcl)
       (insertElement_loop (S fuel) componentId newDomElement frames index endIndexExcl)) /\
  (forall componentId parent orig childIndex index endIndexExcl,
     extends
       (insertFrameRange_loop fuel componentId parent orig childIndex frames
          index endIndexExcl)
       (insertFrameRange_loop (S fuel) componentId parent orig childIndex frames
          index endIndexExcl)).
Proof.
  induction fuel as [|fuel (IHf & IHe & IHl & IHr)].
  - repeat split; intros; apply extends_outOfFuel.
  - repeat split; intros.
    + rewrite (insertFrame_fuel_S fuel), (insertFrame_fuel_S (S fuel)). extend.
    + rewrite (insertElement_fuel_S fuel), (insertElement_fuel_S (S fuel)). extend.
    + rewrite (insertElement_loop_S fuel), (insertElement_loop_S (S fuel)). extend.
    + rewrite (insertFrameRange_loop_S fuel), (insertFrameRange_loop_S (S fuel)). extend.
Qed.

Lemma fuel_le (frames : list RenderTreeFramePointer) (fuel fuel' : nat) :
  (fuel <= fuel')%nat ->
  (forall componentId parent childIndex frame frameIndex,
     extends
       (insertFrame_fuel fuel componentId parent childIndex frames frame frameIndex)
       (insertFrame_fuel fuel' componentId parent childIndex frames frame frameIndex)) /\
  (forall componentId parent childIndex frame frameIndex,
     extends
       (insertElement_fuel fuel componentId parent childIndex frames frame frameIndex)
       (insertElement_fuel fuel' componentId parent childIndex frames frame frameIndex)) /\
  (forall componentId newDomElement index endIndexExcl,
     extends
       (insertElement_loop fuel componentId newDomElement frames index endIndexExcl)
       (insertElement_loop fuel' componentId newDomElement frames index endIndexExcl)) /\
  (forall componentId parent orig childIndex index endIndexExcl,
     extends
       (insertFrameRange_loop fuel componentId parent orig childIndex frames
          index endIndexExcl)
       (insertFrameRange_loop fuel' componentId parent orig childIndex frames
          index endIndexExcl)).
Proof.
  induction 1 as [|fuel' _ (IHf & IHe & IHl & IHr)].
  - repeat split; intros; apply extends_refl.
  - destruct (fuel_step frames fuel') as (Sf & Se & Sl & Sr).
    repeat split; intros; eapply extends_trans; eauto.
Qed.

(** Above the bound of [fuel_enough_at], the amount of fuel is irrelevant. *)
Lemma insertFrameRange_loop_fuel (frames : list RenderTreeFramePointer)
    (fuel1 fuel2 : nat) componentId parent orig childIndex index endIndexExcl w :
  (4 * room frames index + 1 <= fuel1)%nat ->
  (4 * room frames index + 1 <= fuel2)%nat ->
  insertFrameRange_loop fuel1 componentId parent orig childIndex frames
    index endIndexExcl w =
  insertFrameRange_loop fuel2 componentId parent orig childIndex frames
    index endIndexExcl w.
Proof.
  intros H1 H2.
  pose proof (proj1 (fuel_enough_at frames (room frames index))
                (4 * room frames index + 1)%nat componentId parent orig childIndex
                index endIndexExcl (le_n _) (le_n _) w) as Hs.
  rewrite (proj2 (proj2 (proj2 (fuel_le frames _ _ H1))) _ _ _ _ _ _ w Hs).
  now rewrite (proj2 (proj2 (proj2 (fuel_le frames _ _ H2))) _ _ _ _ _ _ w Hs).
Qed.

Lemma insertElement_loop_fuel (frames : list RenderTreeFramePointer)
    (fuel1 fuel2 : nat) componentId newDomElement index endIndexExcl w :
  (4 * room frames index + 2 <= fuel1)%nat ->
  (4 * room frames index + 2 <= fuel2)%nat ->
  insertElement_loop fuel1 componentId newDomElement frames index endIndexExcl w =
  insertElement_loop fuel2 componentId newDomElement frames index endIndexExcl w.
Proof.
  intros H1 H2.
  pose proof (proj1 (proj2 (fuel_enough_at frames (room frames index)))
                (4 * room frames index + 2)%nat componentId newDomElement
                index endIndexExcl (le_n _) (le_n _) w) as Hs.
  rewrite (proj1 (proj2 (proj2 (fuel_le frames _ _ H1))) _ _ _ _ w Hs).
  now rewrite (proj1 (proj2 (proj2 (fuel_le frames _ _ H2))) _ _ _ _ w Hs).
Qed.

Lemma insertFrame_fuel_fuel (frames : list RenderTreeFramePointer)
    (fuel1 fuel2 : nat) componentId parent childIndex frame frameIndex w :
  (4 * room frames (frameIndex + 1) + 4 <= fuel1)%nat ->
  (4 * room frames (frameIndex + 1) + 4 <= fuel2)%nat ->
  insertFrame_fuel fuel1 componentId parent childIndex frames frame frameIndex w =
  insertFrame_fuel fuel2 componentId parent childIndex frames frame frameIndex w.
Proof.
  intros H1 H2.
  pose proof (proj2 (proj2 (proj2 (fuel_enough_at frames (room frames (frameIndex + 1)))))
                (4 * room frames (frameIndex + 1) + 4)%nat componentId parent childIndex
                frame frameIndex (le_n _) (le_n _) w) as Hs.
  rewrite (proj1 (fuel_le frames _ _ H1) _ _ _ _ _ w Hs).
  now rewrite (proj1 (fuel_le frames _ _ H2) _ _ _ _ _ w Hs).
Qed.

Lemma bind_ext_Ok {A B} (m : M A) (f g : A -> M B) w :
  (forall a w', m w = Ok a w' -> f a w' = g a w') -> bind m f w = bind m g w.
Proof. intros H. unfold bind. destruct (m w); auto. Qed.

Lemma room_next (frames : list RenderTreeFramePointer) (i j : Z) :
  0 <= i < Z.of_nat (length frames) -> i < j ->
  (room frames j + 1 <= room frames i)%nat.
Proof. unfold room. lia. Qed.

(** One turn of the loop of [insertFrameRange], with the calls it makes
    written as calls of the methods themselves. *)
Lemma insertFrameRange_loop_turn (componentId : Z) (parent : NodeRef)
    (orig childIndex : Z) (frames : list RenderTreeFramePointer)
    (index endIndexExcl : Z) (w : World) :
  insertFrameRange_loop (frameFuel frames) componentId parent orig childIndex frames
    index endIndexExcl w =
  (if index <? endIndexExcl then
     frame <- getTreeFramePtr frames index ;;
     numChildrenInserted <-
       insertFrame componentId parent childIndex frames frame index ;;
     insertFrameRange_loop (frameFuel frames) componentId parent orig
       (childIndex + numChildrenInserted) frames (nextIndex frame index) endIndexExcl
   else ret (childIndex - orig)) w.
Proof.
  unfold frameFuel at 1.
  replace (4 * length frames + 4)%nat with (S (4 * length frames + 3)) by lia.
  rewrite insertFrameRange_loop_S.
  destruct (index <? endIndexExcl); [|reflexivity].
  apply bind_ext_Ok. intros frame w' Hread.
  apply getTreeFramePtr_inv in Hread as (-> & _ & Hidx).
  pose proof (room_next frames index (index + 1) Hidx ltac:(lia)) as Hr1.
  pose proof (room_le frames index) as Hr.
  unfold insertFrame.
  unfold bind at 1 2.
  rewrite (insertFrame_fuel_fuel frames (4 * length frames + 3) (frameFuel frames))
    by (unfold frameFuel; lia).
  destruct (insertFrame_fuel _ _ _ _ _ _ _ _) as [n w1| |]; try reflexivity.
  apply insertFrameRange_loop_fuel; unfold frameFuel.
  - pose proof (room_next frames index (nextIndex frame index) Hidx) as Hr2.
    unfold nextIndex in *.
    destruct (renderTreeFrame.subtreeLength frame >? 1) eqn:Hl;
      [apply Z.gtb_lt in Hl|]; lia.
  - pose proof (room_le frames (nextIndex frame index)). lia.
Qed.

(** ** C4, C8: regions and the scan of a range *)

Lemma scanIndices_turns (frames : list RenderTreeFramePointer) (turns1 turns2 : nat)
    (index endIndexExcl : Z) :
  (room frames index + 1 <= turns1)%nat -> (room frames index + 1 <= turns2)%nat ->
  scanIndices turns1 frames index endIndexExcl =
  scanIndices turns2 frames index endIndexExcl.
Proof.
  revert turns2 index.
  induction turns1 as [|turns1 IH]; intros [|turns2] index H1 H2; try lia.
  cbn [scanIndices]. destruct (index <? endIndexExcl); [|reflexivity].
  destruct (nthZ frames index) as [frame|] eqn:Hnth; [|reflexivity].
  f_equal. apply nthZ_Some in Hnth as [Hi Hl]. apply lookup_lt_Some in Hl.
  assert (Hr : (room frames (nextIndex frame index) + 1 <= room frames index)%nat).
  { apply room_next; [lia|]. unfold nextIndex.
    destruct (renderTreeFrame.subtreeLength frame >? 1) eqn:Hlen;
      [apply Z.gtb_lt in Hlen|]; lia. }
  apply IH; lia.
Qed.

(** The loop of [insertFrameRange] hands the frames at [scanIndices] to
    [insertFrame], in that order. *)
Lemma insertFrameRange_loop_visits (componentId : Z) (parent : NodeRef)
    (orig : Z) (frames : list RenderTreeFramePointer) (endIndexExcl : Z)
    (turns : nat) (index childIndex : Z) (w : World) :
  (room frames index + 1 <= turns)%nat ->
  insertFrameRange_loop (frameFuel frames) componentId parent orig childIndex frames
    index endIndexExcl w =
  visitFrames componentId parent orig childIndex frames
    (scanIndices turns frames index endIndexExcl) w.
Proof.
  revert index childIndex w.
  induction turns as [|turns IH]; intros index childIndex w Hturns; [lia|].
  rewrite insertFrameRange_loop_turn. cbn [scanIndices].
  destruct (index <? endIndexExcl); [|reflexivity].
  cbn [visitFrames].
  destruct (nthZ frames index) as [frame|] eqn:Hnth.
  2:{ now rewrite !(bind_Throw _ _ _ _ _ (getTreeFramePtr_None _ _ w Hnth)). }
  rewrite !(bind_Ok _ _ _ _ _ (getTreeFramePtr_Some _ _ _ w Hnth)).
  apply bind_ext. intros n w1. apply IH.
  apply nthZ_Some in Hnth as [Hi Hl]. apply lookup_lt_Some in Hl.
  assert (Hr : (room frames (nextIndex frame index) + 1 <= room frames index)%nat).
  { apply room_next; [lia|]. unfold nextIndex.
    destruct (renderTreeFrame.subtreeLength frame >? 1) eqn:Hlen;
      [apply Z.gtb_lt in Hlen|]; lia. }
  lia.
Qed.

Lemma insertFrameRange_visits (componentId : Z) (parent : NodeRef) (childIndex : Z)
    (frames : list RenderTreeFramePointer) (startIndex endIndexExcl : Z) (w : World) :
  insertFrameRange componentId parent childIndex frames startIndex endIndexExcl w =
  visitFrames componentId parent childIndex childIndex frames
    (insertFrameRange_indices frames startIndex endIndexExcl) w.
Proof.
  apply insertFrameRange_loop_visits. pose proof (room_le frames startIndex). lia.
Qed.

Lemma insertFrame_region_range (componentId : Z) (parent : NodeRef) (childIndex : Z)
    (frames : list RenderTreeFramePointer) (frame : RenderTreeFramePointer)
    (frameIndex : Z) (w : World) :
  renderTreeFrame.frameType frame = FrameType.region ->
  insertFrame componentId parent childIndex frames frame frameIndex w =
  insertFrameRange componentId parent childIndex frames
    (frameIndex + 1) (frameIndex + renderTreeFrame.subtreeLength frame) w.
Proof.
  intros Hty. unfold insertFrame, insertFrameRange, insertFrameRange_fuel, frameFuel.
  replace (4 * length frames + 4)%nat with (S (4 * length frames + 3)) at 1 by lia.
  rewrite insertFrame_fuel_S, Hty.
  apply insertFrameRange_loop_fuel; pose proof (room_le frames (frameIndex + 1)); lia.
Qed.



Lemma nextIndex_max (frame : RenderTreeFramePointer) (index : Z) :
  nextIndex frame index = index + Z.max 1 (renderTreeFrame.subtreeLength frame).
Proof.
  unfold nextIndex.
  destruct (renderTreeFrame.subtreeLength frame >? 1) eqn:Hl;
    [apply Z.gtb_lt in Hl|]; lia.
Qed.

Lemma room_nextIndex (frames : list RenderTreeFramePointer) (index : Z)
    (frame : RenderTreeFramePointer) :
  nthZ frames index = Some frame ->
  (room frames (nextIndex frame index) + 1 <= room frames index)%nat.
Proof.
  intros Hnth. apply nthZ_Some in Hnth as [Hi Hl]. apply lookup_lt_Some in Hl.
  apply room_next; [lia|]. rewrite nextIndex_max. lia.
Qed.

Lemma scanIndices_bounds (frames : list RenderTreeFramePointer) (turns : nat)
    (index endIndexExcl j : Z) :
  j ∈ scanIndices turns frames index endIndexExcl -> index <= j < endIndexExcl.
Proof.
  revert index. induction turns as [|turns IH]; intros index Hj.
  - now apply elem_of_nil in Hj.
  - cbn [scanIndices] in Hj.
    destruct (Z.ltb_spec index endIndexExcl) as [Hlt|]; [|now apply elem_of_nil in Hj].
    apply elem_of_cons in Hj as [->|Hj]; [lia|].
    destruct (nthZ frames index) as [frame|]; [|now apply elem_of_nil in Hj].
    apply IH in Hj. rewrite nextIndex_max in Hj. lia.
Qed.

Lemma scanIndices_NoDup (frames : list RenderTreeFramePointer) (turns : nat)
    (index endIndexExcl : Z) :
  NoDup (scanIndices turns frames index endIndexExcl).
Proof.
  revert index. induction turns as [|turns IH]; intros index; [constructor|].
  cbn [scanIndices]. destruct (index <? endIndexExcl); [|constructor].
  apply NoDup_cons. split.
  - destruct (nthZ frames index) as [frame|]; [|apply not_elem_of_nil].
    intros Hin. apply scanIndices_bounds in Hin. rewrite nextIndex_max in Hin. lia.
  - destruct (nthZ frames index); [apply IH|constructor].
Qed.

(** From any index it has reached, the scan goes on as a scan that starts
    there. *)
Lemma scanIndices_drop (frames : list RenderTreeFramePointer) (endIndexExcl : Z)
    (k turns : nat) (index i : Z) :
  (room frames index + 1 <= turns)%nat ->
  scanIndices turns frames index endIndexExcl !! k = Some i ->
  drop k (scanIndices turns frames index endIndexExcl) =
  insertFrameRange_indices frames i endIndexExcl.
Proof.
  revert turns index. induction k as [|k IH]; intros [|turns] index Hturns Hk;
    try discriminate.
  - cbn [scanIndices] in Hk.
    assert (i = index) as ->.
    { destruct (index <? endIndexExcl); [|discriminate]. now injection Hk. }
    cbn [drop]. apply scanIndices_turns; [exact Hturns|].
    pose proof (room_le frames index). lia.
  - cbn [scanIndices] in *.
    destruct (index <? endIndexExcl); [|discriminate].
    cbn [drop]. cbn in Hk.
    destruct (nthZ frames index) as [frame|] eqn:Hnth; [|discriminate].
    apply IH; [|exact Hk].
    pose proof (room_nextIndex frames index frame Hnth). lia.
Qed.

(** C8: [insertFrameRange] over [startIndex, endIndexExcl) is one scan.
    It hands the frames at the indices [visited] to [insertFrame], in that
    order, and does nothing else.  The scan starts at [startIndex]; after
    the frame at index [i] it goes on at [i] plus that frame's subtree
    length (plus 1 when the subtree length is below 1), and ends when that
    is not below [endIndexExcl], or when [i] is outside the table.  So no
    index is visited twice, and no index after [i] and below [i] plus the
    subtree length, the range the call for the frame at [i] has consumed,
    is visited at this level at all. *)
Theorem insertFrameRange_single_scan (componentId : Z) (parent : NodeRef)
    (childIndex : Z) (frames : list RenderTreeFramePointer)
    (startIndex endIndexExcl : Z) :
  let visited := insertFrameRange_indices frames startIndex endIndexExcl in
  (forall w,
     insertFrameRange componentId parent childIndex frames startIndex endIndexExcl w =
     visitFrames componentId parent childIndex childIndex frames visited w) /\
  visited !! 0%nat = (if startIndex <? endIndexExcl then Some startIndex else None) /\
  (forall (k : nat) (i : Z),
     visited !! k = Some i ->
     visited !! S k =
       match nthZ frames i with
       | Some frame =>
         let next := i + Z.max 1 (renderTreeFrame.subtreeLength frame) in
         if next <? endIndexExcl then Some next else None
       | None => None
       end) /\
  NoDup visited /\
  (forall (k1 k2 : nat) (i j : Z) (frame : RenderTreeFramePointer),
     (k1 < k2)%nat -> visited !! k1 = Some i -> visited !! k2 = Some j ->
     nthZ frames i = Some frame ->
     i < j /\ i + renderTreeFrame.subtreeLength frame <= j).
Proof.
  intros visited. split; [|split; [|split; [|split]]].
  - intros w. apply insertFrameRange_visits.
  - subst visited. unfold insertFrameRange_indices. cbn [scanIndices].
    now destruct (startIndex <? endIndexExcl).
  - intros k i Hk.
    assert (Hi : i < endIndexExcl).
    { eapply scanIndices_bounds, list_elem_of_lookup_2, Hk. }
    pose proof (scanIndices_drop frames endIndexExcl k (S (length frames)) startIndex i
                  ltac:(pose proof (room_le frames startIndex); lia) Hk) as Hdrop.
    assert (Hnext : visited !! S k =
                    insertFrameRange_indices frames i endIndexExcl !! 1%nat).
    { rewrite <- Hdrop, lookup_drop. f_equal. lia. }
    rewrite Hnext. unfold insertFrameRange_indices. cbn [scanIndices].
    apply Z.ltb_lt in Hi. rewrite Hi.
    destruct (nthZ frames i) as [frame|] eqn:Hnth; [|reflexivity].
    cbn [lookup list_lookup]. rewrite <- nextIndex_max.
    destruct (length frames) as [|n] eqn:Hlen.
    { apply nthZ_Some in Hnth as [_ Hl]. apply lookup_lt_Some in Hl. lia. }
    cbn [scanIndices]. now destruct (nextIndex frame i <? endIndexExcl).
  - apply scanIndices_NoDup.
  - intros k1 k2 i j frame Hlt Hk1 Hk2 Hnth.
    pose proof (scanIndices_drop frames endIndexExcl k1 (S (length frames)) startIndex i
                  ltac:(pose proof (room_le frames startIndex); lia) Hk1) as Hdrop.
    assert (Hj : insertFrameRange_indices frames i endIndexExcl !! (k2 - k1)%nat = Some j).
    { rewrite <- Hdrop, lookup_drop. rewrite <- Hk2. f_equal. lia. }
    unfold insertFrameRange_indices in Hj. cbn [scanIndices] in Hj.
    destruct (i <? endIndexExcl); [|now rewrite lookup_nil in Hj].
    rewrite Hnth in Hj.
    destruct (k2 - k1)%nat as [|d] eqn:Hd; [lia|]. cbn in Hj.
    apply list_elem_of_lookup_2, scanIndices_bounds in Hj.
    rewrite nextIndex_max in Hj. lia.
Qed.

Lemma insertFrameRange_single_scan_witness :
  insertFrameRange_indices nestedTable 0 4 = [0; 3] /\
  insertFrameRange_indices nestedTable 0 4 !! 1%nat = Some 3.
Proof.
  split; [reflexivity|].
  exact (proj1 (proj2 (proj2 (insertFrameRange_single_scan 0 None 0 nestedTable 0 4)))
           0%nat 0 eq_refl).
Defined.

(** ** C1: the wrapper of a component *)

Lemma elem_of_drop_lookup {A} (l : list A) (n : nat) (x : A) :
  x ∈ drop n l <-> exists i, l !! (n + i)%nat = Some x.
Proof.
  rewrite list_elem_of_lookup. split; intros [i Hi]; exists i.
  - now rewrite lookup_drop in Hi.
  - now rewrite lookup_drop.
Qed.

Section Wrapping.
Variables (parent wrapper : NodeId) (pn : DomNode) (ci : nat).
Hypothesis Hnd : NoDup (childNodes pn).
Hypothesis Hpar : (parent ∉ childNodes pn).
Hypothesis Hwr : (wrapper ∉ childNodes pn).
Hypothesis Hwp : wrapper <> parent.
Hypothesis Hci : (ci <= length (childNodes pn))%nat.




End Wrapping.

(** *** What the walk leaves of the registry *)

Section KeepsLocation.
Variable cid : Z.

Lemma keeps_ret {A} (a : A) : keepsLocation cid (ret a).
Proof. intros w. reflexivity. Qed.

Lemma keeps_throw {A} (e : Error) : keepsLocation cid (@throw A e).
Proof. intros w. reflexivity. Qed.

Lemma keeps_outOfFuel {A} : keepsLocation cid (@outOfFuel A).
Proof. intros w. exact I. Qed.

Lemma keeps_getWorld : keepsLocation cid getWorld.
Proof. intros w. reflexivity. Qed.

Lemma keeps_bind {A B} (m : M A) (f : A -> M B) :
  keepsLocation cid m -> (forall a, keepsLocation cid (f a)) ->
  keepsLocation cid (bind m f).
Proof.
  intros Hm Hf w. unfold bind. specialize (Hm w).
  destruct (m w) as [a w1|e w1|]; [|exact Hm|exact I].
  specialize (Hf a w1). destruct (f a w1); [congruence|congruence|exact I].
Qed.

Lemma keeps_deref (r : NodeRef) : keepsLocation cid (deref r).
Proof.
  intros w. unfold deref. destruct r as [id|]; [|reflexivity].
  destruct (nodes w !! id); reflexivity.
Qed.

Lemma keeps_allocNode (n : DomNode) : keepsLocation cid (allocNode n).
Proof. intros w. reflexivity. Qed.

Lemma keeps_allocListener (l : Listener) : keepsLocation cid (allocListener l).
Proof. intros w. reflexivity. Qed.

Lemma keeps_updateNode (id : NodeId) (f : DomNode -> DomNode) :
  keepsLocation cid (updateNode id f).
Proof. intros w. reflexivity. Qed.

Lemma keeps_bindLocation (c : Z) (location : NodeRef) :
  c <> cid -> keepsLocation cid (bindLocation c location).
Proof. intros Hne w. cbn. now apply lookup_insert_ne. Qed.

Create HintDb keep.

#[local] Hint Resolve keeps_ret keeps_throw keeps_outOfFuel keeps_getWorld keeps_deref
  keeps_allocNode keeps_allocListener keeps_updateNode keeps_bindLocation : keep.

Ltac keep :=
  repeat first
    [ solve [auto 2 with keep nocore]
    | apply keeps_bind; [|intros ?]
    | match goal with
      | |- keepsLocation _ (if ?b then _ else _) => destruct b
      | |- keepsLocation _ (match ?x with _ => _ end) => destruct x
      end ].

Lemma keeps_readNode (id : NodeId) : keepsLocation cid (readNode id).
Proof. unfold readNode. keep. Qed.

#[local] Hint Resolve keeps_readNode : keep.

Lemma keeps_detach (id : NodeId) : keepsLocation cid (detach id).
Proof. unfold detach. keep. Qed.

#[local] Hint Resolve keeps_detach : keep.

Lemma keeps_appendChild (parent : NodeId) (node : NodeRef) :
  keepsLocation cid (appendChild parent node).
Proof. unfold appendChild. keep. Qed.

#[local] Hint Resolve keeps_appendChild : keep.

Lemma keeps_insertBefore (parent : NodeId) (node child : NodeRef) :
  keepsLocation cid (insertBefore parent node child).
Proof. unfold insertBefore. keep. Qed.

Lemma keeps_removeChild (parent : NodeId) (child : NodeRef) :
  keepsLocation cid (removeChild parent child).
Proof. unfold removeChild. keep. Qed.

Lemma keeps_parentElement (id : NodeId) : keepsLocation cid (parentElement id).
Proof. unfold parentElement. keep. Qed.

Lemma keeps_childAt (parent : NodeRef) (i : Z) : keepsLocation cid (childAt parent i).
Proof. unfold childAt. keep. Qed.

Lemma keeps_asElement (r : NodeRef) : keepsLocation cid (asElement r).
Proof. unfold asElement. keep. Qed.

#[local] Hint Resolve keeps_insertBefore keeps_removeChild keeps_parentElement
  keeps_childAt keeps_asElement : keep.

Lemma keeps_insertNodeIntoDOM (node : NodeId) (parent : NodeRef) (childIndex : Z) :
  keepsLocation cid (insertNodeIntoDOM node parent childIndex).
Proof. unfold insertNodeIntoDOM. keep. Qed.

Lemma keeps_removeNodeFromDOM (parent : NodeRef) (childIndex : Z) :
  keepsLocation cid (removeNodeFromDOM parent childIndex).
Proof. unfold removeNodeFromDOM. keep. Qed.

Lemma keeps_setAttribute (element : NodeRef) (name value : string) :
  keepsLocation cid (setAttribute element name value).
Proof. unfold setAttribute. keep. Qed.

Lemma keeps_getAttribute (element : NodeRef) (name : string) :
  keepsLocation cid (getAttribute element name).
Proof. unfold getAttribute. keep. Qed.

Lemma keeps_removeAttribute (element : NodeRef) (name : string) :
  keepsLocation cid (removeAttribute element name).
Proof. unfold removeAttribute. keep. Qed.

#[local] Hint Resolve keeps_insertNodeIntoDOM keeps_removeNodeFromDOM keeps_setAttribute
  keeps_getAttribute keeps_removeAttribute : keep.

Lemma keeps_removeAttributeFromDOM (parent : NodeRef) (childIndex : Z) (name : string) :
  keepsLocation cid (removeAttributeFromDOM parent childIndex name).
Proof. unfold removeAttributeFromDOM. keep. Qed.

Lemma keeps_isCheckbox (element : NodeId) : keepsLocation cid (isCheckbox element).
Proof. unfold isCheckbox. keep. Qed.

#[local] Hint Resolve keeps_removeAttributeFromDOM keeps_isCheckbox : keep.

Lemma keeps_tryApplyValueProperty (element : NodeId) (value : JsString) :
  keepsLocation cid (tryApplyValueProperty element value).
Proof. unfold tryApplyValueProperty. keep. Qed.

Lemma keeps_removeEventListener (target : NodeId) (type : string) (l : option ListenerId) :
  keepsLocation cid (removeEventListener target type l).
Proof. unfold removeEventListener. keep. Qed.

Lemma keeps_addEventListener (target : NodeId) (type : string) (l : option ListenerId) :
  keepsLocation cid (addEventListener target type l).
Proof. unfold addEventListener. keep. Qed.

#[local] Hint Resolve keeps_tryApplyValueProperty keeps_removeEventListener
  keeps_addEventListener : keep.

Lemma keeps_applyAttribute (componentId : Z) (toDomElement : NodeRef)
    (attributeFrame : RenderTreeFramePointer) :
  keepsLocation cid (applyAttribute componentId toDomElement attributeFrame).
Proof. unfold applyAttribute. keep. Qed.

Lemma keeps_orphan (ids : list NodeId) : keepsLocation cid (orphan ids).
Proof. induction ids as [|c ids IH]; cbn [orphan]; keep. Qed.

#[local] Hint Resolve keeps_applyAttribute keeps_orphan : keep.

Lemma keeps_setTextContent (node : NodeRef) (v : JsString) :
  keepsLocation cid (setTextContent node v).
Proof. unfold setTextContent, createTextNode. keep. Qed.

Lemma keeps_insertText (parent : NodeRef) (childIndex : Z)
    (textFrame : RenderTreeFramePointer) :
  keepsLocation cid (insertText parent childIndex textFrame).
Proof. unfold insertText, createTextNode. keep. Qed.

Lemma keeps_insertComponent (parent : NodeRef) (childIndex : Z)
    (frame : RenderTreeFramePointer) :
  renderTreeFrame.componentId frame <> cid ->
  keepsLocation cid (insertComponent parent childIndex frame).
Proof.
  intros Hne. unfold insertComponent, insertComponentMarker, createComment. keep.
Qed.

#[local] Hint Resolve keeps_setTextContent keeps_insertText keeps_insertComponent : keep.

Lemma keeps_read_frame {B} (frames : list RenderTreeFramePointer) (i : Z)
    (f : RenderTreeFramePointer -> M B) :
  (forall frame, frame ∈ frames -> keepsLocation cid (f frame)) ->
  keepsLocation cid (bind (getTreeFramePtr frames i) f).
Proof.
  intros Hf w. unfold bind, getTreeFramePtr.
  destruct (nthZ frames i) as [frame|] eqn:Hnth; [|reflexivity].
  apply nthZ_Some in Hnth as [_ Hl]. apply list_elem_of_lookup_2 in Hl.
  exact (Hf frame Hl w).
Qed.

Lemma keeps_materialize (frames : list RenderTreeFramePointer) (fuel : nat) :
  (forall frame, frame ∈ frames -> selfFree cid frame) ->
  (forall componentId parent childIndex frame frameIndex,
     selfFree cid frame ->
     keepsLocation cid
       (insertFrame_fuel fuel componentId parent childIndex frames frame frameIndex)) /\
  (forall componentId parent childIndex frame frameIndex,
     keepsLocation cid
       (insertElement_fuel fuel componentId parent childIndex frames frame frameIndex)) /\
  (forall componentId newDomElement index endIndexExcl,
     keepsLocation cid
       (insertElement_loop fuel componentId newDomElement frames index endIndexExcl)) /\
  (forall componentId parent orig childIndex index endIndexExcl,
     keepsLocation cid
       (insertFrameRange_loop fuel componentId parent orig childIndex frames
          index endIndexExcl)).
Proof.
  intros Hfree. induction fuel as [|fuel (IHf & IHe & IHl & IHr)].
  - repeat split; intros; apply keeps_outOfFuel.
  - repeat split; intros.
    + rewrite insertFrame_fuel_S.
      destruct (renderTreeFrame.frameType frame) eqn:Hty.
      * apply keeps_bind; [apply IHe|intros ?; apply keeps_ret].
      * keep.
      * keep.
      * apply keeps_bind; [|intros ?; apply keeps_ret].
        apply keeps_insertComponent. now apply H.
      * apply IHr.
      * keep.
    + rewrite insertElement_fuel_S. unfold createElement. keep.
    + rewrite insertElement_loop_S.
      destruct (index <? endIndexExcl); [|keep].
      apply keeps_read_frame. intros frame Hin. keep.
    + rewrite insertFrameRange_loop_S.
      destruct (index <? endIndexExcl); [|keep].
      apply keeps_read_frame. intros frame Hin.
      apply keeps_bind; [apply IHf, Hfree, Hin|]. intros n. apply IHr.
Qed.

Lemma keeps_applyEdit (componentId childIndex : Z)
    (frames : list RenderTreeFramePointer) (edit : RenderTreeEditPointer) (c : Cursor) :
  (forall frame, frame ∈ frames -> selfFree cid frame) ->
  keepsLocation cid (applyEdit componentId childIndex frames edit c).
Proof.
  intros Hfree. unfold applyEdit.
  destruct (renderTreeEdit.type edit); try solve [keep].
  - apply keeps_read_frame. intros frame Hin.
    apply keeps_bind; [|intros ?; keep].
    apply (keeps_materialize frames (frameFuel frames) Hfree). now apply Hfree.
  - apply keeps_read_frame. intros frame Hin. keep.
  - apply keeps_read_frame. intros frame Hin. keep.
Qed.

Lemma keeps_applyEdits (componentId : Z) (parent : NodeRef) (childIndex : Z)
    (edits : list RenderTreeEditPointer) (editsOffset editsLength : Z)
    (frames : list RenderTreeFramePointer) :
  (forall frame, frame ∈ frames -> selfFree cid frame) ->
  keepsLocation cid
    (applyEdits componentId parent childIndex edits editsOffset editsLength frames).
Proof.
  intros Hfree. unfold applyEdits. apply keeps_bind; [|intros ?; apply keeps_ret].
  generalize (Z.to_nat (editsOffset + editsLength - editsOffset)) as turns.
  generalize editsOffset as editIndex.
  generalize (mkCursor parent 0 childIndex 0) as c.
  intros c editIndex turns. revert c editIndex.
  induction turns as [|turns IH]; intros c editIndex; cbn [applyEdits_loop].
  - apply keeps_ret.
  - unfold getRenderTreeEditPtr. destruct (nthZ edits editIndex); [|keep].
    apply keeps_bind; [apply keeps_ret|]. intros e.
    apply keeps_bind; [now apply keeps_applyEdit|]. intros c'. apply IH.
Qed.

Lemma keeps_locateAnchor (marker : NodeId) : keepsLocation cid (locateAnchor marker).
Proof. unfold locateAnchor. keep. Qed.

End KeepsLocation.

Lemma wrapper_inserted (w1 : World) (parent : NodeId) (pn : DomNode) (ci : nat) :
  childrenConsistent w1 parent pn ->
  (ci <= length (childNodes pn))%nat ->
  exists wb,
    insertNodeIntoDOM (length (nodes w1)) (Some parent) (Z.of_nat ci)
      (set_nodes (nodes w1 ++ [freshNode ElementNode "BLAZOR-COMPONENT" ""]) w1)
      = Ok tt wb /\
    Wrapping parent (length (nodes w1)) pn ci 0 wb /\
    closures wb = closures w1 /\
    childComponentLocations wb = childComponentLocations w1 /\
    length (nodes wb) = S (length (nodes w1)).
Proof.
  intros (Hp & Hel & Hnd & Hpar & Hcs) Hci.
  set (wrapper := length (nodes w1)).
  set (fresh := freshNode ElementNode "BLAZOR-COMPONENT" "").
  set (wa := set_nodes (nodes w1 ++ [fresh]) w1).
  assert (Hlp : (parent < wrapper)%nat) by (now apply lookup_lt_Some in Hp).
  assert (Hpa : nodes wa !! parent = Some pn).
  { subst wa. cbn. now rewrite lookup_app_l. }
  assert (Hwa : nodes wa !! wrapper = Some fresh).
  { subst wa wrapper. cbn. now rewrite list_lookup_middle. }
  assert (Hvalid : forall c, c ∈ childNodes pn -> (c < wrapper)%nat).
  { intros c Hc. destruct (Hcs c Hc) as (cn & Hcn & _). now apply lookup_lt_Some in Hcn. }
  assert (Hcsa : forall c, c ∈ childNodes pn ->
                   exists cn, nodes wa !! c = Some cn /\ parentNode cn = Some parent).
  { intros c Hc. destruct (Hcs c Hc) as (cn & Hcn & Hcp). exists cn. split; [|exact Hcp].
    subst wa. cbn. rewrite lookup_app_l; [exact Hcn|now apply Hvalid]. }
  pose proof (insertNodeIntoDOM_detached wrapper parent (Z.of_nat ci) wa pn fresh
                Hpa Hel Hwa eq_refl ltac:(lia) ltac:(lia) Hnd Hcsa) as Hrun.
  replace (Z.to_nat (Z.min (Z.of_nat ci) (Z.of_nat (length (childNodes pn)))))
    with ci in Hrun by lia.
  eexists. split; [exact Hrun|].
  assert (Hla : length (nodes wa) = S wrapper).
  { subst wa wrapper. cbn. rewrite length_app. cbn. lia. }
  split; [|split; [reflexivity|split; [reflexivity|]]].
  2:{ cbn. now rewrite !length_insert. }
  unfold Wrapping, linkChild. cbn [nodes set_nodes].
  split; [|split; [|split]].
  - rewrite list_lookup_insert_ne by lia.
    rewrite list_lookup_insert_eq by lia. now rewrite Nat.add_0_r.
  - exists (set_parentNode (Some parent) fresh). split.
    { apply list_lookup_insert_eq. rewrite length_insert. lia. }
    repeat split.
  - intros c Hc.
    assert (Hin : c ∈ childNodes pn).
    { apply elem_of_drop_lookup in Hc as (i & Hi). eapply list_elem_of_lookup_2; eauto. }
    destruct (Hcsa c Hin) as (cn & Hcn & Hcp). exists cn. split; [|exact Hcp].
    pose proof (Hvalid c Hin).
    assert (c <> parent) by (intros ->; contradiction).
    rewrite !list_lookup_insert_ne by lia. exact Hcn.
  - intros c Hc. now apply elem_of_nil in Hc.
Qed.



(** ** C5: element frames *)






(** A node that has just been created is put under [parent]. *)
Lemma insert_fresh_child (w : World) (parent : NodeId) (pn fresh : DomNode)
    (childIndex : Z) :
  childrenConsistent w parent pn -> 0 <= childIndex -> parentNode fresh = None ->
  let id := length (nodes w) in
  let k := Z.to_nat (Z.min childIndex (Z.of_nat (length (childNodes pn)))) in
  exists w',
    insertNodeIntoDOM id (Some parent) childIndex (set_nodes (nodes w ++ [fresh]) w)
      = Ok tt w' /\
    nodes w' !! parent =
      Some (set_childNodes (take k (childNodes pn) ++ id :: drop k (childNodes pn)) pn) /\
    nodes w' !! id = Some (set_parentNode (Some parent) fresh) /\
    (forall x, x <> parent -> x <> id -> nodes w' !! x = nodes w !! x) /\
    length (nodes w') = S (length (nodes w)) /\
    closures w' = closures w /\
    childComponentLocations w' = childComponentLocations w.
Proof.
  intros (Hp & Hel & Hnd & Hpar & Hcs) Hci Hdet id k.
  set (wa := set_nodes (nodes w ++ [fresh]) w).
  assert (Hlp : (parent < id)%nat) by (now apply lookup_lt_Some in Hp).
  assert (Hpa : nodes wa !! parent = Some pn).
  { subst wa. cbn. now rewrite lookup_app_l. }
  assert (Hwa : nodes wa !! id = Some fresh).
  { subst wa id. cbn. now rewrite list_lookup_middle. }
  assert (Hcsa : forall c, c ∈ childNodes pn ->
                   exists cn, nodes wa !! c = Some cn /\ parentNode cn = Some parent).
  { intros c Hc. destruct (Hcs c Hc) as (cn & Hcn & Hcp). exists cn. split; [|exact Hcp].
    subst wa. cbn. rewrite lookup_app_l; [exact Hcn|]. now apply lookup_lt_Some in Hcn. }
  pose proof (insertNodeIntoDOM_detached id parent childIndex wa pn fresh
                Hpa Hel Hwa Hdet ltac:(lia) Hci Hnd Hcsa) as Hrun.
  fold k in Hrun. eexists. split; [exact Hrun|].
  assert (Hla : length (nodes wa) = S id).
  { subst wa id. cbn. rewrite length_app. cbn. lia. }
  unfold linkChild. cbn [nodes set_nodes closures childComponentLocations].
  split; [|split; [|split; [|split; [|split; reflexivity]]]].
  - rewrite list_lookup_insert_ne by lia. apply list_lookup_insert_eq. lia.
  - apply list_lookup_insert_eq. rewrite length_insert. lia.
  - intros x Hxp Hxi. rewrite !list_lookup_insert_ne by congruence.
    subst wa. cbn. destruct (decide (x < id)%nat) as [Hlt|Hge].
    + now rewrite lookup_app_l.
    + rewrite !lookup_ge_None_2; [reflexivity| |]; [fold id; lia|].
      rewrite length_app. cbn. fold id. lia.
  - now rewrite !length_insert.
Qed.


Lemma applyAttribute_plain (componentId : Z) (el : NodeId)
    (a : RenderTreeFramePointer) (w : World) (n : DomNode) :
  nodes w !! el = Some n -> isElement n = true -> isPlainAttribute a ->
  applyAttribute componentId (Some el) a w =
    Ok tt (set_nodes
             (<[el := set_attributes
                        (assoc_set (fst (attributeOf a)) (snd (attributeOf a))
                           (attributes n)) n]> (nodes w)) w).
Proof.
  intros Hn Hel (_ & Hv & Hc & Hch & Hk). unfold applyAttribute.
  rewrite bind_getWorld.
  rewrite (bind_Ok _ _ _ _ _ (deref_Some _ _ _ Hn)). cbn [fst snd].
  rewrite Hv, bind_ret_l, Hc, Hch, Hk.
  unfold setAttribute, asElement. rewrite !bind_assoc.
  rewrite (bind_Ok _ _ _ _ _ (deref_Some _ _ _ Hn)). cbn [fst snd].
  rewrite Hel, bind_ret_l. now rewrite (updateNode_known _ _ _ _ Hn).
Qed.


Lemma insertFrame_text (componentId : Z) (parent : NodeRef) (childIndex : Z)
    (frames : list RenderTreeFramePointer) (frame : RenderTreeFramePointer)
    (frameIndex : Z) (w : World) :
  renderTreeFrame.frameType frame = FrameType.text ->
  insertFrame componentId parent childIndex frames frame frameIndex w =
  (insertText parent childIndex frame ;; ret 1) w.
Proof.
  intros Hty. unfold insertFrame, frameFuel.
  replace (4 * length frames + 4)%nat with (S (4 * length frames + 3)) by lia.
  now rewrite insertFrame_fuel_S, Hty.
Qed.



(** *** The table against the tree of frames *)

Lemma insertFrame_component (componentId : Z) (parent : NodeRef) (childIndex : Z)
    (frames : list RenderTreeFramePointer) (frame : RenderTreeFramePointer)
    (frameIndex : Z) (w : World) :
  renderTreeFrame.frameType frame = FrameType.component ->
  insertFrame componentId parent childIndex frames frame frameIndex w =
  (insertComponent parent childIndex frame ;; ret 1) w.
Proof.
  intros Hty. unfold insertFrame, frameFuel.
  replace (4 * length frames + 4)%nat with (S (4 * length frames + 3)) by lia.
  now rewrite insertFrame_fuel_S, Hty.
Qed.

Lemma flattenTree_root (t : FrameTree) :
  exists fs, flattenTree t = rootFrame t :: fs.
Proof. destruct t; cbn; eauto. Qed.

Lemma flattenForest_nil (ts : FrameForest) : flattenForest ts = [] -> ts = FNil.
Proof.
  destruct ts as [|t rest]; [reflexivity|]. cbn.
  destruct (flattenTree_root t) as [fs ->]. discriminate.
Qed.







(** *** How many nodes a run adds *)

Lemma addsNodes_ret {A} (a : A) : addsNodes 0 (ret a).
Proof. intros w b w' H. apply ret_inv_Ok in H as [_ <-]. lia. Qed.

Lemma addsNodes_throw {A} (k : nat) (e : Error) : addsNodes k (@throw A e).
Proof. intros w b w' H. discriminate. Qed.

Lemma addsNodes_getWorld : addsNodes 0 getWorld.
Proof. intros w b w' H. injection H as _ <-. lia. Qed.

Lemma addsNodes_bind {A B} (k j : nat) (m : M A) (f : A -> M B) :
  addsNodes k m -> (forall a, addsNodes j (f a)) -> addsNodes (k + j) (bind m f).
Proof.
  intros Hm Hf w b w' H. apply bind_inv_Ok in H as (a & w1 & H1 & H2).
  apply Hm in H1. apply Hf in H2. lia.
Qed.

Lemma addsNodes_bind0 {A B} (m : M A) (f : A -> M B) :
  addsNodes 0 m -> (forall a, addsNodes 0 (f a)) -> addsNodes 0 (bind m f).
Proof. apply (addsNodes_bind 0 0). Qed.

Lemma addsNodes_deref (r : NodeRef) : addsNodes 0 (deref r).
Proof.
  intros w b w' H. unfold deref in H. destruct r as [id|]; [|discriminate].
  destruct (nodes w !! id); [|discriminate]. injection H as _ <-. lia.
Qed.

Lemma addsNodes_updateNode (id : NodeId) (f : DomNode -> DomNode) :
  addsNodes 0 (updateNode id f).
Proof.
  intros w b w' H. unfold updateNode, modifyWorld in H. injection H as _ <-.
  cbn [nodes set_nodes]. rewrite length_alter. lia.
Qed.


Lemma addsNodes_allocListener (l : Listener) : addsNodes 0 (allocListener l).
Proof. intros w b w' H. injection H as _ <-. cbn. lia. Qed.

Lemma addsNodes_bindLocation (c : Z) (location : NodeRef) :
  addsNodes 0 (bindLocation c location).
Proof.
  intros w b w' H. unfold bindLocation, modifyWorld in H. injection H as _ <-.
  cbn. lia.
Qed.

Create HintDb adds.

#[local] Hint Resolve addsNodes_ret addsNodes_throw addsNodes_getWorld addsNodes_deref
  addsNodes_updateNode addsNodes_allocListener addsNodes_bindLocation : adds.

Ltac adds :=
  repeat first
    [ solve [auto 1 with adds nocore]
    | apply addsNodes_bind0; [|intros ?]
    | match goal with
      | |- addsNodes _ (if ?b then _ else _) => destruct b
      | |- addsNodes _ (match ?x with _ => _ end) => destruct x
      end ].

Lemma addsNodes_readNode (id : NodeId) : addsNodes 0 (readNode id).
Proof. unfold readNode. adds. Qed.

#[local] Hint Resolve addsNodes_readNode : adds.

Lemma addsNodes_detach (id : NodeId) : addsNodes 0 (detach id).
Proof. unfold detach. adds. Qed.

#[local] Hint Resolve addsNodes_detach : adds.

Lemma addsNodes_appendChild (parent : NodeId) (node : NodeRef) :
  addsNodes 0 (appendChild parent node).
Proof. unfold appendChild. adds. Qed.

#[local] Hint Resolve addsNodes_appendChild : adds.

Lemma addsNodes_insertBefore (parent : NodeId) (node child : NodeRef) :
  addsNodes 0 (insertBefore parent node child).
Proof. unfold insertBefore. adds. Qed.

#[local] Hint Resolve addsNodes_insertBefore : adds.

Lemma addsNodes_insertNodeIntoDOM (node : NodeId) (parent : NodeRef) (childIndex : Z) :
  addsNodes 0 (insertNodeIntoDOM node parent childIndex).
Proof. unfold insertNodeIntoDOM. adds. Qed.

Lemma addsNodes_asElement (r : NodeRef) : addsNodes 0 (asElement r).
Proof. unfold asElement. adds. Qed.

#[local] Hint Resolve addsNodes_insertNodeIntoDOM addsNodes_asElement : adds.

Lemma addsNodes_getAttribute (element : NodeRef) (name : string) :
  addsNodes 0 (getAttribute element name).
Proof. unfold getAttribute. adds. Qed.

Lemma addsNodes_setAttribute (element : NodeRef) (name value : string) :
  addsNodes 0 (setAttribute element name value).
Proof. unfold setAttribute. adds. Qed.

#[local] Hint Resolve addsNodes_getAttribute addsNodes_setAttribute : adds.

Lemma addsNodes_isCheckbox (element : NodeId) : addsNodes 0 (isCheckbox element).
Proof. unfold isCheckbox. adds. Qed.

#[local] Hint Resolve addsNodes_isCheckbox : adds.

Lemma addsNodes_tryApplyValueProperty (element : NodeId) (value : JsString) :
  addsNodes 0 (tryApplyValueProperty element value).
Proof. unfold tryApplyValueProperty. adds. Qed.

Lemma addsNodes_removeEventListener (target : NodeId) (type : string)
    (l : option ListenerId) :
  addsNodes 0 (removeEventListener target type l).
Proof. unfold removeEventListener. adds. Qed.

Lemma addsNodes_addEventListener (target : NodeId) (type : string)
    (l : option ListenerId) :
  addsNodes 0 (addEventListener target type l).
Proof. unfold addEventListener. adds. Qed.

#[local] Hint Resolve addsNodes_tryApplyValueProperty addsNodes_removeEventListener
  addsNodes_addEventListener : adds.

Lemma addsNodes_applyAttribute (componentId : Z) (toDomElement : NodeRef)
    (attributeFrame : RenderTreeFramePointer) :
  addsNodes 0 (applyAttribute componentId toDomElement attributeFrame).
Proof. unfold applyAttribute. adds. Qed.

#[local] Hint Resolve addsNodes_applyAttribute : adds.









(** * Further properties of the renderer

    What the code does at its edges and how its operations compose: the
    failures it raises and what they leave behind, round trips of inserting
    and removing, what each function leaves alone, and what the numbers it
    returns count. *)

(** ** Taking a child out by its index *)

Lemma removeId_delete (c : NodeId) (l : list NodeId) (k : nat) :
  NoDup l -> l !! k = Some c -> removeId c l = delete k l.
Proof.
  revert k. induction l as [|y l IH]; intros [|k] Hnd Hk; try discriminate.
  - cbn in Hk. injection Hk as ->. apply NoDup_cons in Hnd as [Hnotin _].
    now apply removeId_head.
  - cbn in Hk. apply NoDup_cons in Hnd as [Hnotin Hnd]. cbn.
    destruct (Nat.eqb_spec y c) as [->|_].
    + exfalso. apply Hnotin. apply list_elem_of_lookup. eauto.
    + now rewrite (IH k Hnd Hk).
Qed.

Lemma set_nodes_same (w : World) : set_nodes (nodes w) w = w.
Proof. now destruct w. Qed.

Lemma removeNodeFromDOM_at (parent c : NodeId) (childIndex : Z) (w : World)
    (pn cn : DomNode) :
  childrenConsistent w parent pn ->
  nthZ (childNodes pn) childIndex = Some c ->
  nodes w !! c = Some cn ->
  removeNodeFromDOM (Some parent) childIndex w =
    Ok tt (set_nodes
             (<[c := set_parentNode None cn]>
                (<[parent := set_childNodes
                               (delete (Z.to_nat childIndex) (childNodes pn)) pn]>
                   (nodes w))) w).
Proof.
  intros (Hp & Hel & Hnd & Hpar & Hcs) Hnth Hc.
  apply nthZ_Some in Hnth as [Hi Hk].
  assert (Hin : c ∈ childNodes pn) by (apply list_elem_of_lookup; eauto).
  destruct (Hcs c Hin) as (cn' & Hc' & Hcp).
  rewrite Hc in Hc'. injection Hc' as <-.
  assert (Hne : c <> parent) by congruence.
  unfold removeNodeFromDOM.
  rewrite (bind_Ok _ _ _ _ _ (deref_Some _ _ _ Hp)). cbn [fst snd].
  assert (Hnth : nthZ (childNodes pn) childIndex = Some c) by (apply nthZ_Some; auto).
  rewrite Hnth. unfold removeChild.
  rewrite (bind_Ok _ _ _ _ _ (deref_Some _ _ _ Hc)). cbn [fst snd].
  rewrite Hcp. cbn [sameRef]. rewrite Nat.eqb_refl.
  unfold detach.
  rewrite (bind_Ok _ _ _ _ _ (readNode_Some _ _ _ Hc)). rewrite Hcp.
  rewrite (bind_Ok _ _ _ _ _ (updateNode_known _ _ _ _ Hp)).
  rewrite (updateNode_known _ _ _ cn).
  2:{ cbn. rewrite list_lookup_insert_ne by congruence. exact Hc. }
  cbn. now rewrite (removeId_delete _ _ _ Hnd Hk).
Qed.

Lemma removeNodeFromDOM_outside (parent : NodeId) (childIndex : Z) (w : World)
    (pn : DomNode) :
  nodes w !! parent = Some pn ->
  nthZ (childNodes pn) childIndex = None ->
  removeNodeFromDOM (Some parent) childIndex w = Throw TypeError w.
Proof.
  intros Hp Hnth. unfold removeNodeFromDOM.
  rewrite (bind_Ok _ _ _ _ _ (deref_Some _ _ _ Hp)). cbn [fst snd].
  now rewrite Hnth.
Qed.

(** X1: Removing the child at an index: under an element whose child list is
    in order, [removeNodeFromDOM] takes out exactly the child at that index
    (the child list loses that entry, the child loses its parent, nothing
    else changes); at an index outside the child list it throws a
    [TypeError] and changes nothing. *)
Theorem removeNodeFromDOM_by_index (parent : NodeId) (childIndex : Z) (w : World)
    (pn : DomNode) :
  childrenConsistent w parent pn ->
  match nthZ (childNodes pn) childIndex with
  | Some c =>
    exists cn,
      nodes w !! c = Some cn /\
      removeNodeFromDOM (Some parent) childIndex w =
        Ok tt (set_nodes
                 (<[c := set_parentNode None cn]>
                    (<[parent := set_childNodes
                                   (delete (Z.to_nat childIndex) (childNodes pn)) pn]>
                       (nodes w))) w)
  | None => removeNodeFromDOM (Some parent) childIndex w = Throw TypeError w
  end.
Proof.
  intros Hcons. destruct (nthZ (childNodes pn) childIndex) as [c|] eqn:Hnth.
  - pose proof Hcons as (Hp & Hel & Hnd & Hpar & Hcs).
    destruct (Hcs c) as (cn & Hc & _).
    { apply nthZ_Some in Hnth as [_ Hk]. apply list_elem_of_lookup. eauto. }
    exists cn. split; [exact Hc|]. now apply removeNodeFromDOM_at.
  - destruct Hcons as (Hp & _). now apply (removeNodeFromDOM_outside _ _ _ pn).
Qed.

Lemma removeNodeFromDOM_by_index_witness :
  removeNodeFromDOM (Some 0%nat) 1 twoTexts =
    Ok tt (set_nodes
             [ set_childNodes [1%nat] (freshNode ElementNode "DIV" "");
               set_parentNode (Some 0%nat) (freshNode TextNode "" "a");
               freshNode TextNode "" "b";
               freshNode TextNode "" "c" ] twoTexts) /\
  removeNodeFromDOM (Some 0%nat) 2 twoTexts = Throw TypeError twoTexts.
Proof.
  assert (Hcons : childrenConsistent twoTexts 0%nat
                    (set_childNodes [1; 2]%nat (freshNode ElementNode "DIV" ""))).
  { repeat split.
    - apply NoDup_cons. split; [|apply NoDup_cons; split; [|apply NoDup_nil_2]].
      + intros H. apply list_elem_of_singleton in H. discriminate.
      + apply not_elem_of_nil.
    - intros H. cbn in H. apply elem_of_cons in H as [H|H]; [discriminate|].
      apply list_elem_of_singleton in H. discriminate.
    - intros c H. cbn in H. apply elem_of_cons in H as [->|H].
      + eexists. split; reflexivity.
      + apply list_elem_of_singleton in H as ->. eexists. split; reflexivity. }
  split.
  - destruct (removeNodeFromDOM_by_index 0%nat 1 twoTexts _ Hcons) as (cn & Hc & H).
    cbn in Hc. injection Hc as <-. exact H.
  - exact (removeNodeFromDOM_by_index 0%nat 2 twoTexts _ Hcons).
Defined.

(** Goals [childrenConsistent w parent pn] on a store that is written out. *)
Ltac consistent :=
  split; [reflexivity|]; split; [reflexivity|];
  split; [apply (bool_decide_unpack _); vm_compute; exact I|];
  split; [apply (bool_decide_unpack _); vm_compute; exact I|];
  let c := fresh "c" in
  let H := fresh "H" in
  intros c H; cbn in H;
  repeat (apply elem_of_cons in H as [->|H]; [eexists; split; reflexivity|]);
  apply elem_of_nil in H; destruct H.

Lemma linkChild_consistent (k : nat) (node parent : NodeId) (pn nn : DomNode) (w : World) :
  childrenConsistent w parent pn ->
  nodes w !! node = Some nn -> parentNode nn = None -> node <> parent ->
  childrenConsistent (linkChild k node parent pn nn w) parent
    (set_childNodes (take k (childNodes pn) ++ node :: drop k (childNodes pn)) pn).
Proof.
  intros (Hp & Hel & Hnd & Hpar & Hcs) Hn Hdet Hne.
  assert (Hnotin : node ∉ childNodes pn).
  { intros Hin. destruct (Hcs _ Hin) as (cn & Hc & Hcp). congruence. }
  assert (Hlp : (parent < length (nodes w))%nat) by now apply lookup_lt_Some in Hp.
  assert (Hln : (node < length (nodes w))%nat) by now apply lookup_lt_Some in Hn.
  unfold linkChild. repeat split; cbn.
  - rewrite list_lookup_insert_ne by congruence.
    now rewrite list_lookup_insert_eq.
  - exact Hel.
  - rewrite <- (take_drop k (childNodes pn)) in Hnd, Hnotin.
    apply NoDup_app in Hnd as (Hnd1 & Hdis & Hnd2).
    apply NoDup_app. split; [exact Hnd1|]. split.
    + intros x Hx Hx'. apply elem_of_cons in Hx' as [->|Hx'].
      * apply Hnotin. apply elem_of_app. now left.
      * now apply (Hdis x).
    + apply NoDup_cons. split; [|exact Hnd2].
      intros Hx. apply Hnotin. apply elem_of_app. now right.
  - intros Hin. apply Hpar. rewrite <- (take_drop k (childNodes pn)).
    apply elem_of_app in Hin as [Hin|Hin]; [apply elem_of_app; now left|].
    apply elem_of_cons in Hin as [Hin|Hin]; [congruence|].
    apply elem_of_app. now right.
  - intros c Hin.
    assert (Hc : c = node \/ c ∈ childNodes pn).
    { rewrite <- (take_drop k (childNodes pn)).
      apply elem_of_app in Hin as [Hin|Hin]; [right; apply elem_of_app; now left|].
      apply elem_of_cons in Hin as [Hin|Hin]; [now left|].
      right. apply elem_of_app. now right. }
    destruct Hc as [->|Hc].
    + eexists. split; [rewrite list_lookup_insert_eq; [reflexivity|]|reflexivity].
      now rewrite length_insert.
    + destruct (Hcs c Hc) as (cn & Hcn & Hcp). exists cn. split; [|exact Hcp].
      assert (c <> node) by (intros ->; contradiction).
      assert (c <> parent) by (intros ->; contradiction).
      now rewrite !list_lookup_insert_ne by congruence.
Qed.

Lemma removeNodeFromDOM_linkChild (k : nat) (node parent : NodeId) (pn nn : DomNode)
    (w : World) :
  childrenConsistent w parent pn ->
  nodes w !! node = Some nn -> parentNode nn = None -> node <> parent ->
  (k <= length (childNodes pn))%nat ->
  removeNodeFromDOM (Some parent) (Z.of_nat k) (linkChild k node parent pn nn w) = Ok tt w.
Proof.
  intros Hcons Hn Hdet Hne Hk.
  pose proof Hcons as (Hp & Hel & Hnd & Hpar & Hcs).
  pose proof (linkChild_consistent k _ _ _ _ _ Hcons Hn Hdet Hne) as Hcons'.
  assert (Hlp : (parent < length (nodes w))%nat) by now apply lookup_lt_Some in Hp.
  assert (Hln : (node < length (nodes w))%nat) by now apply lookup_lt_Some in Hn.
  rewrite (removeNodeFromDOM_at parent node _ _ _ (set_parentNode (Some parent) nn) Hcons').
  - f_equal. cbn [childNodes set_childNodes]. rewrite Nat2Z.id.
    assert (Hdel : delete k (take k (childNodes pn) ++ node :: drop k (childNodes pn))
                   = childNodes pn).
    { replace k with (length (take k (childNodes pn))) at 1 by (rewrite length_take; lia).
      rewrite delete_middle. apply take_drop. }
    rewrite Hdel. unfold linkChild. cbn.
    transitivity (set_nodes (nodes w) w); [|apply set_nodes_same].
    unfold set_nodes. cbn. f_equal.
    apply list_eq. intros x.
    destruct (decide (x = node)) as [->|Hxn].
    + rewrite list_lookup_insert_eq by (now rewrite !length_insert).
      transitivity (Some nn); [|symmetry; exact Hn].
      f_equal. destruct nn; cbn in *; now subst.
    + rewrite list_lookup_insert_ne by congruence.
      destruct (decide (x = parent)) as [->|Hxp].
      * rewrite list_lookup_insert_eq by (now rewrite !length_insert).
        transitivity (Some pn); [|symmetry; exact Hp].
        f_equal. now destruct pn.
      * now rewrite !list_lookup_insert_ne by congruence.
  - rewrite nthZ_of_nat. cbn [childNodes set_childNodes].
    replace k with (length (take k (childNodes pn)) + 0)%nat at 1
      by (rewrite length_take; lia).
    now rewrite lookup_app_r, Nat.add_comm, Nat.add_sub by lia.
  - unfold linkChild. cbn. rewrite list_lookup_insert_eq; [reflexivity|].
    now rewrite length_insert.
Qed.

(** X2: Round trip: putting a node that is in no child list under an element at
    child index [i], and then removing the child at the index where it has
    ended up, gives back the store as it was. *)
Theorem insert_then_remove (node parent : NodeId) (i : Z) (w : World) (pn nn : DomNode) :
  childrenConsistent w parent pn ->
  nodes w !! node = Some nn -> parentNode nn = None -> node <> parent ->
  0 <= i ->
  (insertNodeIntoDOM node (Some parent) i ;;
   removeNodeFromDOM (Some parent) (Z.min i (Z.of_nat (length (childNodes pn))))) w
    = Ok tt w.
Proof.
  intros Hcons Hn Hdet Hne Hi.
  pose proof Hcons as (Hp & Hel & Hnd & Hpar & Hcs).
  rewrite (bind_Ok _ _ _ _ _
             (insertNodeIntoDOM_detached _ _ _ _ _ _ Hp Hel Hn Hdet Hne Hi Hnd Hcs)).
  set (k := Z.to_nat (Z.min i (Z.of_nat (length (childNodes pn))))).
  replace (Z.min i (Z.of_nat (length (childNodes pn)))) with (Z.of_nat k) by lia.
  apply removeNodeFromDOM_linkChild; try assumption. lia.
Qed.

Lemma insert_then_remove_witness :
  (insertNodeIntoDOM 3%nat (Some 0%nat) 1 ;; removeNodeFromDOM (Some 0%nat) 1) twoTexts
    = Ok tt twoTexts.
Proof.
  apply (insert_then_remove 3%nat 0%nat 1 twoTexts
           (set_childNodes [1; 2]%nat (freshNode ElementNode "DIV" ""))
           (freshNode TextNode "" "c")).
  - consistent.
  - reflexivity.
  - reflexivity.
  - discriminate.
  - lia.
Defined.

(** ** What a computation leaves of the store *)

Section Preserves.
Context (R : World -> World -> Prop) `{!Reflexive R} `{!Transitive R}.

Lemma preserves_ret {A} (a : A) : preserves R (ret a).
Proof. intros w. cbn. reflexivity. Qed.

Lemma preserves_throw {A} (e : Error) : preserves R (@throw A e).
Proof. intros w. cbn. reflexivity. Qed.

Lemma preserves_outOfFuel {A} : preserves R (@outOfFuel A).
Proof. intros w. exact I. Qed.

Lemma preserves_getWorld : preserves R getWorld.
Proof. intros w. cbn. reflexivity. Qed.

Lemma preserves_bind {A B} (m : M A) (f : A -> M B) :
  preserves R m -> (forall a, preserves R (f a)) -> preserves R (bind m f).
Proof.
  intros Hm Hf w. unfold bind. specialize (Hm w).
  destruct (m w) as [a w1|e w1|]; [|exact Hm|exact I].
  specialize (Hf a w1). destruct (f a w1); [| |exact I]; etransitivity; eassumption.
Qed.

(** A computation that leaves the store as it is. *)
Lemma preserves_readOnly {A} (m : M A) : preserves eq m -> preserves R m.
Proof.
  intros Hm w. specialize (Hm w).
  destruct (m w); [subst; reflexivity|subst; reflexivity|exact I].
Qed.

(** What follows a dereference sees the node the reference stands for. *)
Lemma preserves_deref_bind {B} (r : NodeRef) (f : NodeId * DomNode -> M B) :
  (forall id n, r = Some id -> preserves R (f (id, n))) ->
  preserves R (bind (deref r) f).
Proof.
  intros Hf w. unfold bind, deref. destruct r as [id|]; [|cbn; reflexivity].
  destruct (nodes w !! id) as [n|]; [|cbn; reflexivity].
  exact (Hf id n eq_refl w).
Qed.

End Preserves.

Create HintDb pres.

Ltac pres :=
  repeat match goal with
  | |- preserves ?R (ret _) => apply (preserves_ret R)
  | |- preserves ?R (throw _) => apply (preserves_throw R)
  | |- preserves ?R outOfFuel => apply (preserves_outOfFuel R)
  | |- preserves ?R getWorld => apply (preserves_getWorld R)
  | |- preserves ?R (bind _ _) => apply (preserves_bind R); [|intros ?]
  | |- preserves _ (if ?b then _ else _) => destruct b
  | |- preserves _ (match ?x with _ => _ end) => destruct x
  | |- preserves _ _ => solve [auto 1 with pres nocore]
  | |- preserves ?R _ => apply (preserves_readOnly R); solve [auto 1 with pres nocore]
  end.

Lemma readOnly_deref (r : NodeRef) : preserves eq (deref r).
Proof.
  intros w. unfold deref. destruct r as [id|]; [|reflexivity].
  destruct (nodes w !! id); reflexivity.
Qed.

#[local] Hint Resolve readOnly_deref : pres.

Lemma readOnly_readNode (id : NodeId) : preserves eq (readNode id).
Proof. unfold readNode. pres. Qed.

Lemma readOnly_asElement (r : NodeRef) : preserves eq (asElement r).
Proof. unfold asElement. pres. Qed.

#[local] Hint Resolve readOnly_readNode readOnly_asElement : pres.

Lemma readOnly_getAttribute (element : NodeRef) (name : string) :
  preserves eq (getAttribute element name).
Proof. unfold getAttribute. pres. Qed.

#[local] Hint Resolve readOnly_getAttribute : pres.

Lemma readOnly_isCheckbox (element : NodeId) : preserves eq (isCheckbox element).
Proof. unfold isCheckbox. pres. Qed.

Lemma readOnly_childAt (parent : NodeRef) (i : Z) : preserves eq (childAt parent i).
Proof. unfold childAt. pres. Qed.

Lemma readOnly_parentElement (id : NodeId) : preserves eq (parentElement id).
Proof. unfold parentElement. pres. Qed.

Lemma readOnly_getTreeFramePtr (frames : list RenderTreeFramePointer) (i : Z) :
  preserves eq (getTreeFramePtr frames i).
Proof. unfold getTreeFramePtr. pres. Qed.

Lemma readOnly_getRenderTreeEditPtr (edits : list RenderTreeEditPointer) (i : Z) :
  preserves eq (getRenderTreeEditPtr edits i).
Proof. unfold getRenderTreeEditPtr. pres. Qed.

(** ** What applying an attribute frame can change *)

Lemma samePlace_refl (n : DomNode) : samePlace n n.
Proof. now repeat split. Qed.

Lemma samePlace_trans (n1 n2 n3 : DomNode) :
  samePlace n1 n2 -> samePlace n2 n3 -> samePlace n1 n3.
Proof.
  intros (H1 & H2 & H3 & H4 & H5) (K1 & K2 & K3 & K4 & K5).
  repeat split; congruence.
Qed.

#[local] Instance touchesOnly_refl (el : NodeId) : Reflexive (touchesOnly el).
Proof.
  intros w. repeat split; try reflexivity.
  - exists []. now rewrite app_nil_r.
  - intros n Hn. exists n. split; [exact Hn|apply samePlace_refl].
Qed.

#[local] Instance touchesOnly_trans (el : NodeId) : Transitive (touchesOnly el).
Proof.
  intros w1 w2 w3 (Hl & Hc & Hr & [c1 Hc1] & Ho & He) (Kl & Kc & Kr & [c2 Kc2] & Ko & Ke).
  repeat split; try congruence.
  - exists (c1 ++ c2). now rewrite Kc2, Hc1, app_assoc.
  - intros x Hx. now rewrite (Ko x Hx), (Ho x Hx).
  - intros n Hn. destruct (He n Hn) as (n2 & Hn2 & Hs2).
    destruct (Ke n2 Hn2) as (n3 & Hn3 & Hs3).
    exists n3. split; [exact Hn3|]. now apply (samePlace_trans n n2 n3).
Qed.

Section TouchesOnly.
Variable el : NodeId.

Lemma touches_updateNode (f : DomNode -> DomNode) :
  (forall n, samePlace n (f n)) -> preserves (touchesOnly el) (updateNode el f).
Proof.
  intros Hf w. rewrite updateNode_eq.
  repeat split; cbn [nodes closures childComponentLocations browserRendererId set_nodes].
  - apply length_alter.
  - exists []. now rewrite app_nil_r.
  - intros x Hx. now apply list_lookup_alter_ne.
  - intros n Hn. exists (f n). split; [|apply Hf].
    rewrite list_lookup_alter_eq.
    change (f <$> nodes w !! el = Some (f n)). now rewrite Hn.
Qed.

Lemma touches_allocListener (l : Listener) :
  preserves (touchesOnly el) (allocListener l).
Proof.
  intros w. cbn. repeat split; cbn.
  - now exists [l].
  - intros n Hn. exists n. split; [exact Hn|apply samePlace_refl].
Qed.

Lemma touches_readOnly {A} (m : M A) : preserves eq m -> preserves (touchesOnly el) m.
Proof. apply preserves_readOnly. apply touchesOnly_refl. Qed.

Lemma touches_setAttribute (name value : string) :
  preserves (touchesOnly el) (setAttribute (Some el) name value).
Proof.
  unfold setAttribute, asElement.
  intros w. rewrite bind_assoc.
  revert w. apply (preserves_deref_bind (touchesOnly el)).
  intros id n [= <-]. cbn [fst snd]. destruct (isElement n).
  - intros w. rewrite bind_ret_l. revert w.
    apply touches_updateNode. intros m. now repeat split.
  - intros w. cbn. reflexivity.
Qed.

Lemma touches_isCheckbox (element : NodeId) :
  preserves (touchesOnly el) (isCheckbox element).
Proof. apply touches_readOnly, readOnly_isCheckbox. Qed.

Lemma touches_readNode (id : NodeId) : preserves (touchesOnly el) (readNode id).
Proof. apply touches_readOnly, readOnly_readNode. Qed.

Lemma touches_tryApplyValueProperty (value : JsString) :
  preserves (touchesOnly el) (tryApplyValueProperty el value).
Proof.
  unfold tryApplyValueProperty.
  apply (preserves_bind (touchesOnly el)); [apply touches_readNode|intros n].
  destruct (_ || _); [|apply (preserves_ret (touchesOnly el))].
  apply (preserves_bind (touchesOnly el)); [apply touches_isCheckbox|intros cb].
  apply (preserves_bind (touchesOnly el)); [|intros ?; apply (preserves_ret (touchesOnly el))].
  destruct cb; apply touches_updateNode; intros m; now repeat split.
Qed.

Lemma touches_removeEventListener (type : string) (l : option ListenerId) :
  preserves (touchesOnly el) (removeEventListener el type l).
Proof.
  destruct l as [l|]; cbn [removeEventListener]; [|apply (preserves_ret (touchesOnly el))].
  apply touches_updateNode. intros m. now repeat split.
Qed.

Lemma touches_addEventListener (type : string) (l : option ListenerId) :
  preserves (touchesOnly el) (addEventListener el type l).
Proof.
  destruct l as [l|]; cbn [addEventListener]; [|apply (preserves_ret (touchesOnly el))].
  apply touches_updateNode. intros m. destruct (hasListener _ _ _); now repeat split.
Qed.

Lemma touches_set_slot (k : ListenerSlot) (v : option ListenerId) :
  preserves (touchesOnly el) (updateNode el (set_slot k v)).
Proof. apply touches_updateNode. intros m. now repeat split. Qed.

Lemma touches_applyAttribute (componentId : Z) (attributeFrame : RenderTreeFramePointer) :
  preserves (touchesOnly el) (applyAttribute componentId (Some el) attributeFrame).
Proof.
  unfold applyAttribute.
  apply (preserves_bind (touchesOnly el)); [apply (preserves_getWorld (touchesOnly el))|].
  intros w0. apply (preserves_deref_bind (touchesOnly el)).
  intros id n [= <-]. cbn [fst snd].
  apply (preserves_bind (touchesOnly el)).
  { destruct (strictEq _ "value");
      [apply touches_tryApplyValueProperty|apply (preserves_ret (touchesOnly el))]. }
  intros handled. destruct handled; [apply (preserves_ret (touchesOnly el))|].
  repeat match goal with
  | |- preserves _ (if ?b then _ else _) => destruct b
  | |- preserves _ (bind _ _) => apply (preserves_bind (touchesOnly el)); [|intros ?]
  | |- _ => first
      [ apply touches_readNode | apply touches_removeEventListener
      | apply touches_addEventListener | apply touches_allocListener
      | apply touches_set_slot | apply touches_isCheckbox | apply touches_setAttribute ]
  end.
Qed.

End TouchesOnly.

(** X3: Whatever the attribute frame is, and whether [applyAttribute] returns or
    throws: it changes no node but the element it is applied to, leaves that
    element where it is in the tree (same parent, same children, same tag),
    creates no node, keeps the listeners created so far, and leaves the
    registry of component locations alone.  So every node of the tree is
    still at its place afterwards. *)
Theorem applyAttribute_touches_one_node (componentId : Z) (el : NodeId)
    (attributeFrame : RenderTreeFramePointer) :
  preserves (touchesOnly el) (applyAttribute componentId (Some el) attributeFrame) /\
  preserves
    (fun w w' =>
       forall x n, nodes w !! x = Some n ->
         exists n', nodes w' !! x = Some n' /\ samePlace n n')
    (applyAttribute componentId (Some el) attributeFrame).
Proof.
  split; [apply touches_applyAttribute|].
  intros w. pose proof (touches_applyAttribute el componentId attributeFrame w) as H.
  assert (Hall : forall w', touchesOnly el w w' ->
            forall x n, nodes w !! x = Some n ->
              exists n', nodes w' !! x = Some n' /\ samePlace n n').
  { intros w' (_ & _ & _ & _ & Hother & Hel) x n Hx.
    destruct (decide (x = el)) as [->|Hne]; [now apply Hel|].
    exists n. split; [now rewrite Hother|apply samePlace_refl]. }
  destruct (applyAttribute componentId (Some el) attributeFrame w); auto.
Qed.

(** ** The [value] attribute on other elements *)

(** X4: On an element that is neither an [input] nor a [select], an attribute
    frame named "value" is written as an ordinary string attribute (a null
    value as the string "null"); the live properties are not touched. *)
Theorem applyAttribute_value_elsewhere (componentId : Z) (el : NodeId)
    (frame : RenderTreeFramePointer) (w : World) (n : DomNode) :
  nodes w !! el = Some n ->
  isElement n = true ->
  strictEq (tagName n) "INPUT" = false ->
  strictEq (tagName n) "SELECT" = false ->
  renderTreeFrame.attributeName frame = Some "value"%string ->
  let n' := set_attributes
              (assoc_set "value" (jsToString (renderTreeFrame.attributeValue frame))
                 (attributes n)) n in
  applyAttribute componentId (Some el) frame w
    = Ok tt (set_nodes (<[el := n']> (nodes w)) w) /\
  assoc_get "value" (attributes n')
    = Some (jsToString (renderTreeFrame.attributeValue frame)) /\
  checked n' = checked n /\
  valueProperty n' = valueProperty n.
Proof.
  intros Hn Hel Hinput Hselect Hname n'. split; [|split; [|split; reflexivity]].
  - unfold applyAttribute. rewrite Hname, bind_getWorld.
    rewrite (bind_Ok _ _ _ _ _ (deref_Some _ _ _ Hn)). cbn [fst snd strictEq].
    change (String.eqb "value" "value") with true. cbn match.
    pose proof (tryApplyValueProperty_eq el (renderTreeFrame.attributeValue frame) w n Hn)
      as Htry.
    rewrite Hinput, Hselect in Htry. cbn [orb] in Htry.
    rewrite (bind_Ok _ _ _ _ _ Htry).
    change (String.eqb "value" "onclick") with false.
    change (String.eqb "value" "onchange") with false.
    change (String.eqb "value" "onkeypress") with false. cbn match.
    unfold setAttribute, asElement.
    rewrite bind_assoc. rewrite (bind_Ok _ _ _ _ _ (deref_Some _ _ _ Hn)).
    cbn [fst snd]. rewrite Hel. rewrite bind_ret_l.
    now rewrite (updateNode_known _ _ _ _ Hn).
  - subst n'. cbn [attributes set_attributes].
    generalize (jsToString (renderTreeFrame.attributeValue frame)). intros v.
    induction (attributes n) as [|[k' v'] l IH]; [reflexivity|].
    cbn [assoc_set]. destruct (String.eqb k' "value") eqn:E.
    + cbn [assoc_get]. now rewrite String.eqb_refl.
    + cbn [assoc_get]. now rewrite E.
Qed.

Lemma applyAttribute_value_elsewhere_witness :
  applyAttribute 1 (Some 0%nat) (plainAttribute "value" (Some "x"%string)) page
    = Ok tt (set_nodes
               [set_attributes [("value", "x")]%string (freshNode ElementNode "DIV" "")]
               page).
Proof.
  exact (proj1 (applyAttribute_value_elsewhere 1 0%nat
                  (plainAttribute "value" (Some "x"%string)) page
                  (freshNode ElementNode "DIV" "")
                  eq_refl eq_refl eq_refl eq_refl eq_refl)).
Defined.

(** ** What binding an event attribute does *)

Lemma forEvent_drop_other (type type' : string) (l : ListenerId)
    (ls : list (string * ListenerId)) :
  String.eqb type' type = false ->
  forEvent type' (dropListener type l ls) = forEvent type' ls.
Proof.
  intros Hne. unfold forEvent, dropListener.
  induction ls as [|[t x] ls IH]; [reflexivity|]. cbn [List.filter fst snd].
  destruct (String.eqb_spec t type) as [->|Ht]; cbn [andb negb].
  - rewrite String.eqb_sym, Hne. destruct (Nat.eqb x l); cbn [negb List.filter fst].
    + exact IH.
    + rewrite String.eqb_sym, Hne. exact IH.
  - cbn [List.filter fst]. destruct (String.eqb t type'); cbn [map]; now rewrite IH.
Qed.

Lemma forEvent_snoc_other (type type' : string) (x : ListenerId)
    (ls : list (string * ListenerId)) :
  String.eqb type' type = false ->
  forEvent type' (ls ++ [(type, x)]) = forEvent type' ls.
Proof.
  intros Hne. unfold forEvent. rewrite List.filter_app, map_app. cbn [List.filter fst].
  rewrite String.eqb_sym, Hne. cbn. apply app_nil_r.
Qed.

Lemma hasListener_forEvent (type : string) (x : ListenerId)
    (ls : list (string * ListenerId)) :
  hasListener type x ls = true -> x ∈ forEvent type ls.
Proof.
  unfold hasListener, forEvent.
  induction ls as [|[t y] ls IH]; cbn [existsb List.filter fst snd]; [discriminate|].
  intros H. apply orb_true_iff in H as [H|H].
  - apply andb_true_iff in H as [Ht Hy]. rewrite Ht. cbn [map snd].
    apply Nat.eqb_eq in Hy as ->. apply elem_of_cons. now left.
  - destruct (String.eqb t type); cbn [map]; [apply elem_of_cons; right|]; now apply IH.
Qed.

Lemma slotEvent_other (k k' : ListenerSlot) :
  k' <> k -> String.eqb (slotEvent k') (slotEvent k) = false.
Proof. destruct k, k'; intros H; try reflexivity; congruence. Qed.

Lemma get_set_slot_other (k k' : ListenerSlot) (v : option ListenerId) (n : DomNode) :
  k' <> k -> get_slot k' (set_slot k v n) = get_slot k' n.
Proof. destruct k, k'; intros H; try reflexivity; congruence. Qed.

Lemma rebind_binds (k : ListenerSlot) (el : NodeId) (pre : M bool)
    (mk : bool -> Listener) (w : World) (n : DomNode) (b : bool) :
  nodes w !! el = Some n ->
  (forall w1 n1, nodes w1 !! el = Some n1 ->
     tagName n1 = tagName n -> attributes n1 = attributes n -> pre w1 = Ok b w1) ->
  exists w' n',
    rebind k el pre mk w = Ok tt w' /\
    nodes w' = <[el := n']> (nodes w) /\
    closures w' = closures w ++ [mk b] /\
    childComponentLocations w' = childComponentLocations w /\
    browserRendererId w' = browserRendererId w /\
    samePlace n n' /\
    get_slot k n' = Some (length (closures w)) /\
    (length (closures w) ∈ listenersFor (slotEvent k) n') /\
    attributes n' = attributes n /\
    checked n' = checked n /\
    valueProperty n' = valueProperty n /\
    forall k', k' <> k ->
      get_slot k' n' = get_slot k' n /\
      listenersFor (slotEvent k') n' = listenersFor (slotEvent k') n.
Proof.
  intros Hn Hpre. unfold rebind.
  rewrite (bind_Ok _ _ _ _ _ (readNode_Some _ _ _ Hn)).
  rewrite (bind_Ok _ _ _ _ _ (removeEventListener_known _ _ _ _ _ Hn)).
  set (n1 := match get_slot k n with
             | Some l => set_eventListeners
                           (dropListener (slotEvent k) l (eventListeners n)) n
             | None => n
             end).
  set (w1 := set_nodes (<[el := n1]> (nodes w)) w).
  assert (Hlen : (el < length (nodes w))%nat) by (now apply lookup_lt_Some in Hn).
  assert (Hn1 : nodes w1 !! el = Some n1) by (now apply list_lookup_insert_eq).
  assert (Hb : pre w1 = Ok b w1).
  { apply (Hpre w1 n1 Hn1); subst n1; now destruct (get_slot k n). }
  rewrite (bind_Ok _ _ _ _ _ Hb).
  unfold allocListener at 1. unfold bind at 1.
  set (new := length (closures w1)).
  set (w2 := set_closures (closures w1 ++ [mk b]) w1).
  assert (Hn2 : nodes w2 !! el = Some n1) by exact Hn1.
  rewrite (bind_Ok _ _ _ _ _ (updateNode_known _ _ _ _ Hn2)).
  set (n2 := set_slot k (Some new) n1).
  set (w3 := set_nodes (<[el := n2]> (nodes w2)) w2).
  assert (Hn3 : nodes w3 !! el = Some n2).
  { apply list_lookup_insert_eq. subst w2 w1. cbn. now rewrite length_insert. }
  cbn [addEventListener].
  rewrite (updateNode_known _ _ _ _ Hn3).
  set (n3 := if hasListener (slotEvent k) new (eventListeners n2) then n2
             else set_eventListeners (eventListeners n2 ++ [(slotEvent k, new)]) n2).
  exists (set_nodes (<[el := n3]> (nodes w3)) w3), n3.
  split; [reflexivity|].
  assert (Hls1 : forall k', k' <> k ->
            listenersFor (slotEvent k') n1 = listenersFor (slotEvent k') n).
  { intros k' Hk'. subst n1. destruct (get_slot k n) as [old|]; [|reflexivity].
    apply (forEvent_drop_other _ _ _ _ (slotEvent_other _ _ Hk')). }
  assert (Hls2 : eventListeners n2 = eventListeners n1) by (subst n2; now destruct k).
  split; [|split; [|split; [|split; [|split; [|split; [|split; [|split;
    [|split; [|split]]]]]]]]].
  - cbn. now rewrite !list_insert_insert_eq.
  - reflexivity.
  - reflexivity.
  - reflexivity.
  - subst n3 n2 n1.
    destruct (hasListener _ _ _), (get_slot k n); now repeat split.
  - subst n3. destruct (hasListener _ _ _);
      [|change (get_slot k n2 = Some (length (closures w)))];
      subst n2; apply get_set_slot.
  - subst n3. destruct (hasListener _ _ _) eqn:Hhas.
    + now apply hasListener_forEvent.
    + change (new ∈ forEvent (slotEvent k) (eventListeners n2 ++ [(slotEvent k, new)])).
      rewrite forEvent_snoc. apply elem_of_app. right. now apply list_elem_of_singleton.
  - subst n3 n2 n1. destruct (hasListener _ _ _), k, (get_slot _ n); reflexivity.
  - subst n3 n2 n1. destruct (hasListener _ _ _), k, (get_slot _ n); reflexivity.
  - subst n3 n2 n1. destruct (hasListener _ _ _), k, (get_slot _ n); reflexivity.
  - intros k' Hk'. split.
    + transitivity (get_slot k' n2).
      { subst n3. now destruct (hasListener _ _ _). }
      subst n2. rewrite (get_set_slot_other _ _ _ _ Hk').
      subst n1. now destruct (get_slot k n).
    + rewrite <- (Hls1 k' Hk'). subst n3. unfold listenersFor.
      destruct (hasListener _ _ _).
      * now rewrite Hls2.
      * change (forEvent (slotEvent k') (eventListeners n2 ++ [(slotEvent k, new)])
                = forEvent (slotEvent k') (eventListeners n1)).
        rewrite (forEvent_snoc_other _ _ _ _ (slotEvent_other _ _ Hk')).
        now rewrite Hls2.
Qed.

Lemma slotPre_eq (k : ListenerSlot) (el : NodeId) (w : World) (n : DomNode) :
  nodes w !! el = Some n ->
  slotPre k el w =
    Ok (match k with
        | ChangeSlot => strictEq (tagName n) "INPUT" &&
                        strictEq (assoc_get "type" (attributes n)) "checkbox"
        | _ => false
        end) w.
Proof.
  intros Hn. destruct k; [reflexivity| |reflexivity]. apply (isCheckbox_eq _ _ _ Hn).
Qed.

(** The store after an event attribute has been applied. *)
Lemma applyAttribute_event_result (k : ListenerSlot) (componentId : Z) (el : NodeId)
    (frame : RenderTreeFramePointer) (w : World) (n : DomNode) :
  renderTreeFrame.attributeName frame = Some (slotAttribute k) ->
  nodes w !! el = Some n ->
  let new := length (closures w) in
  let targetIsCheckbox :=
    match k with
    | ChangeSlot => strictEq (tagName n) "INPUT" &&
                    strictEq (assoc_get "type" (attributes n)) "checkbox"
    | _ => false
    end in
  exists w' n',
    applyAttribute componentId (Some el) frame w = Ok tt w' /\
    nodes w' = <[el := n']> (nodes w) /\
    closures w' = closures w ++
      [slotListener k (browserRendererId w) componentId
         (renderTreeFrame.attributeEventHandlerId frame) targetIsCheckbox] /\
    childComponentLocations w' = childComponentLocations w /\
    samePlace n n' /\
    get_slot k n' = Some new /\
    (new ∈ listenersFor (slotEvent k) n') /\
    attributes n' = attributes n /\
    checked n' = checked n /\
    valueProperty n' = valueProperty n /\
    forall k', k' <> k ->
      get_slot k' n' = get_slot k' n /\
      listenersFor (slotEvent k') n' = listenersFor (slotEvent k') n.
Proof.
  intros Hname Hn new targetIsCheckbox.
  rewrite (applyAttribute_event k _ _ _ _ _ Hname Hn).
  destruct (rebind_binds k el (slotPre k el)
              (slotListener k (browserRendererId w) componentId
                 (renderTreeFrame.attributeEventHandlerId frame))
              w n targetIsCheckbox Hn)
    as (w' & n' & Hrun & Hnodes & Hcl & Hloc & _ & Hplace & Hslot & Hin & Ha & Hc & Hv & Hoth).
  { intros w1 n1 Hn1 Htag Hattr. rewrite (slotPre_eq _ _ _ _ Hn1).
    subst targetIsCheckbox. now rewrite Htag, Hattr. }
  exists w', n'. repeat (split; [assumption|]). exact Hoth.
Qed.

(** X5: Applying [onclick], [onchange] or [onkeypress] to a node creates one
    closure, which has captured the renderer's id, the component id and the
    event handler id of the frame (and, for [onchange], whether the node is
    a checkbox input right now); the node remembers it in the property of
    that event and has it among its listeners for that event.  No string
    attribute is written, no live property is set, no node is created, and
    the remembered listeners and the listeners of the two other events are
    what they were. *)
Theorem applyAttribute_event_binds (k : ListenerSlot) (componentId : Z) (el : NodeId)
    (frame : RenderTreeFramePointer) (w : World) (n : DomNode) :
  renderTreeFrame.attributeName frame = Some (slotAttribute k) ->
  nodes w !! el = Some n ->
  let new := length (closures w) in
  let targetIsCheckbox :=
    match k with
    | ChangeSlot => strictEq (tagName n) "INPUT" &&
                    strictEq (assoc_get "type" (attributes n)) "checkbox"
    | _ => false
    end in
  let closure :=
    slotListener k (browserRendererId w) componentId
      (renderTreeFrame.attributeEventHandlerId frame) targetIsCheckbox in
  exists w' n',
    applyAttribute componentId (Some el) frame w = Ok tt w' /\
    nodes w' = <[el := n']> (nodes w) /\
    length (nodes w') = length (nodes w) /\
    closures w' = closures w ++ [closure] /\
    closures w' !! new = Some closure /\
    childComponentLocations w' = childComponentLocations w /\
    samePlace n n' /\
    get_slot k n' = Some new /\
    (new ∈ listenersFor (slotEvent k) n') /\
    attributes n' = attributes n /\
    checked n' = checked n /\
    valueProperty n' = valueProperty n /\
    forall k', k' <> k ->
      get_slot k' n' = get_slot k' n /\
      listenersFor (slotEvent k') n' = listenersFor (slotEvent k') n.
Proof.
  intros Hname Hn new targetIsCheckbox closure.
  destruct (applyAttribute_event_result k componentId el frame w n Hname Hn)
    as (w' & n' & Hrun & Hnodes & Hcl & Hloc & Hplace & Hslot & Hin & Ha & Hc & Hv & Hoth).
  exists w', n'.
  split; [exact Hrun|]. split; [exact Hnodes|].
  split; [rewrite Hnodes; apply length_insert|].
  split; [exact Hcl|].
  split; [rewrite Hcl; now apply list_lookup_middle|].
  repeat (split; [assumption|]). exact Hoth.
Qed.

Lemma applyAttribute_event_binds_witness :
  exists w' n',
    applyAttribute 7 (Some 0%nat) (eventAttribute "onchange" 3) checkboxPage = Ok tt w' /\
    nodes w' = [n'] /\
    closures w' = [mkListener change 0 7 3 true] /\
    _blazorChangeListener n' = Some 0%nat.
Proof.
  destruct (applyAttribute_event_binds ChangeSlot 7 0%nat (eventAttribute "onchange" 3)
              checkboxPage checkboxNode eq_refl eq_refl)
    as (w' & n' & Hrun & Hnodes & _ & Hcl & _ & _ & _ & Hslot & _).
  exists w', n'. repeat split; assumption.
Defined.

Lemma assoc_get_set (k v : string) (l : list (string * string)) :
  assoc_get k (assoc_set k v l) = Some v.
Proof.
  induction l as [|[k' v'] l IH]; cbn [assoc_set assoc_get].
  - now rewrite String.eqb_refl.
  - destruct (String.eqb k' k) eqn:E; cbn [assoc_get].
    + now rewrite String.eqb_refl.
    + now rewrite E.
Qed.

(** X6: Whether the [change] listener of an [input] reports [checked] or
    [value] is decided when [onchange] is applied, from the [type] attribute
    the element has at that moment.  Applied before [type="checkbox"], the
    listener reports [value] although the element is a checkbox afterwards;
    applied after it, the listener reports [checked]. *)
Theorem onchange_checkbox_decided_when_bound (componentId : Z) (el : NodeId)
    (onchange typeFrame : RenderTreeFramePointer) (w : World) (n : DomNode) :
  nodes w !! el = Some n ->
  tagName n = Some "INPUT"%string ->
  strictEq (assoc_get "type" (attributes n)) "checkbox" = false ->
  renderTreeFrame.attributeName onchange = Some "onchange"%string ->
  renderTreeFrame.frameType typeFrame = FrameType.attribute ->
  renderTreeFrame.attributeName typeFrame = Some "type"%string ->
  renderTreeFrame.attributeValue typeFrame = Some "checkbox"%string ->
  (exists w' n' l c,
     (applyAttribute componentId (Some el) onchange ;;
      applyAttribute componentId (Some el) typeFrame) w = Ok tt w' /\
     nodes w' !! el = Some n' /\
     isCheckbox el w' = Ok true w' /\
     _blazorChangeListener n' = Some l /\
     closures w' !! l = Some c /\
     l_targetIsCheckbox c = false) /\
  (exists w' n' l c,
     (applyAttribute componentId (Some el) typeFrame ;;
      applyAttribute componentId (Some el) onchange) w = Ok tt w' /\
     nodes w' !! el = Some n' /\
     isCheckbox el w' = Ok true w' /\
     _blazorChangeListener n' = Some l /\
     closures w' !! l = Some c /\
     l_targetIsCheckbox c = true).
Proof.
  intros Hn Htag Hnot Hchange Hattr Htype Hvalue.
  assert (Hel : isElement n = true).
  { unfold tagName in Htag. unfold isElement. now destruct (nodeKind n). }
  assert (Hplain : isPlainAttribute typeFrame).
  { unfold isPlainAttribute. rewrite Htype. now repeat split. }
  assert (Hof : attributeOf typeFrame = ("type", "checkbox")%string).
  { unfold attributeOf. now rewrite Htype, Hvalue. }
  assert (Hlen : (el < length (nodes w))%nat) by now apply lookup_lt_Some in Hn.
  split.
  - destruct (applyAttribute_event_result ChangeSlot componentId el onchange w n Hchange Hn)
      as (w1 & n1 & Hrun & Hnodes & Hcl & _ & Hplace & Hslot & _ & Ha & _).
    destruct Hplace as (Hkind & Hname & _).
    assert (Hn1 : nodes w1 !! el = Some n1).
    { rewrite Hnodes. now apply list_lookup_insert_eq. }
    assert (Hel1 : isElement n1 = true) by (unfold isElement in *; now rewrite Hkind).
    rewrite (bind_Ok _ _ _ _ _ Hrun).
    rewrite (applyAttribute_plain _ _ _ _ _ Hn1 Hel1 Hplain). rewrite Hof. cbn [fst snd].
    eexists. eexists. exists (length (closures w)). eexists.
    split; [reflexivity|]. split.
    { cbn. apply list_lookup_insert_eq. now apply lookup_lt_Some in Hn1. }
    split.
    { erewrite isCheckbox_eq.
      2:{ cbn. apply list_lookup_insert_eq. now apply lookup_lt_Some in Hn1. }
      cbn [attributes set_attributes]. rewrite assoc_get_set.
      unfold tagName in *. cbn [nodeKind nodeName set_attributes].
      rewrite Hkind, Hname, Htag. reflexivity. }
    split; [exact Hslot|]. split.
    { cbn [closures set_nodes]. rewrite Hcl. apply list_lookup_middle. reflexivity. }
    cbn. rewrite Htag. cbn [strictEq]. change (String.eqb "INPUT" "INPUT") with true.
    cbn [andb]. exact Hnot.
  - rewrite (bind_Ok _ _ _ _ _ (applyAttribute_plain _ _ _ _ _ Hn Hel Hplain)).
    rewrite Hof. cbn [fst snd].
    set (n1 := set_attributes (assoc_set "type" "checkbox" (attributes n)) n).
    set (w1 := set_nodes (<[el := n1]> (nodes w)) w).
    assert (Hn1 : nodes w1 !! el = Some n1) by now apply list_lookup_insert_eq.
    destruct (applyAttribute_event_result ChangeSlot componentId el onchange w1 n1 Hchange Hn1)
      as (w2 & n2 & Hrun & Hnodes & Hcl & _ & Hplace & Hslot & _ & Ha & _).
    destruct Hplace as (Hkind & Hname & _).
    assert (Hn2 : nodes w2 !! el = Some n2).
    { rewrite Hnodes. apply list_lookup_insert_eq. now apply lookup_lt_Some in Hn1. }
    exists w2, n2, (length (closures w1)). eexists.
    split; [exact Hrun|]. split; [exact Hn2|]. split.
    { rewrite (isCheckbox_eq _ _ _ Hn2). rewrite Ha.
      subst n1. cbn [attributes set_attributes]. rewrite assoc_get_set.
      unfold tagName in *. rewrite Hkind, Hname. cbn [nodeKind nodeName set_attributes].
      rewrite Htag. reflexivity. }
    split; [exact Hslot|]. split.
    { rewrite Hcl. apply list_lookup_middle. reflexivity. }
    cbn. subst n1. cbn [attributes set_attributes]. rewrite assoc_get_set.
    unfold tagName in *. cbn [nodeKind nodeName set_attributes]. rewrite Htag. reflexivity.
Qed.

Lemma onchange_checkbox_decided_when_bound_witness :
  exists w' n' c,
    (applyAttribute 7 (Some 0%nat) (eventAttribute "onchange" 3) ;;
     applyAttribute 7 (Some 0%nat) (plainAttribute "type" (Some "checkbox"%string)))
      (mkWorld [freshNode ElementNode "INPUT" ""] [] ∅ 0) = Ok tt w' /\
    nodes w' !! 0%nat = Some n' /\
    attributes n' = [("type", "checkbox")]%string /\
    closures w' !! 0%nat = Some c /\
    l_targetIsCheckbox c = false.
Proof.
  destruct (onchange_checkbox_decided_when_bound 7 0%nat
              (eventAttribute "onchange" 3) (plainAttribute "type" (Some "checkbox"%string))
              (mkWorld [freshNode ElementNode "INPUT" ""] [] ∅ 0)
              (freshNode ElementNode "INPUT" "")
              eq_refl eq_refl eq_refl eq_refl eq_refl eq_refl eq_refl)
    as [(w' & n' & l & c & Hrun & Hn' & _ & Hslot & Hc & Hb) _].
  exists w', n', c. split; [exact Hrun|]. split; [exact Hn'|].
  vm_compute in Hrun. injection Hrun as <-.
  vm_compute in Hn'. injection Hn' as <-.
  vm_compute in Hslot. injection Hslot as <-.
  repeat split; assumption.
Defined.

(** ** Attribute edits *)

Lemma applyEdit_setAttribute (componentId childIndex : Z)
    (frames : list RenderTreeFramePointer) (edit : RenderTreeEditPointer)
    (frame : RenderTreeFramePointer) (c : Cursor) (w : World) (p : NodeId) (pn : DomNode) :
  renderTreeEdit.type edit = EditType.setAttribute ->
  nthZ frames (renderTreeEdit.newTreeIndex edit) = Some frame ->
  cur_parent c = Some p -> nodes w !! p = Some pn ->
  applyEdit componentId childIndex frames edit c w =
  (applyAttribute componentId
     (nthZ (childNodes pn) (childIndexAtCurrentDepth c + renderTreeEdit.siblingIndex edit))
     frame ;;
   ret c) w.
Proof.
  intros Hty Hframe Hcur Hp. unfold applyEdit. rewrite Hty, Hcur.
  rewrite (bind_Ok _ _ _ _ _ (getTreeFramePtr_Some _ _ _ _ Hframe)).
  unfold childAt. rewrite bind_assoc.
  rewrite (bind_Ok _ _ _ _ _ (deref_Some _ _ _ Hp)). cbn [fst snd].
  now rewrite bind_ret_l.
Qed.

Lemma applyEdit_removeAttribute (componentId childIndex : Z)
    (frames : list RenderTreeFramePointer) (edit : RenderTreeEditPointer)
    (c : Cursor) (w : World) (p : NodeId) (pn : DomNode) :
  renderTreeEdit.type edit = EditType.removeAttribute ->
  cur_parent c = Some p -> nodes w !! p = Some pn ->
  applyEdit componentId childIndex frames edit c w =
  (removeAttribute
     (nthZ (childNodes pn) (childIndexAtCurrentDepth c + renderTreeEdit.siblingIndex edit))
     (jsToString (renderTreeEdit.removedAttributeName edit)) ;;
   ret c) w.
Proof.
  intros Hty Hcur Hp. unfold applyEdit. rewrite Hty, Hcur.
  unfold removeAttributeFromDOM, childAt. rewrite !bind_assoc.
  rewrite (bind_Ok _ _ _ _ _ (deref_Some _ _ _ Hp)). cbn [fst snd].
  now rewrite bind_ret_l.
Qed.

Lemma removeAttribute_element (el : NodeId) (name : string) (w : World) (n : DomNode) :
  nodes w !! el = Some n -> isElement n = true ->
  removeAttribute (Some el) name w =
    Ok tt (set_nodes
             (<[el := set_attributes (assoc_remove (toLowerCase name) (attributes n)) n]>
                (nodes w)) w).
Proof.
  intros Hn Hel. unfold removeAttribute, asElement. rewrite bind_assoc.
  rewrite (bind_Ok _ _ _ _ _ (deref_Some _ _ _ Hn)). cbn [fst snd]. rewrite Hel.
  rewrite bind_ret_l. now rewrite (updateNode_known _ _ _ _ Hn).
Qed.

Lemma lookup_after_insert_samePlace (nodes0 : list DomNode) (el p : NodeId)
    (n n' pn : DomNode) :
  nodes0 !! el = Some n -> samePlace n n' -> nodes0 !! p = Some pn ->
  exists pn', <[el := n']> nodes0 !! p = Some pn' /\ childNodes pn' = childNodes pn.
Proof.
  intros Hn (_ & _ & _ & _ & Hch) Hp.
  destruct (decide (p = el)) as [->|Hne].
  - exists n'. split.
    + apply list_lookup_insert_eq. now apply lookup_lt_Some in Hn.
    + congruence.
  - exists pn. split; [|reflexivity]. now rewrite list_lookup_insert_ne by congruence.
Qed.

(** X7: A [removeAttribute] edit only removes a string attribute.  After
    [onclick], [onchange] or [onkeypress] has been set on an element by a
    [setAttribute] edit, a [removeAttribute] edit for the same name on the
    same element leaves the listener in place: the element still remembers
    it and still has it among its listeners for the event. *)
Theorem removeAttribute_edit_keeps_listener (k : ListenerSlot) (componentId childIndex : Z)
    (frames : list RenderTreeFramePointer) (frame : RenderTreeFramePointer)
    (set remove : RenderTreeEditPointer) (c : Cursor) (w : World)
    (p el : NodeId) (pn n : DomNode) :
  renderTreeEdit.type set = EditType.setAttribute ->
  renderTreeEdit.type remove = EditType.removeAttribute ->
  renderTreeEdit.siblingIndex remove = renderTreeEdit.siblingIndex set ->
  renderTreeEdit.removedAttributeName remove = Some (slotAttribute k) ->
  nthZ frames (renderTreeEdit.newTreeIndex set) = Some frame ->
  renderTreeFrame.attributeName frame = Some (slotAttribute k) ->
  cur_parent c = Some p -> nodes w !! p = Some pn ->
  nthZ (childNodes pn) (childIndexAtCurrentDepth c + renderTreeEdit.siblingIndex set)
    = Some el ->
  nodes w !! el = Some n -> isElement n = true ->
  exists w' n',
    applyEditList componentId childIndex frames [set; remove] c w = Ok c w' /\
    nodes w' !! el = Some n' /\
    get_slot k n' = Some (length (closures w)) /\
    (length (closures w) ∈ listenersFor (slotEvent k) n').
Proof.
  intros Hset Hrem Hsib Hname Hframe Hattr Hcur Hp Hchild Hn Hel.
  cbn [applyEditList].
  destruct (applyAttribute_event_result k componentId el frame w n Hattr Hn)
    as (w1 & n1 & Hrun & Hnodes & _ & _ & Hplace & Hslot & Hin & _).
  assert (Hstep1 : applyEdit componentId childIndex frames set c w = Ok c w1).
  { rewrite (applyEdit_setAttribute _ _ _ _ _ _ _ _ _ Hset Hframe Hcur Hp).
    rewrite Hchild. now rewrite (bind_Ok _ _ _ _ _ Hrun). }
  rewrite (bind_Ok _ _ _ _ _ Hstep1).
  destruct (lookup_after_insert_samePlace _ _ _ _ _ _ Hn Hplace Hp) as (pn1 & Hp1 & Hch1).
  rewrite <- Hnodes in Hp1.
  assert (Hn1 : nodes w1 !! el = Some n1).
  { rewrite Hnodes. apply list_lookup_insert_eq. now apply lookup_lt_Some in Hn. }
  assert (Hel1 : isElement n1 = true).
  { destruct Hplace as (Hkind & _). unfold isElement in *. now rewrite Hkind. }
  assert (Hstep2 :
    applyEdit componentId childIndex frames remove c w1 =
      Ok c (set_nodes
              (<[el := set_attributes
                         (assoc_remove (toLowerCase (slotAttribute k)) (attributes n1))
                         n1]> (nodes w1)) w1)).
  { rewrite (applyEdit_removeAttribute _ _ _ _ _ _ _ _ Hrem Hcur Hp1).
    rewrite Hch1, Hsib, Hchild, Hname. cbn [jsToString].
    now rewrite (bind_Ok _ _ _ _ _ (removeAttribute_element _ _ _ _ Hn1 Hel1)). }
  rewrite (bind_Ok _ _ _ _ _ Hstep2).
  eexists. eexists. split; [reflexivity|]. split.
  { cbn. apply list_lookup_insert_eq. now apply lookup_lt_Some in Hn1. }
  split; [|exact Hin]. rewrite <- Hslot. now destruct k.
Qed.

Lemma removeAttribute_edit_keeps_listener_witness :
  exists w' n',
    applyEditList 7 0 [eventAttribute "onclick" 3]
      [setAttributeEdit 0 0; removeAttributeEdit 0 "onclick"]
      (mkCursor (Some 0%nat) 0 0 0) listPage = Ok (mkCursor (Some 0%nat) 0 0 0) w' /\
    nodes w' !! 1%nat = Some n' /\
    _blazorClickListener n' = Some 0%nat /\
    (0%nat ∈ listenersFor "click" n').
Proof.
  exact (removeAttribute_edit_keeps_listener ClickSlot 7 0
           [eventAttribute "onclick" 3] (eventAttribute "onclick" 3)
           (setAttributeEdit 0 0) (removeAttributeEdit 0 "onclick")
           (mkCursor (Some 0%nat) 0 0 0) listPage 0%nat 1%nat
           (set_childNodes [1; 2]%nat (freshNode ElementNode "DIV" ""))
           (set_parentNode (Some 0%nat) (freshNode ElementNode "P" ""))
           eq_refl eq_refl eq_refl eq_refl eq_refl eq_refl eq_refl eq_refl
           eq_refl eq_refl eq_refl).
Defined.




(** ** The walk: which edits it reads, where it stops, what it counts *)

Lemma applyEdits_list (componentId : Z) (parent : NodeRef) (childIndex : Z)
    (edits : list RenderTreeEditPointer) (editsOffset editsLength : Z)
    (referenceFrames : list RenderTreeFramePointer) (w : World) :
  0 <= editsOffset -> 0 <= editsLength ->
  editsOffset + editsLength <= Z.of_nat (length edits) ->
  applyEdits componentId parent childIndex edits editsOffset editsLength
    referenceFrames w =
  (c <- applyEditList componentId childIndex referenceFrames
          (take (Z.to_nat editsLength) (drop (Z.to_nat editsOffset) edits))
          (mkCursor parent 0 childIndex 0) ;;
   ret (topLevelNodeCountChange c)) w.
Proof.
  intros Hoff Hlen Hin. unfold applyEdits.
  replace (Z.to_nat (editsOffset + editsLength - editsOffset))
    with (Z.to_nat editsLength) by lia.
  unfold bind. now rewrite applyEdits_loop_list by lia.
Qed.

(** X9: The walk reads the edits from [editsOffset] up to, not including,
    [editsOffset + editsLength], and nothing else of the table: it is the
    walk over that slice.  With no edits to read it returns 0 and leaves
    the store as it is, whatever the offset. *)
Theorem applyEdits_window (componentId : Z) (parent : NodeRef) (childIndex : Z)
    (edits : list RenderTreeEditPointer) (editsOffset editsLength : Z)
    (referenceFrames : list RenderTreeFramePointer) (w : World) :
  (0 <= editsOffset -> 0 <= editsLength ->
   editsOffset + editsLength <= Z.of_nat (length edits) ->
   let window := take (Z.to_nat editsLength) (drop (Z.to_nat editsOffset) edits) in
   applyEdits componentId parent childIndex edits editsOffset editsLength
     referenceFrames w =
   applyEdits componentId parent childIndex window 0 (Z.of_nat (length window))
     referenceFrames w) /\
  (editsLength <= 0 ->
   applyEdits componentId parent childIndex edits editsOffset editsLength
     referenceFrames w = Ok 0 w).
Proof.
  split.
  - intros Hoff Hlen Hin window.
    rewrite (applyEdits_list _ _ _ _ _ _ _ _ Hoff Hlen Hin).
    now rewrite applyEdits_whole.
  - intros Hlen. unfold applyEdits.
    replace (Z.to_nat (editsOffset + editsLength - editsOffset)) with 0%nat by lia.
    reflexivity.
Qed.

Lemma applyEdits_window_witness :
  applyEdits 1 (Some 0%nat) 0
    [stepOutEdit; removeFrameEdit 0; stepOutEdit] 1 1 [] twoTexts =
  applyEdits 1 (Some 0%nat) 0 [removeFrameEdit 0] 0 1 [] twoTexts /\
  applyEdits 1 (Some 0%nat) 0 [stepOutEdit] 5 0 [] twoTexts = Ok 0 twoTexts.
Proof.
  split.
  - apply (proj1 (applyEdits_window 1 (Some 0%nat) 0
                    [stepOutEdit; removeFrameEdit 0; stepOutEdit] 1 1 [] twoTexts));
      cbn; lia.
  - apply (proj2 (applyEdits_window 1 (Some 0%nat) 0 [stepOutEdit] 5 0 [] twoTexts)). lia.
Defined.

(** X10: No rollback: the walk stops at the first edit that throws, with that
    failure and with the store as the edits before it and the failing edit
    itself have left it; no later edit is applied.  An edit of a type the
    renderer does not know is such an edit, and changes nothing itself. *)
Theorem applyEdits_stops_at_failure (componentId : Z) (parent : NodeRef) (childIndex : Z)
    (pre post : list RenderTreeEditPointer) (bad : RenderTreeEditPointer)
    (referenceFrames : list RenderTreeFramePointer)
    (w w1 : World) (c1 : Cursor) :
  applyEditList componentId childIndex referenceFrames pre
    (mkCursor parent 0 childIndex 0) w = Ok c1 w1 ->
  let edits := pre ++ bad :: post in
  (forall e w2,
     applyEdit componentId childIndex referenceFrames bad c1 w1 = Throw e w2 ->
     applyEdits componentId parent childIndex edits 0 (Z.of_nat (length edits))
       referenceFrames w = Throw e w2) /\
  (forall raw,
     renderTreeEdit.type bad = EditType.unknown raw ->
     applyEdits componentId parent childIndex edits 0 (Z.of_nat (length edits))
       referenceFrames w = Throw (UnknownEditType raw) w1).
Proof.
  intros Hpre edits.
  assert (Hgen : forall e w2,
     applyEdit componentId childIndex referenceFrames bad c1 w1 = Throw e w2 ->
     applyEdits componentId parent childIndex edits 0 (Z.of_nat (length edits))
       referenceFrames w = Throw e w2).
  { intros e w2 Hbad. rewrite applyEdits_whole. subst edits.
    unfold bind at 1. rewrite applyEditList_app.
    rewrite (bind_Ok _ _ _ _ _ Hpre). cbn [applyEditList].
    now rewrite (bind_Throw _ _ _ _ _ Hbad). }
  split; [exact Hgen|].
  intros raw Hty. apply Hgen. unfold applyEdit. now rewrite Hty.
Qed.

Lemma applyEdits_stops_at_failure_witness :
  exists w1,
    applyEdits 1 (Some 0%nat) 0
      [removeFrameEdit 0; renderTreeEdit.mk (EditType.unknown 9) 0 0 None; removeFrameEdit 0]
      0 3 [] twoTexts = Throw (UnknownEditType 9) w1 /\
    nodes w1 !! 0%nat = Some (set_childNodes [2%nat] (freshNode ElementNode "DIV" "")).
Proof.
  eexists. split.
  - apply (proj2 (applyEdits_stops_at_failure 1 (Some 0%nat) 0
                    [removeFrameEdit 0] [removeFrameEdit 0]
                    (renderTreeEdit.mk (EditType.unknown 9) 0 0 None) [] twoTexts
                    _ _ eq_refl) 9 eq_refl).
  - reflexivity.
Defined.

Lemma applyEdit_count (componentId childIndex : Z)
    (referenceFrames : list RenderTreeFramePointer)
    (edit : RenderTreeEditPointer) (c c' : Cursor) (w w' : World) :
  applyEdit componentId childIndex referenceFrames edit c w = Ok c' w' ->
  currentDepth c <> 0 ->
  topLevelNodeCountChange c' = topLevelNodeCountChange c.
Proof.
  unfold applyEdit. intros H Hd. apply Z.eqb_neq in Hd.
  destruct (renderTreeEdit.type edit); inv_bind H;
    try (apply ret_inv_Ok in H as [<- _]);
    try discriminate;
    try rewrite Hd; reflexivity.
Qed.

Lemma applyEditList_count (componentId childIndex : Z)
    (referenceFrames : list RenderTreeFramePointer)
    (es : list RenderTreeEditPointer) (c c' : Cursor) (w w' : World) :
  1 <= currentDepth c ->
  wellNested (currentDepth c - 1) es = true ->
  applyEditList componentId childIndex referenceFrames es c w = Ok c' w' ->
  topLevelNodeCountChange c' = topLevelNodeCountChange c.
Proof.
  revert c w. induction es as [|e es IH]; intros c w Hpos Hwn H.
  - now apply ret_inv_Ok in H as [<- _].
  - cbn in H, Hwn. inv_bind H. apply andb_prop in Hwn as [Hge Hwn].
    apply Z.leb_le in Hge.
    pose proof (applyEdit_cursor _ _ _ _ _ _ _ _ E) as [Hd _].
    rewrite (IH a w0); [|lia| |exact H].
    + apply (applyEdit_count _ _ _ _ _ _ _ _ E). lia.
    + now replace (currentDepth a - 1) with (currentDepth c - 1 + depthChange e) by lia.
Qed.

(** X11: The count the walk returns is about the top level only: edits walked
    while the cursor is below depth 0 never change it.  So the edits
    between a [stepIn] and its [stepOut] add nothing to it, whatever they
    insert or remove, and a walk that does all its work inside one such
    pair returns 0. *)
Theorem nested_edits_not_counted (componentId childIndex : Z)
    (referenceFrames : list RenderTreeFramePointer) :
  (forall (es : list RenderTreeEditPointer) (c c' : Cursor) (w w' : World),
     1 <= currentDepth c ->
     wellNested (currentDepth c - 1) es = true ->
     applyEditList componentId childIndex referenceFrames es c w = Ok c' w' ->
     topLevelNodeCountChange c' = topLevelNodeCountChange c) /\
  (forall (parent : NodeRef) (body : list RenderTreeEditPointer)
          (sIn sOut : RenderTreeEditPointer) (w w' : World) (delta : Z),
     renderTreeEdit.type sIn = EditType.stepIn ->
     renderTreeEdit.type sOut = EditType.stepOut ->
     wellNested 0 body = true ->
     let edits := sIn :: body ++ [sOut] in
     applyEdits componentId parent childIndex edits 0 (Z.of_nat (length edits))
       referenceFrames w = Ok delta w' ->
     delta = 0).
Proof.
  split; [intros; eapply applyEditList_count; eassumption|].
  intros parent body sIn sOut w w' delta HsIn HsOut Hwn edits H.
  rewrite applyEdits_whole in H. inv_bind H. apply ret_inv_Ok in H as [<- _].
  subst edits. cbn [applyEditList] in E. inv_bind E.
  rewrite applyEditList_app in E. inv_bind E. cbn [applyEditList] in E. inv_bind E.
  apply ret_inv_Ok in E as [<- _].
  pose proof (applyEdit_cursor _ _ _ _ _ _ _ _ E0) as [Hd0 _].
  unfold depthChange in Hd0. rewrite HsIn in Hd0. cbn [currentDepth] in Hd0.
  assert (Hc0 : topLevelNodeCountChange a0 = 0).
  { unfold applyEdit in E0. rewrite HsIn in E0. inv_bind E0.
    now apply ret_inv_Ok in E0 as [<- _]. }
  assert (Hc1 : topLevelNodeCountChange a1 = topLevelNodeCountChange a0).
  { apply (applyEditList_count _ _ _ _ _ _ _ _) with (3 := E1); [lia|].
    now replace (currentDepth a0 - 1) with 0 by lia. }
  assert (Hc2 : topLevelNodeCountChange a2 = topLevelNodeCountChange a1).
  { unfold applyEdit in E2. rewrite HsOut in E2. inv_bind E2.
    now apply ret_inv_Ok in E2 as [<- _]. }
  congruence.
Qed.

Lemma nested_edits_not_counted_witness :
  exists c' w',
    applyEditList 1 0 [] [removeFrameEdit 0; removeFrameEdit 0]
      (mkCursor (Some 2%nat) 1 0 5) listPage = Ok c' w' /\
    topLevelNodeCountChange c' = 5.
Proof.
  assert (H : { r : Cursor * World |
                applyEditList 1 0 [] [removeFrameEdit 0; removeFrameEdit 0]
                  (mkCursor (Some 2%nat) 1 0 5) listPage = Ok (fst r) (snd r) }).
  { eexists (_, _). vm_compute. reflexivity. }
  destruct H as [[c' w'] H]. exists c', w'. split; [exact H|].
  apply (proj1 (nested_edits_not_counted 1 0 []) [removeFrameEdit 0; removeFrameEdit 0]
           (mkCursor (Some 2%nat) 1 0 5) c' listPage w').
  - cbn. lia.
  - reflexivity.
  - exact H.
Defined.

(** ** Where materialized frames end up *)

Lemma consistent_nodes (w w' : World) (parent : NodeId) (pn : DomNode) :
  nodes w' = nodes w -> childrenConsistent w parent pn -> childrenConsistent w' parent pn.
Proof. unfold childrenConsistent. now intros ->. Qed.

Lemma Placed_nodes (w w1 w2 : World) (parent : NodeId) (pn : DomNode) (i k : Z) :
  nodes w2 = nodes w1 -> Placed w parent pn i k w1 -> Placed w parent pn i k w2.
Proof.
  intros Heq (Hlen & Hother & created & Hk & Hfresh & Hcons).
  unfold Placed. rewrite Heq. split; [exact Hlen|]. split; [exact Hother|].
  exists created. repeat split; try assumption.
  all: destruct Hcons as (H1 & H2 & H3 & H4 & H5); try assumption.
  - now rewrite Heq.
  - intros c Hc. rewrite Heq. now apply H5.
Qed.

Lemma Placed_refl (w : World) (parent : NodeId) (pn : DomNode) (i : Z) :
  childrenConsistent w parent pn -> Placed w parent pn i 0 w.
Proof.
  intros Hcons. split; [lia|]. split; [reflexivity|].
  exists []. split; [reflexivity|]. split.
  - intros c Hc. now apply elem_of_nil in Hc.
  - cbn [app]. rewrite take_drop.
    replace (set_childNodes (childNodes pn) pn) with pn by now destruct pn.
    exact Hcons.
Qed.

Lemma consistent_children_lt (w : World) (parent : NodeId) (pn : DomNode) (c : NodeId) :
  childrenConsistent w parent pn -> c ∈ childNodes pn -> (c < length (nodes w))%nat.
Proof.
  intros (_ & _ & _ & _ & Hcs) Hc. destruct (Hcs c Hc) as (cn & Hcn & _).
  now apply lookup_lt_Some in Hcn.
Qed.

(** A node that has just been created, put under [parent]. *)
Lemma insert_fresh_child_placed (w : World) (parent : NodeId) (pn fresh : DomNode)
    (childIndex : Z) (w' : World) :
  childrenConsistent w parent pn -> 0 <= childIndex -> parentNode fresh = None ->
  insertNodeIntoDOM (length (nodes w)) (Some parent) childIndex
    (set_nodes (nodes w ++ [fresh]) w) = Ok tt w' ->
  Placed w parent pn childIndex 1 w' /\
  nodes w' !! length (nodes w) = Some (set_parentNode (Some parent) fresh) /\
  length (nodes w') = S (length (nodes w)) /\
  closures w' = closures w /\
  childComponentLocations w' = childComponentLocations w.
Proof.
  intros Hcons Hi Hdet Hrun.
  destruct (insert_fresh_child w parent pn fresh childIndex Hcons Hi Hdet)
    as (w2 & Hrun2 & Hp & Hid & Hother & Hlen & Hcl & Hloc).
  rewrite Hrun in Hrun2. injection Hrun2 as <-.
  split; [|now repeat split].
  pose proof Hcons as (Hp0 & Hel & Hnd & Hpar & Hcs).
  assert (Hlp : (parent < length (nodes w))%nat) by now apply lookup_lt_Some in Hp0.
  set (i := Z.to_nat (Z.min childIndex (Z.of_nat (length (childNodes pn))))) in *.
  split; [lia|]. split.
  { intros x Hx Hxp. apply Hother; [exact Hxp|lia]. }
  exists [length (nodes w)]. split; [reflexivity|]. split.
  { intros c Hc. apply list_elem_of_singleton in Hc as ->. lia. }
  assert (Hfresh : length (nodes w) ∉ childNodes pn).
  { intros Hin. pose proof (consistent_children_lt _ _ _ _ Hcons Hin). lia. }
  fold i. cbn [app].
  rewrite <- (take_drop i (childNodes pn)) in Hnd, Hpar, Hfresh.
  split; [exact Hp|]. split; [exact Hel|]. split; [|split].
  - apply NoDup_app in Hnd as (Hnd1 & Hdis & Hnd2).
    apply NoDup_app. split; [exact Hnd1|]. split.
    + intros x Hx Hx'. apply elem_of_cons in Hx' as [->|Hx'].
      * apply Hfresh. apply elem_of_app. now left.
      * now apply (Hdis x).
    + apply NoDup_cons. split; [|exact Hnd2].
      intros Hx. apply Hfresh. apply elem_of_app. now right.
  - cbn [childNodes set_childNodes]. intros Hin. apply Hpar.
    apply elem_of_app in Hin as [Hin|Hin]; [apply elem_of_app; now left|].
    apply elem_of_cons in Hin as [Hin|Hin]; [lia|].
    apply elem_of_app. now right.
  - cbn [childNodes set_childNodes]. intros c Hin.
    assert (Hc : c = length (nodes w) \/ c ∈ childNodes pn).
    { rewrite <- (take_drop i (childNodes pn)).
      apply elem_of_app in Hin as [Hin|Hin]; [right; apply elem_of_app; now left|].
      apply elem_of_cons in Hin as [Hin|Hin]; [now left|].
      right. apply elem_of_app. now right. }
    destruct Hc as [->|Hc].
    + eexists. split; [exact Hid|reflexivity].
    + destruct (Hcs c Hc) as (cn & Hcn & Hcp). exists cn. split; [|exact Hcp].
      pose proof (consistent_children_lt _ _ _ _ Hcons Hc).
      rewrite Hother; [exact Hcn| |lia].
      intros ->. apply Hpar. now rewrite take_drop.
Qed.

Lemma Grown_refl (el : NodeId) (w : World) : Grown el w w.
Proof.
  split; [lia|]. split; [reflexivity|]. intros n Hn. exists n. now repeat split.
Qed.

Lemma Grown_trans (el : NodeId) (w1 w2 w3 : World) :
  Grown el w1 w2 -> Grown el w2 w3 -> Grown el w1 w3.
Proof.
  intros (Hl & Ho & He) (Kl & Ko & Ke). split; [lia|]. split.
  - intros x Hx Hxe. rewrite Ko by (try lia; exact Hxe). now apply Ho.
  - intros n Hn. destruct (He n Hn) as (n2 & Hn2 & Hk2 & Hp2).
    destruct (Ke n2 Hn2) as (n3 & Hn3 & Hk3 & Hp3).
    exists n3. repeat split; congruence.
Qed.

Lemma touchesOnly_Grown (el : NodeId) (w w' : World) : touchesOnly el w w' -> Grown el w w'.
Proof.
  intros (Hl & _ & _ & _ & Ho & He). split; [lia|]. split.
  - intros x _ Hx. now apply Ho.
  - intros n Hn. destruct (He n Hn) as (n' & Hn' & Hk & _ & _ & Hp & _).
    exists n'. now repeat split.
Qed.

Lemma Placed_Grown (w w' : World) (parent : NodeId) (pn : DomNode) (i k : Z) :
  nodes w !! parent = Some pn -> Placed w parent pn i k w' -> Grown parent w w'.
Proof.
  intros Hp (Hlen & Hother & created & _ & _ & Hcons).
  split; [exact Hlen|]. split; [exact Hother|].
  intros n Hn. rewrite Hp in Hn. injection Hn as <-.
  destruct Hcons as (Hp' & _). eexists. split; [exact Hp'|]. now split.
Qed.

(** What has been put under [parent] stays there while one of the new
    nodes grows. *)
Lemma Placed_then_Grown (w w1 w' : World) (parent el : NodeId) (pn : DomNode) (i k : Z) :
  Placed w parent pn i k w1 -> Grown el w1 w' ->
  el <> parent -> (length (nodes w) <= el)%nat ->
  Placed w parent pn i k w'.
Proof.
  intros (Hlen & Hother & created & Hk & Hfresh & Hcons) (Gl & Go & Ge) Hne Hel.
  split; [lia|]. split.
  { intros x Hx Hxp. rewrite Go by lia. now apply Hother. }
  exists created. split; [exact Hk|]. split; [exact Hfresh|].
  destruct Hcons as (Hp & Help & Hnd & Hpar & Hcs).
  assert (Hlp : (parent < length (nodes w1))%nat) by now apply lookup_lt_Some in Hp.
  split; [|split; [exact Help|split; [exact Hnd|split; [exact Hpar|]]]].
  - rewrite Go by (try lia; congruence). exact Hp.
  - intros c Hc. destruct (Hcs c Hc) as (cn & Hcn & Hcp).
    destruct (decide (c = el)) as [->|Hce].
    + destruct (Ge cn Hcn) as (cn' & Hcn' & _ & Hp').
      exists cn'. split; [exact Hcn'|congruence].
    + exists cn. split; [|exact Hcp]. rewrite Go; [exact Hcn| |exact Hce].
      now apply lookup_lt_Some in Hcn.
Qed.

(** Two runs in a row, the second one at the child index the first one has
    left. *)
Lemma Placed_trans (w w1 w2 : World) (parent : NodeId) (pn pn1 : DomNode) (i k1 k2 : Z) :
  0 <= i ->
  Placed w parent pn i k1 w1 ->
  nodes w1 !! parent = Some pn1 ->
  Placed w1 parent pn1 (i + k1) k2 w2 ->
  Placed w parent pn i (k1 + k2) w2.
Proof.
  intros Hi (Hlen & Hother & c1 & Hk1 & Hfresh1 & Hcons1) Hp1
    (Klen & Kother & c2 & Hk2 & Hfresh2 & Hcons2).
  pose proof Hcons1 as (Hp1' & _). rewrite Hp1 in Hp1'. injection Hp1' as ->.
  cbn [childNodes set_childNodes] in *.
  set (cs := childNodes pn) in *.
  set (a := Z.to_nat (Z.min i (Z.of_nat (length cs)))) in *.
  assert (Ha : (a <= length cs)%nat) by lia.
  assert (Hidx : Z.to_nat (Z.min (i + k1)
                    (Z.of_nat (length (take a cs ++ c1 ++ drop a cs))))
                 = (length (take a cs ++ c1))%nat).
  { rewrite !length_app, length_take, length_drop. lia. }
  rewrite Hidx in Hcons2.
  rewrite (app_assoc (take a cs) c1 (drop a cs)) in Hcons2.
  rewrite take_app_length, drop_app_length in Hcons2.
  split; [lia|]. split.
  { intros x Hx Hxp. rewrite Kother by (try lia; exact Hxp). now apply Hother. }
  exists (c1 ++ c2). split; [rewrite length_app; lia|]. split.
  { intros c Hc. apply elem_of_app in Hc as [Hc|Hc]; [now apply Hfresh1|].
    pose proof (Hfresh2 c Hc). lia. }
  fold cs. fold a.
  replace (take a cs ++ (c1 ++ c2) ++ drop a cs)
    with ((take a cs ++ c1) ++ c2 ++ drop a cs) by now rewrite <- !app_assoc.
  exact Hcons2.
Qed.

Lemma consistent_empty (w : World) (el : NodeId) (en : DomNode) :
  nodes w !! el = Some en -> isElement en = true -> childNodes en = [] ->
  childrenConsistent w el en.
Proof.
  intros Hn Hel Hch. split; [exact Hn|]. split; [exact Hel|]. rewrite Hch.
  split; [apply NoDup_nil_2|]. split; [apply not_elem_of_nil|].
  intros c Hc. now apply elem_of_nil in Hc.
Qed.

Lemma insertText_placed (parent : NodeId) (childIndex : Z) (frame : RenderTreeFramePointer)
    (w w' : World) (pn : DomNode) (u : unit) :
  childrenConsistent w parent pn -> 0 <= childIndex ->
  insertText (Some parent) childIndex frame w = Ok u w' ->
  Placed w parent pn childIndex 1 w'.
Proof.
  intros Hcons Hi Hrun. unfold insertText, createTextNode, allocNode in Hrun.
  unfold bind at 1 in Hrun. destruct u.
  now apply (insert_fresh_child_placed _ _ _ (freshNode TextNode "" _) _ _
               Hcons Hi eq_refl Hrun).
Qed.

Lemma insertComponentMarker_placed (componentId : Z) (parent : NodeId) (childIndex : Z)
    (w w' : World) (pn : DomNode) (u : unit) :
  childrenConsistent w parent pn -> 0 <= childIndex ->
  insertComponentMarker componentId (Some parent) childIndex w = Ok u w' ->
  Placed w parent pn childIndex 1 w'.
Proof.
  intros Hcons Hi Hrun. unfold insertComponentMarker, createComment, allocNode in Hrun.
  unfold bind at 1 in Hrun. inv_bind Hrun. destruct a.
  destruct (insert_fresh_child_placed _ _ _ (freshNode CommentNode "" _) _ _
              Hcons Hi eq_refl E) as (Hpl & _).
  unfold bindLocation, modifyWorld in Hrun. injection Hrun as _ <-.
  apply (Placed_nodes _ w0); [reflexivity|exact Hpl].
Qed.

Lemma places_materialize (frames : list RenderTreeFramePointer) (fuel : nat) :
  (forall componentId parent childIndex frame frameIndex w pn k w',
     childrenConsistent w parent pn -> 0 <= childIndex ->
     insertFrame_fuel fuel componentId (Some parent) childIndex frames frame frameIndex w
       = Ok k w' ->
     Placed w parent pn childIndex k w') /\
  (forall componentId parent childIndex frame frameIndex w pn u w',
     childrenConsistent w parent pn -> 0 <= childIndex ->
     insertElement_fuel fuel componentId (Some parent) childIndex frames frame frameIndex w
       = Ok u w' ->
     Placed w parent pn childIndex 1 w') /\
  (forall componentId el index endIndexExcl w en u w',
     nodes w !! el = Some en -> isElement en = true -> childNodes en = [] ->
     insertElement_loop fuel componentId el frames index endIndexExcl w = Ok u w' ->
     Grown el w w') /\
  (forall componentId parent orig childIndex index endIndexExcl w pn r w',
     childrenConsistent w parent pn -> 0 <= childIndex ->
     insertFrameRange_loop fuel componentId (Some parent) orig childIndex frames
       index endIndexExcl w = Ok r w' ->
     Placed w parent pn childIndex (r - (childIndex - orig)) w').
Proof.
  induction fuel as [|fuel (IHF & IHE & IHL & IHR)].
  { repeat split; intros; discriminate. }
  split; [|split; [|split]].
  - intros componentId parent childIndex frame frameIndex w pn k w' Hcons Hi Hrun.
    rewrite insertFrame_fuel_S in Hrun.
    destruct (renderTreeFrame.frameType frame).
    + inv_bind Hrun. apply ret_inv_Ok in Hrun as [<- <-]. now apply (IHE _ _ _ _ _ _ _ _ _ Hcons Hi E).
    + inv_bind Hrun. apply ret_inv_Ok in Hrun as [<- <-].
      now apply (insertText_placed _ _ _ _ _ _ _ Hcons Hi E).
    + discriminate.
    + inv_bind Hrun. apply ret_inv_Ok in Hrun as [<- <-].
      now apply (insertComponentMarker_placed _ _ _ _ _ _ _ Hcons Hi E).
    + pose proof (IHR _ _ _ _ _ _ _ _ _ _ Hcons Hi Hrun) as Hpl.
      now replace (k - (childIndex - childIndex)) with k in Hpl by lia.
    + discriminate.
  - intros componentId parent childIndex frame frameIndex w pn u w' Hcons Hi Hrun.
    rewrite insertElement_fuel_S in Hrun.
    unfold createElement, allocNode in Hrun. unfold bind at 1 in Hrun.
    inv_bind Hrun. destruct a.
    destruct (insert_fresh_child_placed _ _ _ (freshNode ElementNode _ "") _ _
                Hcons Hi eq_refl E)
      as (Hpl & Hnew & Hlen & _).
    assert (Hgrow : Grown (length (nodes w)) w0 w').
    { apply (IHL _ _ _ _ _ _ _ _ Hnew eq_refl eq_refl Hrun). }
    apply (Placed_then_Grown _ _ _ _ _ _ _ _ Hpl Hgrow); [|lia].
    destruct Hcons as (Hp & _). apply lookup_lt_Some in Hp. lia.
  - intros componentId el index endIndexExcl w en u w' Hn Hel Hch Hrun.
    rewrite insertElement_loop_S in Hrun.
    destruct (index <? endIndexExcl).
    2:{ apply ret_inv_Ok in Hrun as [_ <-]. apply Grown_refl. }
    inv_bind Hrun. apply getTreeFramePtr_inv in E as (-> & _).
    destruct (FrameType.eqb _ _).
    + inv_bind Hrun.
      pose proof (touches_applyAttribute el componentId a w) as Htouch.
      rewrite E in Htouch.
      pose proof Htouch as (_ & _ & _ & _ & _ & He).
      destruct (He en Hn) as (en1 & Hn1 & Hk1 & _ & _ & _ & Hc1).
      apply (Grown_trans _ _ w0); [now apply touchesOnly_Grown|].
      apply (IHL _ _ _ _ _ _ _ _ Hn1) with (3 := Hrun).
      * unfold isElement in *. now rewrite Hk1.
      * congruence.
    + inv_bind Hrun. apply ret_inv_Ok in Hrun as [_ <-].
      pose proof (consistent_empty _ _ _ Hn Hel Hch) as Hcons.
      apply (Placed_Grown _ _ _ _ _ _ Hn (IHR _ _ _ _ _ _ _ _ _ _ Hcons (Z.le_refl 0) E)).
  - intros componentId parent orig childIndex index endIndexExcl w pn r w' Hcons Hi Hrun.
    rewrite insertFrameRange_loop_S in Hrun.
    destruct (index <? endIndexExcl).
    2:{ apply ret_inv_Ok in Hrun as [<- <-].
        replace (childIndex - orig - (childIndex - orig)) with 0 by lia.
        now apply Placed_refl. }
    inv_bind Hrun. apply getTreeFramePtr_inv in E as (-> & _).
    pose proof (IHF _ _ _ _ _ _ _ _ _ Hcons Hi E0) as Hpl1.
    pose proof Hpl1 as (_ & _ & c1 & Hk1 & _ & Hcons1).
    pose proof Hcons1 as (Hp1 & _).
    assert (Hi1 : 0 <= childIndex + a0) by lia.
    pose proof (IHR _ _ _ _ _ _ _ _ _ _ Hcons1 Hi1 Hrun) as Hpl2.
    pose proof (Placed_trans _ _ _ _ _ _ _ _ _ Hi Hpl1 Hp1 Hpl2) as Hpl.
    now replace (a0 + (r - (childIndex + a0 - orig))) with (r - (childIndex - orig))
      in Hpl by lia.
Qed.

(** X12: [insertFrame] and [insertFrameRange] under an element whose child list
    is in order, at a child index [i >= 0]: when they return [k], exactly
    [k] nodes created by the call stand in the child list of the element,
    one after the other from position [min i n] on ([n] children before the
    call), between the children that were there, which keep their order; so
    the child list is [k] longer.  Every node that existed before the call
    is untouched, apart from that child list: descendants of the new nodes
    are new nodes themselves. *)
Theorem insertFrame_places (componentId : Z) (parent : NodeId) (childIndex : Z)
    (frames : list RenderTreeFramePointer) (w : World) (pn : DomNode) :
  childrenConsistent w parent pn -> 0 <= childIndex ->
  (forall frame frameIndex k w',
     insertFrame componentId (Some parent) childIndex frames frame frameIndex w = Ok k w' ->
     Placed w parent pn childIndex k w' /\
     exists pn',
       nodes w' !! parent = Some pn' /\
       Z.of_nat (length (childNodes pn')) = Z.of_nat (length (childNodes pn)) + k) /\
  (forall startIndex endIndexExcl k w',
     insertFrameRange componentId (Some parent) childIndex frames startIndex endIndexExcl w
       = Ok k w' ->
     Placed w parent pn childIndex k w' /\
     exists pn',
       nodes w' !! parent = Some pn' /\
       Z.of_nat (length (childNodes pn')) = Z.of_nat (length (childNodes pn)) + k).
Proof.
  intros Hcons Hi.
  assert (Hcount : forall k w', Placed w parent pn childIndex k w' ->
            exists pn', nodes w' !! parent = Some pn' /\
              Z.of_nat (length (childNodes pn')) = Z.of_nat (length (childNodes pn)) + k).
  { intros k w' (_ & _ & created & Hk & _ & Hp & _). eexists. split; [exact Hp|].
    cbn [childNodes set_childNodes]. rewrite !length_app, length_take, length_drop. lia. }
  destruct (places_materialize frames (frameFuel frames)) as (HF & _ & _ & HR).
  split.
  - intros frame frameIndex k w' Hrun.
    pose proof (HF _ _ _ _ _ _ _ _ _ Hcons Hi Hrun) as Hpl. split; [exact Hpl|auto].
  - intros startIndex endIndexExcl k w' Hrun.
    pose proof (HR _ _ _ _ _ _ _ _ _ _ Hcons Hi Hrun) as Hpl.
    replace (k - (childIndex - childIndex)) with k in Hpl by lia.
    split; [exact Hpl|auto].
Qed.

Lemma insertFrame_places_witness :
  Placed page 0%nat (freshNode ElementNode "DIV" "") 0 2 regionResult.
Proof.
  assert (Hcons : childrenConsistent page 0%nat (freshNode ElementNode "DIV" ""))
    by consistent.
  apply (proj1 (insertFrame_places 1 0%nat 0 regionTable page _ Hcons (Z.le_refl 0))
           (regionFrame 3) 0 2 regionResult).
  vm_compute. reflexivity.
Defined.

(** ** The renderer always comes to an end *)

Lemma settles_removeChild (parent : NodeId) (child : NodeRef) :
  settles (removeChild parent child).
Proof. unfold removeChild. settle. Qed.

Lemma settles_childAt (parent : NodeRef) (i : Z) : settles (childAt parent i).
Proof. unfold childAt. settle. Qed.

Lemma settles_parentElement (id : NodeId) : settles (parentElement id).
Proof. unfold parentElement. settle. Qed.

Lemma settles_removeAttribute (element : NodeRef) (name : string) :
  settles (removeAttribute element name).
Proof. unfold removeAttribute. settle. Qed.

#[local] Hint Resolve settles_removeChild settles_childAt settles_parentElement
  settles_removeAttribute : settle.

Lemma settles_removeNodeFromDOM (parent : NodeRef) (childIndex : Z) :
  settles (removeNodeFromDOM parent childIndex).
Proof. unfold removeNodeFromDOM. settle. Qed.

Lemma settles_removeAttributeFromDOM (parent : NodeRef) (childIndex : Z) (name : string) :
  settles (removeAttributeFromDOM parent childIndex name).
Proof. unfold removeAttributeFromDOM. settle. Qed.

Lemma settles_orphan (ids : list NodeId) : settles (orphan ids).
Proof. induction ids as [|c ids IH]; cbn [orphan]; settle. Qed.

#[local] Hint Resolve settles_removeNodeFromDOM settles_removeAttributeFromDOM
  settles_orphan : settle.

Lemma settles_setTextContent (node : NodeRef) (v : JsString) :
  settles (setTextContent node v).
Proof. unfold setTextContent, createTextNode. settle. Qed.

Lemma settles_getRenderTreeEditPtr (edits : list RenderTreeEditPointer) (i : Z) :
  settles (getRenderTreeEditPtr edits i).
Proof. unfold getRenderTreeEditPtr. settle. Qed.

Lemma settles_insertComponent (parent : NodeRef) (childIndex : Z)
    (frame : RenderTreeFramePointer) :
  settles (insertComponent parent childIndex frame).
Proof. unfold insertComponent. settle. Qed.

#[local] Hint Resolve settles_setTextContent settles_getRenderTreeEditPtr
  settles_insertFrame settles_insertComponent : settle.

Lemma settles_applyEdit (componentId childIndex : Z)
    (frames : list RenderTreeFramePointer) (edit : RenderTreeEditPointer) (c : Cursor) :
  settles (applyEdit componentId childIndex frames edit c).
Proof. unfold applyEdit. settle. Qed.

#[local] Hint Resolve settles_applyEdit : settle.

Lemma settles_applyEdits_loop (turns : nat) (componentId childIndex : Z)
    (edits : list RenderTreeEditPointer) (frames : list RenderTreeFramePointer)
    (editIndex : Z) (c : Cursor) :
  settles (applyEdits_loop turns componentId childIndex edits frames editIndex c).
Proof.
  revert editIndex c. induction turns as [|turns IH]; intros editIndex c;
    cbn [applyEdits_loop]; settle.
Qed.

#[local] Hint Resolve settles_applyEdits_loop : settle.

Lemma settles_applyEdits (componentId : Z) (parent : NodeRef) (childIndex : Z)
    (edits : list RenderTreeEditPointer) (editsOffset editsLength : Z)
    (frames : list RenderTreeFramePointer) :
  settles (applyEdits componentId parent childIndex edits editsOffset editsLength frames).
Proof. unfold applyEdits. settle. Qed.

Lemma settles_moveIntoWrapper (turns : nat) (wrapper parent : NodeId) (childIndex : Z) :
  settles (moveIntoWrapper turns wrapper parent childIndex).
Proof. induction turns as [|turns IH]; cbn [moveIntoWrapper]; settle. Qed.

Lemma settles_locateAnchor (marker : NodeId) : settles (locateAnchor marker).
Proof. unfold locateAnchor. settle. Qed.

#[local] Hint Resolve settles_applyEdits settles_moveIntoWrapper settles_locateAnchor
  : settle.

Lemma settles_updateComponent (componentId : Z)
    (edits : list RenderTreeEditPointer) (editsOffset editsLength : Z)
    (frames : list RenderTreeFramePointer) :
  settles (updateComponent componentId edits editsOffset editsLength frames).
Proof.
  unfold updateComponent, bindLocation, createElement. settle.
Qed.

(** X13: The recursion of [insertFrame], [insertElement] and [insertFrameRange]
    comes to an end on every frame table, also on one whose subtree lengths
    are zero, negative or reach beyond the table: every call and every turn
    of a loop moves on to a larger frame index.  So these functions, the
    walk over the edits and [updateComponent] always return or throw. *)
Theorem renderer_terminates (componentId : Z) (frames : list RenderTreeFramePointer) :
  (forall parent childIndex frame frameIndex,
     settles (insertFrame componentId parent childIndex frames frame frameIndex)) /\
  (forall parent childIndex frame frameIndex,
     settles (insertElement componentId parent childIndex frames frame frameIndex)) /\
  (forall parent childIndex startIndex endIndexExcl,
     settles (insertFrameRange componentId parent childIndex frames
                startIndex endIndexExcl)) /\
  (forall parent childIndex edits editsOffset editsLength,
     settles (applyEdits componentId parent childIndex edits editsOffset editsLength
                frames)) /\
  (forall edits editsOffset editsLength,
     settles (updateComponent componentId edits editsOffset editsLength frames)).
Proof.
  split; [intros; apply settles_insertFrame|].
  split.
  { intros parent childIndex frame frameIndex.
    destruct (fuel_enough_at frames (length frames)) as (_ & _ & HE & _).
    apply HE; [apply room_le|unfold frameFuel; lia]. }
  split; [intros; apply settles_insertFrameRange|].
  split; [intros; apply settles_applyEdits|].
  intros; apply settles_updateComponent.
Qed.

(** ** Who binds component locations *)

Lemma keeps_moveIntoWrapper (cid : Z) (turns : nat) (wrapper parent : NodeId)
    (childIndex : Z) :
  keepsLocation cid (moveIntoWrapper turns wrapper parent childIndex).
Proof.
  induction turns as [|turns IH]; cbn [moveIntoWrapper]; [apply keeps_ret|].
  apply keeps_bind; [apply keeps_childAt|intros next].
  apply keeps_bind; [apply keeps_appendChild|intros _; exact IH].
Qed.

Lemma keeps_updateComponent (cid componentId : Z)
    (edits : list RenderTreeEditPointer) (editsOffset editsLength : Z)
    (frames : list RenderTreeFramePointer) :
  componentId <> cid ->
  (forall frame, frame ∈ frames -> selfFree cid frame) ->
  keepsLocation cid (updateComponent componentId edits editsOffset editsLength frames).
Proof.
  intros Hne Hfree. unfold updateComponent.
  apply keeps_bind; [apply keeps_getWorld|intros w0].
  destruct (childComponentLocations w0 !! componentId) as [[marker|]|];
    try apply keeps_throw.
  apply keeps_bind; [apply keeps_locateAnchor|intros [[[parent childIndex] nodeCount] isWrapped]].
  apply keeps_bind; [now apply keeps_applyEdits|intros delta].
  destruct (negb isWrapped); [|apply keeps_ret].
  destruct (nodeCount + delta =? 1).
  - apply keeps_bind; [apply keeps_childAt|intros single]. now apply keeps_bindLocation.
  - unfold createElement.
    apply keeps_bind; [apply keeps_allocNode|intros wrapper].
    apply keeps_bind; [apply keeps_insertNodeIntoDOM|intros _].
    apply keeps_bind; [apply keeps_moveIntoWrapper|intros _].
    now apply keeps_bindLocation.
Qed.

(** X14: Only component frames bind locations, and nothing but [disposeComponent]
    unbinds: when no component frame of the table carries the id of a
    component, then materializing frames of the table, walking edits over
    it and updating another component all leave the location of that
    component as it was, whether they return or throw. *)
Theorem only_component_frames_bind (cid : Z) (frames : list RenderTreeFramePointer) :
  (forall frame, frame ∈ frames -> selfFree cid frame) ->
  (forall componentId parent childIndex frame frameIndex,
     selfFree cid frame ->
     keepsLocation cid
       (insertFrame componentId parent childIndex frames frame frameIndex)) /\
  (forall componentId parent childIndex startIndex endIndexExcl,
     keepsLocation cid
       (insertFrameRange componentId parent childIndex frames startIndex endIndexExcl)) /\
  (forall componentId parent childIndex edits editsOffset editsLength,
     keepsLocation cid
       (applyEdits componentId parent childIndex edits editsOffset editsLength frames)) /\
  (forall componentId edits editsOffset editsLength,
     componentId <> cid ->
     keepsLocation cid
       (updateComponent componentId edits editsOffset editsLength frames)).
Proof.
  intros Hfree.
  destruct (keeps_materialize cid frames (frameFuel frames) Hfree) as (HF & _ & _ & HR).
  split; [intros; now apply HF|].
  split; [intros; apply HR|].
  split; [intros; now apply keeps_applyEdits|].
  intros; now apply keeps_updateComponent.
Qed.

Lemma only_component_frames_bind_witness :
  keepsLocation 7 (updateComponent 3 twoMoreEdits 0 2 twoMoreFrames).
Proof.
  assert (Hfree : forall frame, frame ∈ twoMoreFrames -> selfFree 7 frame).
  { intros frame Hin Hty. unfold twoMoreFrames in Hin.
    apply elem_of_cons in Hin as [->|Hin]; [discriminate|].
    apply list_elem_of_singleton in Hin as ->. discriminate. }
  apply (proj2 (proj2 (proj2 (only_component_frames_bind 7 twoMoreFrames Hfree)))).
  discriminate.
Defined.

(** ** Markers *)

Lemma insertComponentMarker_result (componentId : Z) (parent : NodeId) (pn : DomNode)
    (childIndex : Z) (w : World) :
  childrenConsistent w parent pn -> 0 <= childIndex ->
  let marker := length (nodes w) in
  let k := Z.to_nat (Z.min childIndex (Z.of_nat (length (childNodes pn)))) in
  exists w',
    insertComponentMarker componentId (Some parent) childIndex w = Ok tt w' /\
    nodes w' !! parent =
      Some (set_childNodes (take k (childNodes pn) ++ marker :: drop k (childNodes pn)) pn) /\
    nodes w' !! marker =
      Some (set_parentNode (Some parent) (freshNode CommentNode "" "blazor-component")) /\
    (forall x, x <> parent -> x <> marker -> nodes w' !! x = nodes w !! x) /\
    length (nodes w') = S (length (nodes w)) /\
    closures w' = closures w /\
    childComponentLocations w' = <[componentId := Some marker]> (childComponentLocations w).
Proof.
  intros Hcons Hi marker k.
  destruct (insert_fresh_child w parent pn (freshNode CommentNode "" "blazor-component")
              childIndex Hcons Hi eq_refl)
    as (w1 & Hrun & Hp & Hid & Hother & Hlen & Hcl & Hloc).
  exists (set_locations (<[componentId := Some marker]> (childComponentLocations w1)) w1).
  split.
  { unfold insertComponentMarker, createComment, allocNode. unfold bind at 1.
    now rewrite (bind_Ok _ _ _ _ _ Hrun). }
  cbn [nodes closures childComponentLocations set_locations].
  rewrite Hloc. now repeat split.
Qed.

(** X15: [attachComponentToElement] puts a new comment node "blazor-component"
    in front of the children of the element and binds the component to it;
    a component frame does the same at the child index it is inserted at,
    for the component id the frame carries, and counts as one node.
    Nothing is rendered yet, and a location the component had before is
    overwritten. *)
Theorem component_marker (parent : NodeId) (pn : DomNode) (w : World) :
  childrenConsistent w parent pn ->
  let marker := length (nodes w) in
  let markerNode :=
    set_parentNode (Some parent) (freshNode CommentNode "" "blazor-component") in
  (forall componentId,
   exists w',
     attachComponentToElement componentId (Some parent) w = Ok tt w' /\
     nodes w' !! parent = Some (set_childNodes (marker :: childNodes pn) pn) /\
     nodes w' !! marker = Some markerNode /\
     (forall x, x <> parent -> x <> marker -> nodes w' !! x = nodes w !! x) /\
     childComponentLocations w' =
       <[componentId := Some marker]> (childComponentLocations w)) /\
  (forall componentId childIndex frames frame frameIndex,
   renderTreeFrame.frameType frame = FrameType.component ->
   0 <= childIndex ->
   let k := Z.to_nat (Z.min childIndex (Z.of_nat (length (childNodes pn)))) in
   exists w',
     insertFrame componentId (Some parent) childIndex frames frame frameIndex w
       = Ok 1 w' /\
     nodes w' !! parent =
       Some (set_childNodes (take k (childNodes pn) ++ marker :: drop k (childNodes pn))
               pn) /\
     nodes w' !! marker = Some markerNode /\
     (forall x, x <> parent -> x <> marker -> nodes w' !! x = nodes w !! x) /\
     childComponentLocations w' =
       <[renderTreeFrame.componentId frame := Some marker]> (childComponentLocations w)).
Proof.
  intros Hcons marker markerNode. split.
  - intros componentId.
    destruct (insertComponentMarker_result componentId parent pn 0 w Hcons (Z.le_refl 0))
      as (w' & Hrun & Hp & Hid & Hother & _ & _ & Hloc).
    exists w'. split; [exact Hrun|].
    replace (Z.to_nat (Z.min 0 (Z.of_nat (length (childNodes pn))))) with 0%nat in Hp by lia.
    now repeat split.
  - intros componentId childIndex frames frame frameIndex Hty Hi k.
    destruct (insertComponentMarker_result (renderTreeFrame.componentId frame)
                parent pn childIndex w Hcons Hi)
      as (w' & Hrun & Hp & Hid & Hother & _ & _ & Hloc).
    exists w'. split; [|now repeat split].
    rewrite (insertFrame_component _ _ _ _ _ _ _ Hty). unfold insertComponent.
    now rewrite (bind_Ok _ _ _ _ _ Hrun).
Qed.

Lemma component_marker_witness :
  exists w',
    attachComponentToElement 7 (Some 0%nat) twoTexts = Ok tt w' /\
    nodes w' !! 0%nat = Some (set_childNodes [4; 1; 2]%nat (freshNode ElementNode "DIV" "")) /\
    childComponentLocations w' !! 7 = Some (Some 4%nat).
Proof.
  assert (Hcons : childrenConsistent twoTexts 0%nat
                    (set_childNodes [1; 2]%nat (freshNode ElementNode "DIV" "")))
    by consistent.
  destruct (proj1 (component_marker 0%nat _ twoTexts Hcons) 7)
    as (w' & Hrun & Hp & _ & _ & Hloc).
  exists w'. split; [exact Hrun|]. split; [exact Hp|].
  rewrite Hloc. apply lookup_insert_eq.
Defined.

(** X16: Disposing a component that has just been attached gives back the
    registry as it was before the attachment, but not the tree: the marker
    stays where it was put.  An update of the component then fails as for a
    component that was never attached. *)
Theorem attach_then_dispose (componentId : Z) (element : NodeId) (pn : DomNode) (w : World) :
  childrenConsistent w element pn ->
  childComponentLocations w !! componentId = None ->
  exists w',
    (attachComponentToElement componentId (Some element) ;;
     disposeComponent componentId) w = Ok tt w' /\
    childComponentLocations w' = childComponentLocations w /\
    nodes w' !! element
      = Some (set_childNodes (length (nodes w) :: childNodes pn) pn) /\
    forall edits editsOffset editsLength referenceFrames,
      updateComponent componentId edits editsOffset editsLength referenceFrames w'
        = Throw (UnknownComponent componentId) w'.
Proof.
  intros Hcons Hnone.
  destruct (insertComponentMarker_result componentId element pn 0 w Hcons (Z.le_refl 0))
    as (w1 & Hrun & Hp & _ & _ & _ & _ & Hloc).
  replace (Z.to_nat (Z.min 0 (Z.of_nat (length (childNodes pn))))) with 0%nat in Hp by lia.
  exists (set_locations (delete componentId (childComponentLocations w1)) w1).
  split.
  { unfold attachComponentToElement. now rewrite (bind_Ok _ _ _ _ _ Hrun). }
  cbn [nodes childComponentLocations set_locations].
  assert (Hdel : delete componentId (childComponentLocations w1) = childComponentLocations w).
  { rewrite Hloc, delete_insert_eq. now apply delete_id. }
  split; [exact Hdel|]. split; [exact Hp|].
  intros edits editsOffset editsLength referenceFrames.
  unfold updateComponent. rewrite bind_getWorld.
  cbn [childComponentLocations set_locations]. now rewrite Hdel, Hnone.
Qed.

Lemma attach_then_dispose_witness :
  exists w',
    (attachComponentToElement 7 (Some 0%nat) ;; disposeComponent 7) twoTexts = Ok tt w' /\
    childComponentLocations w' = ∅ /\
    updateComponent 7 [] 0 0 [] w' = Throw (UnknownComponent 7) w'.
Proof.
  assert (Hcons : childrenConsistent twoTexts 0%nat
                    (set_childNodes [1; 2]%nat (freshNode ElementNode "DIV" "")))
    by consistent.
  destruct (attach_then_dispose 7 0%nat _ twoTexts Hcons eq_refl)
    as (w' & Hrun & Hloc & _ & Hup).
  exists w'. split; [exact Hrun|]. split; [exact Hloc|]. apply Hup.
Defined.

(** ** Where a component is found *)

Lemma indexOfFrom_NoDup (x : NodeId) (l : list NodeId) (k : nat) (i : Z) :
  NoDup l -> l !! k = Some x -> indexOfFrom x l i = i + Z.of_nat k.
Proof.
  revert k i. induction l as [|y l IH]; intros [|k] i Hnd Hk; try discriminate.
  - cbn in Hk. injection Hk as ->. cbn. rewrite Nat.eqb_refl. lia.
  - cbn in Hk. apply NoDup_cons in Hnd as [Hnotin Hnd]. cbn [indexOfFrom].
    destruct (Nat.eqb_spec y x) as [->|_].
    + exfalso. apply Hnotin. apply list_elem_of_lookup. eauto.
    + rewrite (IH k (i + 1) Hnd Hk). lia.
Qed.

Lemma indexOf_NoDup (x : NodeId) (l : list NodeId) (k : nat) :
  NoDup l -> l !! k = Some x -> indexOf x l = Z.of_nat k.
Proof. intros Hnd Hk. unfold indexOf. now rewrite (indexOfFrom_NoDup _ _ _ _ Hnd Hk). Qed.

Lemma parentElement_Some (id p : NodeId) (n pn : DomNode) (w : World) :
  nodes w !! id = Some n -> parentNode n = Some p ->
  nodes w !! p = Some pn -> isElement pn = true ->
  parentElement id w = Ok (Some p) w.
Proof.
  intros Hn Hpar Hp Hel. unfold parentElement.
  rewrite (bind_Ok _ _ _ _ _ (readNode_Some _ _ _ Hn)). rewrite Hpar.
  rewrite (bind_Ok _ _ _ _ _ (readNode_Some _ _ _ Hp)). now rewrite Hel.
Qed.

Lemma removeChild_known (parent c : NodeId) (pn cn : DomNode) (w : World) :
  nodes w !! c = Some cn -> parentNode cn = Some parent ->
  nodes w !! parent = Some pn -> c <> parent ->
  removeChild parent (Some c) w =
    Ok tt (set_nodes
             (<[c := set_parentNode None cn]>
                (<[parent := set_childNodes (removeId c (childNodes pn)) pn]> (nodes w))) w).
Proof.
  intros Hc Hpar Hp Hne. unfold removeChild.
  rewrite (bind_Ok _ _ _ _ _ (deref_Some _ _ _ Hc)). cbn [fst snd].
  rewrite Hpar. cbn [sameRef]. rewrite Nat.eqb_refl.
  unfold detach.
  rewrite (bind_Ok _ _ _ _ _ (readNode_Some _ _ _ Hc)). rewrite Hpar.
  rewrite (bind_Ok _ _ _ _ _ (updateNode_known _ _ _ _ Hp)).
  rewrite (updateNode_known _ _ _ cn).
  2:{ cbn. rewrite list_lookup_insert_ne by congruence. exact Hc. }
  reflexivity.
Qed.

Lemma locateAnchor_comment (marker p : NodeId) (mn pn : DomNode) (w : World) :
  nodes w !! marker = Some mn -> isComment mn = true -> parentNode mn = Some p ->
  nodes w !! p = Some pn -> isElement pn = true ->
  locateAnchor marker w =
    Ok (p, indexOf marker (childNodes pn), 0, false)
      (set_nodes
         (<[marker := set_parentNode None mn]>
            (<[p := set_childNodes (removeId marker (childNodes pn)) pn]> (nodes w))) w).
Proof.
  intros Hm Hcom Hpar Hp Hel.
  assert (Hne : marker <> p).
  { intros ->. rewrite Hm in Hp. injection Hp as ->.
    unfold isComment, isElement in *. destruct (nodeKind pn); discriminate. }
  unfold locateAnchor.
  rewrite (bind_Ok _ _ _ _ _ (readNode_Some _ _ _ Hm)). rewrite Hcom.
  rewrite (bind_Ok _ _ _ _ _ (parentElement_Some _ _ _ _ _ Hm Hpar Hp Hel)).
  rewrite (bind_Ok _ _ _ _ _ (deref_Some _ _ _ Hp)). cbn [fst snd].
  now rewrite (bind_Ok _ _ _ _ _ (removeChild_known _ _ _ _ _ Hm Hpar Hp Hne)).
Qed.

Lemma locateAnchor_wrapper (marker : NodeId) (mn : DomNode) (w : World) :
  nodes w !! marker = Some mn ->
  tagName mn = Some "BLAZOR-COMPONENT"%string ->
  locateAnchor marker w = Ok (marker, 0, Z.of_nat (length (childNodes mn)), true) w.
Proof.
  intros Hm Htag. unfold locateAnchor.
  rewrite (bind_Ok _ _ _ _ _ (readNode_Some _ _ _ Hm)).
  unfold tagName in Htag. unfold isComment, isElement, tagName.
  destruct (nodeKind mn); try discriminate.
  injection Htag as ->. reflexivity.
Qed.

Lemma locateAnchor_bare (marker p : NodeId) (mn pn : DomNode) (w : World) :
  nodes w !! marker = Some mn -> isComment mn = false ->
  strictEq (tagName mn) "BLAZOR-COMPONENT" = false ->
  parentNode mn = Some p ->
  nodes w !! p = Some pn -> isElement pn = true ->
  locateAnchor marker w = Ok (p, indexOf marker (childNodes pn), 1, false) w.
Proof.
  intros Hm Hcom Htag Hpar Hp Hel. unfold locateAnchor.
  rewrite (bind_Ok _ _ _ _ _ (readNode_Some _ _ _ Hm)). rewrite Hcom, Htag.
  rewrite andb_false_r.
  rewrite (bind_Ok _ _ _ _ _ (parentElement_Some _ _ _ _ _ Hm Hpar Hp Hel)).
  now rewrite (bind_Ok _ _ _ _ _ (deref_Some _ _ _ Hp)).
Qed.

Lemma applyEdits_none (componentId : Z) (parent : NodeRef) (childIndex : Z)
    (edits : list RenderTreeEditPointer) (editsOffset editsLength : Z)
    (frames : list RenderTreeFramePointer) (w : World) :
  editsLength <= 0 ->
  applyEdits componentId parent childIndex edits editsOffset editsLength frames w = Ok 0 w.
Proof.
  intros Hlen. unfold applyEdits.
  replace (Z.to_nat (editsOffset + editsLength - editsOffset)) with 0%nat by lia.
  reflexivity.
Qed.

Lemma set_locations_same (w : World) :
  set_locations (childComponentLocations w) w = w.
Proof. now destruct w. Qed.

Lemma removed_consistent (w : World) (parent c : NodeId) (pn cn : DomNode) (k : nat) :
  childrenConsistent w parent pn ->
  childNodes pn !! k = Some c -> nodes w !! c = Some cn ->
  childrenConsistent
    (set_nodes
       (<[c := set_parentNode None cn]>
          (<[parent := set_childNodes (removeId c (childNodes pn)) pn]> (nodes w))) w)
    parent (set_childNodes (delete k (childNodes pn)) pn).
Proof.
  intros (Hp & Hel & Hnd & Hpar & Hcs) Hk Hc.
  assert (Hin : c ∈ childNodes pn) by (apply list_elem_of_lookup; eauto).
  assert (Hne : c <> parent) by (intros ->; contradiction).
  assert (Hlp : (parent < length (nodes w))%nat) by now apply lookup_lt_Some in Hp.
  rewrite (removeId_delete _ _ _ Hnd Hk).
  assert (Hsub : forall x, x ∈ delete k (childNodes pn) -> x ∈ childNodes pn /\ x <> c).
  { intros x Hx. rewrite delete_take_drop in Hx.
    rewrite <- (take_drop_middle _ _ _ Hk) in Hnd.
    apply NoDup_app in Hnd as (_ & Hdis & Hnd2). apply NoDup_cons in Hnd2 as [Hc2 _].
    rewrite <- (take_drop_middle _ _ _ Hk) at 1.
    apply elem_of_app in Hx as [Hx|Hx].
    - split; [apply elem_of_app; now left|]. intros ->. apply (Hdis c Hx).
      apply elem_of_cons. now left.
    - split; [apply elem_of_app; right; apply elem_of_cons; now right|].
      intros ->. contradiction. }
  split; [|split; [exact Hel|split; [|split]]].
  - cbn. rewrite list_lookup_insert_ne by congruence. now apply list_lookup_insert_eq.
  - cbn [childNodes set_childNodes]. rewrite delete_take_drop.
    rewrite <- (take_drop_middle _ _ _ Hk) in Hnd.
    apply NoDup_app in Hnd as (Hnd1 & Hdis & Hnd2). apply NoDup_cons in Hnd2 as [_ Hnd2].
    apply NoDup_app. split; [exact Hnd1|]. split; [|exact Hnd2].
    intros x Hx Hx'. apply (Hdis x Hx). apply elem_of_cons. now right.
  - cbn [childNodes set_childNodes]. intros Hx. apply Hpar. now apply Hsub.
  - cbn [childNodes set_childNodes]. intros x Hx. destruct (Hsub x Hx) as [Hx' Hxc].
    destruct (Hcs x Hx') as (xn & Hxn & Hxp). exists xn. split; [|exact Hxp].
    assert (x <> parent) by (intros ->; contradiction).
    cbn. now rewrite !list_lookup_insert_ne by congruence.
Qed.

(** X17: An update without edits.  A component that has a wrapper, or a single
    node as its location, is left exactly as it is.  A component that still
    has its marker comment gets an empty [blazor-component] wrapper in the
    place of the marker, which is taken out of the tree, and is bound to
    that wrapper. *)
Theorem updateComponent_without_edits (componentId : Z) (marker : NodeId) (mn : DomNode)
    (edits : list RenderTreeEditPointer) (editsOffset editsLength : Z)
    (referenceFrames : list RenderTreeFramePointer) (w : World) :
  childComponentLocations w !! componentId = Some (Some marker) ->
  nodes w !! marker = Some mn ->
  editsLength <= 0 ->
  (tagName mn = Some "BLAZOR-COMPONENT"%string ->
   updateComponent componentId edits editsOffset editsLength referenceFrames w = Ok tt w) /\
  (forall parent pn,
     isComment mn = false ->
     strictEq (tagName mn) "BLAZOR-COMPONENT" = false ->
     childrenConsistent w parent pn -> marker ∈ childNodes pn ->
     updateComponent componentId edits editsOffset editsLength referenceFrames w = Ok tt w) /\
  (forall parent pn (k : nat),
     isComment mn = true ->
     childrenConsistent w parent pn -> childNodes pn !! k = Some marker ->
     let wrapper := length (nodes w) in
     exists w' pn' wn,
       updateComponent componentId edits editsOffset editsLength referenceFrames w
         = Ok tt w' /\
       childComponentLocations w' =
         <[componentId := Some wrapper]> (childComponentLocations w) /\
       nodes w' !! parent = Some pn' /\
       childNodes pn' = <[k := wrapper]> (childNodes pn) /\
       nodes w' !! wrapper = Some wn /\
       tagName wn = Some "BLAZOR-COMPONENT"%string /\
       parentNode wn = Some parent /\
       childNodes wn = []).
Proof.
  intros Hloc Hm Hlen. split; [|split].
  - intros Htag. unfold updateComponent. rewrite bind_getWorld, Hloc.
    rewrite (bind_Ok _ _ _ _ _ (locateAnchor_wrapper _ _ _ Hm Htag)).
    now rewrite (bind_Ok _ _ _ _ _ (applyEdits_none _ _ _ _ _ _ _ _ Hlen)).
  - intros parent pn Hcom Htag Hcons Hin.
    pose proof Hcons as (Hp & Hel & Hnd & Hpar & Hcs).
    destruct (Hcs marker Hin) as (mn' & Hm' & Hmp).
    rewrite Hm in Hm'. injection Hm' as <-.
    apply list_elem_of_lookup in Hin as [k Hk].
    unfold updateComponent. rewrite bind_getWorld, Hloc.
    rewrite (bind_Ok _ _ _ _ _ (locateAnchor_bare _ _ _ _ _ Hm Hcom Htag Hmp Hp Hel)).
    rewrite (bind_Ok _ _ _ _ _ (applyEdits_none _ _ _ _ _ _ _ _ Hlen)).
    change (negb false) with true. change (1 + 0 =? 1) with true. cbv iota.
    unfold childAt. rewrite bind_assoc. rewrite (bind_Ok _ _ _ _ _ (deref_Some _ _ _ Hp)).
    cbn [fst snd]. rewrite bind_ret_l.
    rewrite (indexOf_NoDup _ _ _ Hnd Hk), nthZ_of_nat, Hk.
    unfold bindLocation, modifyWorld. f_equal.
    rewrite (insert_id _ _ _ Hloc). apply set_locations_same.
  - intros parent pn k Hcom Hcons Hk wrapper.
    pose proof Hcons as (Hp & Hel & Hnd & Hpar & Hcs).
    assert (Hin : marker ∈ childNodes pn) by (apply list_elem_of_lookup; eauto).
    destruct (Hcs marker Hin) as (mn' & Hm' & Hmp).
    rewrite Hm in Hm'. injection Hm' as <-.
    pose proof (removed_consistent _ _ _ _ _ _ Hcons Hk Hm) as Hcons0.
    set (w0 := set_nodes
                 (<[marker := set_parentNode None mn]>
                    (<[parent := set_childNodes (removeId marker (childNodes pn)) pn]>
                       (nodes w))) w) in *.
    assert (Hklt : (k < length (childNodes pn))%nat) by now apply lookup_lt_Some in Hk.
    assert (Hk0 : (k <= length (childNodes (set_childNodes (delete k (childNodes pn)) pn)))%nat).
    { cbn [childNodes set_childNodes]. rewrite length_delete by eauto. lia. }
    destruct (wrapper_inserted w0 parent _ k Hcons0 Hk0)
      as (wb & Hins & Hwrap & _ & Hlocb & _).
    assert (Hlen0 : length (nodes w0) = length (nodes w)).
    { subst w0. cbn. now rewrite !length_insert. }
    rewrite Hlen0 in Hins, Hwrap. fold wrapper in Hins, Hwrap.
    destruct Hwrap as (Hpb & (wn & Hwn & Hwel & Hwname & Hwpar & Hwch) & _).
    exists (set_locations (<[componentId := Some wrapper]> (childComponentLocations wb)) wb).
    eexists. exists wn. split.
    { unfold updateComponent. rewrite bind_getWorld, Hloc.
      rewrite (bind_Ok _ _ _ _ _ (locateAnchor_comment _ _ _ _ _ Hm Hcom Hmp Hp Hel)).
      fold w0.
      rewrite (bind_Ok _ _ _ _ _ (applyEdits_none _ _ _ _ _ _ _ _ Hlen)).
      change (negb false) with true. change (0 + 0 =? 1) with false. cbv iota.
      unfold createElement, allocNode. unfold bind at 1.
      rewrite Hlen0. fold wrapper.
      rewrite (indexOf_NoDup _ _ _ Hnd Hk).
      change (toUpperCase "blazor-component") with "BLAZOR-COMPONENT"%string.
      rewrite (bind_Ok _ _ _ _ _ Hins).
      change (Z.to_nat (0 + 0)) with 0%nat. cbn [moveIntoWrapper].
      rewrite bind_ret_l. reflexivity. }
    cbn [nodes childComponentLocations set_locations].
    split; [now rewrite Hlocb|]. split; [exact Hpb|]. split.
    { cbn [childNodes set_childNodes]. rewrite Nat.add_0_r.
      rewrite delete_take_drop.
      rewrite take_app_le by (rewrite length_take; lia).
      rewrite take_take, Nat.min_id.
      rewrite drop_app_ge by (rewrite length_take; lia).
      rewrite length_take, Nat.min_l by lia. rewrite Nat.sub_diag. cbn [drop].
      symmetry. apply insert_take_drop. exact Hklt. }
    split; [exact Hwn|]. split.
    { unfold tagName. unfold isElement in Hwel. destruct (nodeKind wn); try discriminate.
      now rewrite Hwname. }
    split; [exact Hwpar|]. rewrite Hwch. reflexivity.
Qed.

Lemma updateComponent_without_edits_witness :
  updateComponent 7 [] 0 0 [] barePage = Ok tt barePage /\
  exists w' pn',
    updateComponent 7 [] 0 0 [] markedPage = Ok tt w' /\
    childComponentLocations w' !! 7 = Some (Some 2%nat) /\
    nodes w' !! 0%nat = Some pn' /\
    childNodes pn' = [2%nat].
Proof.
  split.
  - apply (proj1 (proj2 (updateComponent_without_edits 7 1%nat
                           (set_parentNode (Some 0%nat) (freshNode TextNode "" "x"))
                           [] 0 0 [] barePage eq_refl eq_refl (Z.le_refl 0)))
             0%nat (set_childNodes [1%nat] (freshNode ElementNode "DIV" ""))).
    + reflexivity.
    + reflexivity.
    + consistent.
    + apply list_elem_of_singleton. reflexivity.
  - destruct (proj2 (proj2 (updateComponent_without_edits 7 1%nat
                              (set_parentNode (Some 0%nat)
                                 (freshNode CommentNode "" "blazor-component"))
                              [] 0 0 [] markedPage eq_refl eq_refl (Z.le_refl 0)))
                0%nat (set_childNodes [1%nat] (freshNode ElementNode "DIV" "")) 0%nat
                eq_refl ltac:(consistent) eq_refl)
      as (w' & pn' & wn & Hrun & Hloc & Hp & Hch & _).
    exists w', pn'. split; [exact Hrun|]. split; [|split; [exact Hp|exact Hch]].
    rewrite Hloc. apply lookup_insert_eq.
Defined.

(** ** A first update that fails *)

(** X18: No rollback in [updateComponent] either.  The first update of a
    component takes its marker comment out of the tree before it walks the
    edits.  When the walk then throws before it has changed anything (the
    first edit is of an unknown type, say), [updateComponent] throws the same
    failure and leaves the marker out of the tree while the registry still
    names it as the location; from then on every update of the component
    throws a [TypeError], whatever its edits are. *)
Theorem failed_first_update (componentId : Z) (marker parent : NodeId) (mn pn : DomNode)
    (edits : list RenderTreeEditPointer) (editsOffset editsLength : Z)
    (referenceFrames : list RenderTreeFramePointer) (w : World) (e : Error) :
  childComponentLocations w !! componentId = Some (Some marker) ->
  nodes w !! marker = Some mn -> isComment mn = true -> parentNode mn = Some parent ->
  nodes w !! parent = Some pn -> isElement pn = true ->
  let w0 :=
    set_nodes
      (<[marker := set_parentNode None mn]>
         (<[parent := set_childNodes (removeId marker (childNodes pn)) pn]> (nodes w))) w in
  applyEdits componentId (Some parent) (indexOf marker (childNodes pn))
    edits editsOffset editsLength referenceFrames w0 = Throw e w0 ->
  updateComponent componentId edits editsOffset editsLength referenceFrames w
    = Throw e w0 /\
  childComponentLocations w0 !! componentId = Some (Some marker) /\
  forall edits' editsOffset' editsLength' referenceFrames',
    updateComponent componentId edits' editsOffset' editsLength' referenceFrames' w0
      = Throw TypeError w0.
Proof.
  intros Hloc Hm Hcom Hpar Hp Hel w0 Hwalk.
  assert (Hlm : (marker < length (nodes w))%nat) by now apply lookup_lt_Some in Hm.
  split; [|split; [exact Hloc|]].
  - unfold updateComponent. rewrite bind_getWorld, Hloc.
    rewrite (bind_Ok _ _ _ _ _ (locateAnchor_comment _ _ _ _ _ Hm Hcom Hpar Hp Hel)).
    fold w0. now rewrite (bind_Throw _ _ _ _ _ Hwalk).
  - intros edits' editsOffset' editsLength' referenceFrames'.
    assert (Hm0 : nodes w0 !! marker = Some (set_parentNode None mn)).
    { subst w0. cbn. apply list_lookup_insert_eq. now rewrite length_insert. }
    unfold updateComponent. rewrite bind_getWorld.
    change (childComponentLocations w0) with (childComponentLocations w). rewrite Hloc.
    assert (Hanchor : locateAnchor marker w0 = Throw TypeError w0).
    { unfold locateAnchor.
      rewrite (bind_Ok _ _ _ _ _ (readNode_Some _ _ _ Hm0)).
      change (isComment (set_parentNode None mn)) with (isComment mn). rewrite Hcom.
      unfold parentElement.
      rewrite bind_assoc. rewrite (bind_Ok _ _ _ _ _ (readNode_Some _ _ _ Hm0)).
      cbn [parentNode set_parentNode]. rewrite bind_ret_l. reflexivity. }
    now rewrite (bind_Throw _ _ _ _ _ Hanchor).
Qed.

Lemma failed_first_update_witness :
  updateComponent 7 [unknownEdit 9] 0 1 [] markedPage
    = Throw (UnknownEditType 9) unmarkedPage /\
  updateComponent 7 [] 0 0 [] unmarkedPage = Throw TypeError unmarkedPage.
Proof.
  destruct (failed_first_update 7 1%nat 0%nat
              (set_parentNode (Some 0%nat) (freshNode CommentNode "" "blazor-component"))
              (set_childNodes [1%nat] (freshNode ElementNode "DIV" ""))
              [unknownEdit 9] 0 1 [] markedPage (UnknownEditType 9)
              eq_refl eq_refl eq_refl eq_refl eq_refl eq_refl eq_refl)
    as (Hfirst & _ & Hlater).
  split; [exact Hfirst|exact (Hlater [] 0 0 [])].
Defined.

(** ** Text edits *)

Lemma consistent_alloc (w : World) (parent : NodeId) (pn x : DomNode) :
  childrenConsistent w parent pn ->
  childrenConsistent (set_nodes (nodes w ++ [x]) w) parent pn.
Proof.
  intros (Hp & Hel & Hnd & Hpar & Hcs).
  split; [|split; [exact Hel|split; [exact Hnd|split; [exact Hpar|]]]].
  - cbn. rewrite lookup_app_l; [exact Hp|]. now apply lookup_lt_Some in Hp.
  - intros c Hc. destruct (Hcs c Hc) as (cn & Hcn & Hcp). exists cn. split; [|exact Hcp].
    cbn. rewrite lookup_app_l; [exact Hcn|]. now apply lookup_lt_Some in Hcn.
Qed.

Lemma insertText_exact (parent : NodeId) (pn : DomNode) (childIndex : Z)
    (frame : RenderTreeFramePointer) (w : World) :
  childrenConsistent w parent pn -> 0 <= childIndex ->
  let fresh := freshNode TextNode "" (jsToString (renderTreeFrame.textContent frame)) in
  insertText (Some parent) childIndex frame w =
    Ok tt (linkChild (Z.to_nat (Z.min childIndex (Z.of_nat (length (childNodes pn)))))
             (length (nodes w)) parent pn fresh (set_nodes (nodes w ++ [fresh]) w)).
Proof.
  intros Hcons Hi fresh.
  pose proof (consistent_alloc _ _ _ fresh Hcons) as (Hp & Hel & Hnd & Hpar & Hcs).
  unfold insertText, createTextNode, allocNode. unfold bind at 1. fold fresh.
  apply insertNodeIntoDOM_detached; try assumption.
  - cbn. now rewrite list_lookup_middle.
  - reflexivity.
  - destruct Hcons as (Hp0 & _). apply lookup_lt_Some in Hp0. lia.
Qed.

(** A [prependFrame] edit for a text frame: the text is inserted, and
    counted when the cursor is at depth 0. *)
Lemma applyEdit_prependText (componentId childIndex : Z)
    (frames : list RenderTreeFramePointer) (edit : RenderTreeEditPointer)
    (frame : RenderTreeFramePointer) (c : Cursor) (w : World) :
  renderTreeEdit.type edit = EditType.prependFrame ->
  nthZ frames (renderTreeEdit.newTreeIndex edit) = Some frame ->
  renderTreeFrame.frameType frame = FrameType.text ->
  applyEdit componentId childIndex frames edit c w =
  (insertText (cur_parent c)
     (childIndexAtCurrentDepth c + renderTreeEdit.siblingIndex edit) frame ;;
   ret (if currentDepth c =? 0
        then mkCursor (cur_parent c) (currentDepth c) (childIndexAtCurrentDepth c)
               (topLevelNodeCountChange c + 1)
        else c)) w.
Proof.
  intros Hty Hframe Htext. unfold applyEdit. rewrite Hty.
  rewrite (bind_Ok _ _ _ _ _ (getTreeFramePtr_Some _ _ _ _ Hframe)).
  unfold bind at 1. rewrite (insertFrame_text _ _ _ _ _ _ _ Htext).
  unfold bind. destruct (insertText _ _ _ w); reflexivity.
Qed.

Lemma applyEdit_removeFrame (componentId childIndex : Z)
    (frames : list RenderTreeFramePointer) (edit : RenderTreeEditPointer)
    (c : Cursor) (w : World) :
  renderTreeEdit.type edit = EditType.removeFrame ->
  applyEdit componentId childIndex frames edit c w =
  (removeNodeFromDOM (cur_parent c)
     (childIndexAtCurrentDepth c + renderTreeEdit.siblingIndex edit) ;;
   ret (if currentDepth c =? 0
        then mkCursor (cur_parent c) (currentDepth c) (childIndexAtCurrentDepth c)
               (topLevelNodeCountChange c - 1)
        else c)) w.
Proof. intros Hty. unfold applyEdit. now rewrite Hty. Qed.

Lemma applyEdit_updateText (componentId childIndex : Z)
    (frames : list RenderTreeFramePointer) (edit : RenderTreeEditPointer)
    (frame : RenderTreeFramePointer) (c : Cursor) (w : World)
    (p t : NodeId) (pn tn : DomNode) :
  renderTreeEdit.type edit = EditType.updateText ->
  nthZ frames (renderTreeEdit.newTreeIndex edit) = Some frame ->
  cur_parent c = Some p -> nodes w !! p = Some pn ->
  nthZ (childNodes pn) (childIndexAtCurrentDepth c + renderTreeEdit.siblingIndex edit)
    = Some t ->
  nodes w !! t = Some tn -> isElement tn = false ->
  applyEdit componentId childIndex frames edit c w =
    Ok c (set_nodes
            (<[t := set_nodeData
                      (match renderTreeFrame.textContent frame with
                       | Some s => s
                       | None => ""%string
                       end) tn]> (nodes w)) w).
Proof.
  intros Hty Hframe Hcur Hp Hchild Ht Hnel. unfold applyEdit. rewrite Hty, Hcur.
  rewrite (bind_Ok _ _ _ _ _ (getTreeFramePtr_Some _ _ _ _ Hframe)).
  unfold childAt. rewrite bind_assoc.
  rewrite (bind_Ok _ _ _ _ _ (deref_Some _ _ _ Hp)). cbn [fst snd].
  rewrite bind_ret_l. rewrite Hchild. unfold setTextContent.
  rewrite bind_assoc. rewrite (bind_Ok _ _ _ _ _ (deref_Some _ _ _ Ht)). cbn [fst snd].
  unfold isElement in Hnel.
  destruct (nodeKind tn); try discriminate;
    now rewrite (bind_Ok _ _ _ _ _ (updateNode_known _ _ _ _ Ht)).
Qed.

(** X19: Round trip: a [prependFrame] edit for a text frame followed by a
    [removeFrame] edit for the same sibling leaves the tree and the cursor
    (count included) as they were.  The text node that was created stays
    in the store, in no child list. *)
Theorem prependFrame_then_removeFrame (componentId childIndex : Z)
    (frames : list RenderTreeFramePointer) (frame : RenderTreeFramePointer)
    (prepend remove : RenderTreeEditPointer) (c : Cursor) (w : World)
    (p : NodeId) (pn : DomNode) :
  renderTreeEdit.type prepend = EditType.prependFrame ->
  renderTreeEdit.type remove = EditType.removeFrame ->
  renderTreeEdit.siblingIndex remove = renderTreeEdit.siblingIndex prepend ->
  nthZ frames (renderTreeEdit.newTreeIndex prepend) = Some frame ->
  renderTreeFrame.frameType frame = FrameType.text ->
  cur_parent c = Some p ->
  childrenConsistent w p pn ->
  0 <= childIndexAtCurrentDepth c + renderTreeEdit.siblingIndex prepend
    <= Z.of_nat (length (childNodes pn)) ->
  applyEditList componentId childIndex frames [prepend; remove] c w =
    Ok c (set_nodes
            (nodes w ++
             [freshNode TextNode "" (jsToString (renderTreeFrame.textContent frame))]) w).
Proof.
  intros Hpre Hrem Hsib Hframe Htext Hcur Hcons Hidx.
  set (i := childIndexAtCurrentDepth c + renderTreeEdit.siblingIndex prepend) in *.
  set (fresh := freshNode TextNode "" (jsToString (renderTreeFrame.textContent frame))).
  set (wa := set_nodes (nodes w ++ [fresh]) w).
  set (c1 := if currentDepth c =? 0
             then mkCursor (Some p) (currentDepth c) (childIndexAtCurrentDepth c)
                    (topLevelNodeCountChange c + 1)
             else c).
  assert (Hs1 : applyEdit componentId childIndex frames prepend c w =
                Ok c1 (linkChild (Z.to_nat i) (length (nodes w)) p pn fresh wa)).
  { rewrite (applyEdit_prependText _ _ _ _ _ _ _ Hpre Hframe Htext).
    rewrite Hcur. fold i.
    rewrite (bind_Ok _ _ _ _ _ (insertText_exact _ _ _ frame _ Hcons (proj1 Hidx))).
    fold fresh. fold wa.
    now replace (Z.to_nat (Z.min i (Z.of_nat (length (childNodes pn))))) with (Z.to_nat i)
      by lia. }
  assert (Hremove :
    removeNodeFromDOM (Some p) i (linkChild (Z.to_nat i) (length (nodes w)) p pn fresh wa)
      = Ok tt wa).
  { replace i with (Z.of_nat (Z.to_nat i)) at 1 by lia.
    apply removeNodeFromDOM_linkChild.
    - now apply consistent_alloc.
    - subst wa. cbn. now rewrite list_lookup_middle.
    - reflexivity.
    - destruct Hcons as (Hp0 & _). apply lookup_lt_Some in Hp0. lia.
    - lia. }
  assert (Hc1 : cur_parent c1 = Some p /\
                childIndexAtCurrentDepth c1 = childIndexAtCurrentDepth c /\
                currentDepth c1 = currentDepth c).
  { subst c1. destruct (currentDepth c =? 0); now repeat split. }
  destruct Hc1 as (Hcur1 & Hci1 & Hd1).
  assert (Hs2 : applyEdit componentId childIndex frames remove c1
                  (linkChild (Z.to_nat i) (length (nodes w)) p pn fresh wa) = Ok c wa).
  { rewrite (applyEdit_removeFrame _ _ _ _ _ _ Hrem).
    rewrite Hcur1, Hci1, Hd1, Hsib. fold i.
    rewrite (bind_Ok _ _ _ _ _ Hremove). cbn [ret]. f_equal.
    subst c1. destruct (currentDepth c =? 0); [|reflexivity].
    destruct c as [cp cd ci cn]. cbn in *. subst cp. f_equal. lia. }
  cbn [applyEditList].
  rewrite (bind_Ok _ _ _ _ _ Hs1). now rewrite (bind_Ok _ _ _ _ _ Hs2).
Qed.

Lemma prependFrame_then_removeFrame_witness :
  applyEditList 1 0 [textFrame "c"] [prependFrameEdit 1 0; removeFrameEdit 1]
    (mkCursor (Some 0%nat) 0 0 0) regionResult =
  Ok (mkCursor (Some 0%nat) 0 0 0)
    (set_nodes (nodes regionResult ++ [freshNode TextNode "" "c"]) regionResult).
Proof.
  apply (prependFrame_then_removeFrame 1 0 [textFrame "c"] (textFrame "c")
           (prependFrameEdit 1 0) (removeFrameEdit 1) (mkCursor (Some 0%nat) 0 0 0)
           regionResult 0%nat (set_childNodes [1; 2]%nat (freshNode ElementNode "DIV" "")));
    try reflexivity.
  - consistent.
  - cbn. lia.
Defined.

(** X20: An [updateText] edit changes the data of the text (or comment) node it
    addresses to the text content of the frame, an absent content giving
    the empty text, and nothing else: the cursor and its count stay as they
    are.  It composes with insertion: a [prependFrame] edit for a text
    frame followed by an [updateText] edit for the same sibling leaves
    exactly what a [prependFrame] edit for the second frame alone leaves. *)
Theorem updateText_edit (componentId childIndex : Z)
    (frames : list RenderTreeFramePointer) (c : Cursor) (w : World)
    (p : NodeId) (pn : DomNode) :
  cur_parent c = Some p ->
  (forall edit frame t tn,
     renderTreeEdit.type edit = EditType.updateText ->
     nthZ frames (renderTreeEdit.newTreeIndex edit) = Some frame ->
     nodes w !! p = Some pn ->
     nthZ (childNodes pn) (childIndexAtCurrentDepth c + renderTreeEdit.siblingIndex edit)
       = Some t ->
     nodes w !! t = Some tn -> isElement tn = false ->
     applyEdit componentId childIndex frames edit c w =
       Ok c (set_nodes
               (<[t := set_nodeData
                         (match renderTreeFrame.textContent frame with
                          | Some s => s
                          | None => ""%string
                          end) tn]> (nodes w)) w)) /\
  (forall prepend update prepend' frame frame' s,
     renderTreeEdit.type prepend = EditType.prependFrame ->
     renderTreeEdit.type update = EditType.updateText ->
     renderTreeEdit.type prepend' = EditType.prependFrame ->
     renderTreeEdit.siblingIndex update = renderTreeEdit.siblingIndex prepend ->
     renderTreeEdit.siblingIndex prepend' = renderTreeEdit.siblingIndex prepend ->
     renderTreeEdit.newTreeIndex prepend' = renderTreeEdit.newTreeIndex update ->
     nthZ frames (renderTreeEdit.newTreeIndex prepend) = Some frame ->
     nthZ frames (renderTreeEdit.newTreeIndex update) = Some frame' ->
     renderTreeFrame.frameType frame = FrameType.text ->
     renderTreeFrame.frameType frame' = FrameType.text ->
     renderTreeFrame.textContent frame' = Some s ->
     childrenConsistent w p pn ->
     0 <= childIndexAtCurrentDepth c + renderTreeEdit.siblingIndex prepend
       <= Z.of_nat (length (childNodes pn)) ->
     applyEditList componentId childIndex frames [prepend; update] c w =
     applyEditList componentId childIndex frames [prepend'] c w).
Proof.
  intros Hcur. split.
  { intros edit frame t tn Hty Hframe Hp Hchild Ht Hnel.
    now apply (applyEdit_updateText _ _ _ _ _ _ _ p t pn tn). }
  intros prepend update prepend' frame frame' s Hpre Hupd Hpre' Hsib Hsib' Hidx'
    Hframe Hframe' Htext Htext' Hs Hcons Hidx.
  set (i := childIndexAtCurrentDepth c + renderTreeEdit.siblingIndex prepend) in *.
  set (k := Z.to_nat (Z.min i (Z.of_nat (length (childNodes pn))))).
  set (id := length (nodes w)).
  set (fresh := freshNode TextNode "" (jsToString (renderTreeFrame.textContent frame))).
  set (fresh' := freshNode TextNode "" (jsToString (renderTreeFrame.textContent frame'))).
  set (c1 := if currentDepth c =? 0
             then mkCursor (Some p) (currentDepth c) (childIndexAtCurrentDepth c)
                    (topLevelNodeCountChange c + 1)
             else c).
  pose proof Hcons as (Hp & Hel & Hnd & Hpar & Hcs).
  assert (Hlp : (p < id)%nat) by now apply lookup_lt_Some in Hp.
  assert (Hs1 : forall e f fr,
    renderTreeEdit.type e = EditType.prependFrame ->
    renderTreeEdit.siblingIndex e = renderTreeEdit.siblingIndex prepend ->
    nthZ frames (renderTreeEdit.newTreeIndex e) = Some f ->
    renderTreeFrame.frameType f = FrameType.text ->
    fr = freshNode TextNode "" (jsToString (renderTreeFrame.textContent f)) ->
    applyEdit componentId childIndex frames e c w =
      Ok c1 (linkChild k id p pn fr (set_nodes (nodes w ++ [fr]) w))).
  { intros e f fr He Hse Hf Hft ->.
    rewrite (applyEdit_prependText _ _ _ _ _ _ _ He Hf Hft).
    rewrite Hcur, Hse. fold i.
    now rewrite (bind_Ok _ _ _ _ _ (insertText_exact _ _ _ f _ Hcons (proj1 Hidx))). }
  cbn [applyEditList].
  rewrite (bind_Ok _ _ _ _ _ (Hs1 prepend frame fresh Hpre eq_refl Hframe Htext eq_refl)).
  rewrite (bind_Ok _ _ _ _ _ (Hs1 prepend' frame' fresh' Hpre' Hsib'
                                 (eq_trans (f_equal _ Hidx') Hframe') Htext' eq_refl)).
  set (w1 := linkChild k id p pn fresh (set_nodes (nodes w ++ [fresh]) w)).
  assert (Hc1 : cur_parent c1 = Some p /\
                childIndexAtCurrentDepth c1 = childIndexAtCurrentDepth c).
  { subst c1. destruct (currentDepth c =? 0); now split. }
  destruct Hc1 as (Hcur1 & Hci1).
  assert (Hk : (k <= length (childNodes pn))%nat) by lia.
  assert (Hla : forall y : DomNode, length (nodes w ++ [y]) = S id).
  { intros y. rewrite length_app. cbn. subst id. lia. }
  assert (Hp1 : nodes w1 !! p =
                Some (set_childNodes
                        (take k (childNodes pn) ++ id :: drop k (childNodes pn)) pn)).
  { subst w1. unfold linkChild. cbn.
    rewrite list_lookup_insert_ne by lia. apply list_lookup_insert_eq.
    rewrite Hla. lia. }
  assert (Hch1 : nthZ (take k (childNodes pn) ++ id :: drop k (childNodes pn))
                   (childIndexAtCurrentDepth c1 + renderTreeEdit.siblingIndex update)
                 = Some id).
  { rewrite Hci1, Hsib. fold i. apply nthZ_Some. split; [lia|].
    replace (Z.to_nat i) with (length (take k (childNodes pn)) + 0)%nat
      by (rewrite length_take; lia).
    now rewrite lookup_app_r, Nat.add_comm, Nat.add_sub by lia. }
  assert (Hid1 : nodes w1 !! id = Some (set_parentNode (Some p) fresh)).
  { subst w1. unfold linkChild. cbn. apply list_lookup_insert_eq.
    rewrite length_insert, Hla. lia. }
  rewrite (bind_Ok _ _ _ _ _
             (applyEdit_updateText _ _ _ _ _ _ _ _ _ _ _
                Hupd Hframe' Hcur1 Hp1 Hch1 Hid1 eq_refl)).
  cbn [ret]. f_equal. subst w1 fresh'. rewrite Hs.
  unfold linkChild, set_nodes. cbn. f_equal.
  apply list_eq. intros x.
  destruct (decide (x = id)) as [->|Hxi].
  - rewrite !list_lookup_insert_eq by (rewrite ?length_insert, Hla; lia).
    reflexivity.
  - rewrite !(list_lookup_insert_ne _ id x) by congruence.
    destruct (decide (x = p)) as [->|Hxp].
    + rewrite !list_lookup_insert_eq by (rewrite Hla; lia). reflexivity.
    + rewrite !list_lookup_insert_ne by congruence.
      destruct (decide (x < id)%nat) as [Hlt|Hge].
      * now rewrite !lookup_app_l by (subst id; lia).
      * rewrite !lookup_ge_None_2; [reflexivity| |]; rewrite Hla; lia.
Qed.

Lemma updateText_edit_witness :
  applyEditList 1 0 [textFrame "c"; textFrame "d"]
    [prependFrameEdit 1 0; updateTextEdit 1 1]
    (mkCursor (Some 0%nat) 0 0 0) regionResult =
  applyEditList 1 0 [textFrame "c"; textFrame "d"] [prependFrameEdit 1 1]
    (mkCursor (Some 0%nat) 0 0 0) regionResult.
Proof.
  apply (proj2 (updateText_edit 1 0 [textFrame "c"; textFrame "d"]
                  (mkCursor (Some 0%nat) 0 0 0) regionResult 0%nat
                  (set_childNodes [1; 2]%nat (freshNode ElementNode "DIV" "")) eq_refl)
           (prependFrameEdit 1 0) (updateTextEdit 1 1) (prependFrameEdit 1 1)
           (textFrame "c") (textFrame "d") "d"%string);
    try reflexivity.
  - consistent.
  - cbn. lia.
Defined.

(** ** What the count of the walk counts *)

Lemma applyEdit_prependFrame (componentId childIndex : Z)
    (frames : list RenderTreeFramePointer) (edit : RenderTreeEditPointer)
    (c c' : Cursor) (w w' : World) :
  renderTreeEdit.type edit = EditType.prependFrame ->
  applyEdit componentId childIndex frames edit c w = Ok c' w' ->
  exists frame k,
    insertFrame componentId (cur_parent c)
      (childIndexAtCurrentDepth c + renderTreeEdit.siblingIndex edit)
      frames frame (renderTreeEdit.newTreeIndex edit) w = Ok k w' /\
    c' = (if currentDepth c =? 0
          then mkCursor (cur_parent c) (currentDepth c) (childIndexAtCurrentDepth c)
                 (topLevelNodeCountChange c + k)
          else c).
Proof.
  intros Hty Hrun. unfold applyEdit in Hrun. rewrite Hty in Hrun.
  inv_bind Hrun. apply getTreeFramePtr_inv in E as (-> & _).
  apply ret_inv_Ok in Hrun as [<- <-]. eauto.
Qed.

Lemma top_level_walk (componentId childIndex : Z) (parent : NodeId)
    (frames : list RenderTreeFramePointer) (es : list RenderTreeEditPointer) :
  0 <= childIndex ->
  Forall (fun e =>
    (renderTreeEdit.type e = EditType.prependFrame \/
     renderTreeEdit.type e = EditType.removeFrame) /\
    0 <= childIndex + renderTreeEdit.siblingIndex e) es ->
  forall (count : Z) (w : World) (pn : DomNode) (c' : Cursor) (w' : World),
  childrenConsistent w parent pn ->
  applyEditList componentId childIndex frames es
    (mkCursor (Some parent) 0 childIndex count) w = Ok c' w' ->
  c' = mkCursor (Some parent) 0 childIndex (topLevelNodeCountChange c') /\
  (exists cs',
     childrenConsistent w' parent (set_childNodes cs' pn) /\
     Z.of_nat (length cs') - topLevelNodeCountChange c'
       = Z.of_nat (length (childNodes pn)) - count) /\
  (forall x xn,
     nodes w !! x = Some xn -> x <> parent -> parentNode xn <> Some parent ->
     nodes w' !! x = Some xn).
Proof.
  intros Hci Hes. induction Hes as [|e es [Hty Hidx] _ IH];
    intros count w pn c' w' Hcons Hrun.
  { apply ret_inv_Ok in Hrun as [<- <-]. split; [reflexivity|]. split; [|auto].
    exists (childNodes pn). split; [|reflexivity].
    now replace (set_childNodes (childNodes pn) pn) with pn by now destruct pn. }
  cbn [applyEditList] in Hrun. inv_bind Hrun. destruct Hty as [Hty|Hty].
  - destruct (applyEdit_prependFrame _ _ _ _ _ _ _ _ Hty E) as (frame & k & Hins & ->).
    cbn [cur_parent currentDepth childIndexAtCurrentDepth topLevelNodeCountChange] in *.
    change (0 =? 0) with true in Hrun. cbv iota in Hrun.
    destruct (places_materialize frames (frameFuel frames)) as (HF & _).
    pose proof (HF _ _ _ _ _ _ _ _ _ Hcons Hidx Hins)
      as (_ & Hother & created & Hk & _ & Hcons1).
    destruct (IH _ _ _ _ _ Hcons1 Hrun) as (Hc' & (cs' & Hcons' & Hlen) & Hframe).
    split; [exact Hc'|]. split.
    + exists cs'. split; [exact Hcons'|].
      cbn [childNodes set_childNodes] in Hlen.
      rewrite !length_app, length_take, length_drop in Hlen. lia.
    + intros x xn Hx Hxp Hxpar. apply Hframe; [|exact Hxp|exact Hxpar].
      rewrite Hother; [exact Hx| |exact Hxp]. now apply lookup_lt_Some in Hx.
  - rewrite (applyEdit_removeFrame _ _ _ _ _ _ Hty) in E.
    cbn [cur_parent currentDepth childIndexAtCurrentDepth topLevelNodeCountChange] in E.
    inv_bind E. apply ret_inv_Ok in E as [<- <-].
    change (0 =? 0) with true in Hrun. cbv iota in Hrun.
    pose proof Hcons as (Hp & _ & Hnd & _ & Hcs).
    destruct (nthZ (childNodes pn) (childIndex + renderTreeEdit.siblingIndex e))
      as [child|] eqn:Hnth.
    2:{ rewrite (removeNodeFromDOM_outside _ _ _ _ Hp Hnth) in E0. discriminate. }
    assert (Hin : child ∈ childNodes pn).
    { apply nthZ_Some in Hnth as [_ Hk]. apply list_elem_of_lookup. eauto. }
    destruct (Hcs child Hin) as (cn & Hcn & Hcp).
    rewrite (removeNodeFromDOM_at _ _ _ _ _ _ Hcons Hnth Hcn) in E0.
    injection E0 as Hw1. subst w1. apply nthZ_Some in Hnth as [_ Hk].
    pose proof (removed_consistent _ _ _ _ _ _ Hcons Hk Hcn) as Hcons1.
    rewrite (removeId_delete _ _ _ Hnd Hk) in Hcons1.
    destruct (IH _ _ _ _ _ Hcons1 Hrun) as (Hc' & (cs' & Hcons' & Hlen) & Hframe).
    split; [exact Hc'|]. split.
    + exists cs'. split; [exact Hcons'|].
      cbn [childNodes set_childNodes] in Hlen.
      rewrite length_delete in Hlen by eauto.
      apply lookup_lt_Some in Hk. lia.
    + intros x xn Hx Hxp Hxpar. apply Hframe; [|exact Hxp|exact Hxpar].
      assert (x <> child) by (intros ->; congruence).
      cbn [nodes set_nodes]. now rewrite !list_lookup_insert_ne by congruence.
Qed.

(** X21: The count the walk returns is the change in the number of children:
    after a walk of [prependFrame] and [removeFrame] edits at the top level
    under an element whose child list is in order, the element has as many
    children more (or fewer) than before as the walk returns, and its child
    list is in order again.  Nothing else of the element has changed, and
    apart from the element and the children the walk has taken from it, no
    node that was there before has changed. *)
Theorem applyEdits_counts_children (componentId : Z) (parent : NodeId) (childIndex : Z)
    (edits : list RenderTreeEditPointer) (frames : list RenderTreeFramePointer)
    (w w' : World) (pn : DomNode) (delta : Z) :
  childrenConsistent w parent pn ->
  0 <= childIndex ->
  Forall (fun e =>
    (renderTreeEdit.type e = EditType.prependFrame \/
     renderTreeEdit.type e = EditType.removeFrame) /\
    0 <= childIndex + renderTreeEdit.siblingIndex e) edits ->
  applyEdits componentId (Some parent) childIndex edits 0 (Z.of_nat (length edits))
    frames w = Ok delta w' ->
  (exists cs',
     childrenConsistent w' parent (set_childNodes cs' pn) /\
     Z.of_nat (length cs') = Z.of_nat (length (childNodes pn)) + delta) /\
  (forall x xn,
     nodes w !! x = Some xn -> x <> parent -> parentNode xn <> Some parent ->
     nodes w' !! x = Some xn).
Proof.
  intros Hcons Hci Hes Hrun. rewrite applyEdits_whole in Hrun.
  inv_bind Hrun. apply ret_inv_Ok in Hrun as [<- <-].
  destruct (top_level_walk _ _ _ _ _ Hci Hes _ _ _ _ _ Hcons E)
    as (_ & (cs' & Hcons' & Hlen) & Hframe).
  split; [|exact Hframe]. exists cs'. split; [exact Hcons'|]. lia.
Qed.

Lemma applyEdits_counts_children_witness :
  exists cs',
    childrenConsistent barePageWalked 0%nat
      (set_childNodes cs' (set_childNodes [1%nat] (freshNode ElementNode "DIV" ""))) /\
    Z.of_nat (length cs') = 1 + 2.
Proof.
  assert (Hcons : childrenConsistent barePage 0%nat
                    (set_childNodes [1%nat] (freshNode ElementNode "DIV" "")))
    by consistent.
  assert (Hes : Forall (fun e =>
            (renderTreeEdit.type e = EditType.prependFrame \/
             renderTreeEdit.type e = EditType.removeFrame) /\
            0 <= 0 + renderTreeEdit.siblingIndex e) twoMoreEdits).
  { repeat constructor; cbn; lia. }
  assert (Hrun : applyEdits 7 (Some 0%nat) 0 twoMoreEdits 0
                   (Z.of_nat (length twoMoreEdits)) twoMoreFrames barePage
                 = Ok 2 barePageWalked) by (vm_compute; reflexivity).
  exact (proj1 (applyEdits_counts_children 7 0%nat 0 twoMoreEdits twoMoreFrames
                  barePage barePageWalked _ 2 Hcons (Z.le_refl 0) Hes Hrun)).
Defined.

(** ** The frames of a range that has been materialized *)

Lemma insertFrame_Ok_type (componentId : Z) (parent : NodeRef) (childIndex : Z)
    (frames : list RenderTreeFramePointer) (frame : RenderTreeFramePointer)
    (frameIndex : Z) (w w' : World) (k : Z) :
  insertFrame componentId parent childIndex frames frame frameIndex w = Ok k w' ->
  match renderTreeFrame.frameType frame with
  | FrameType.attribute | FrameType.unknown _ => False
  | _ => True
  end.
Proof.
  unfold insertFrame, frameFuel. intros H.
  replace (4 * length frames + 4)%nat with (S (4 * length frames + 3)) in H by lia.
  rewrite insertFrame_fuel_S in H.
  destruct (renderTreeFrame.frameType frame); try discriminate; exact I.
Qed.

Lemma visitFrames_Ok_frames (componentId : Z) (parent : NodeRef) (orig : Z)
    (frames : list RenderTreeFramePointer) (indices : list Z) :
  forall (childIndex : Z) (w w' : World) (r : Z),
  visitFrames componentId parent orig childIndex frames indices w = Ok r w' ->
  forall j, j ∈ indices ->
    exists frame,
      nthZ frames j = Some frame /\
      match renderTreeFrame.frameType frame with
      | FrameType.attribute | FrameType.unknown _ => False
      | _ => True
      end.
Proof.
  induction indices as [|index indices IH]; intros childIndex w w' r Hrun j Hj.
  { now apply elem_of_nil in Hj. }
  cbn [visitFrames] in Hrun. inv_bind Hrun.
  apply getTreeFramePtr_inv in E as (-> & Hnth & _).
  apply elem_of_cons in Hj as [->|Hj].
  - exists a. split; [exact Hnth|]. now apply (insertFrame_Ok_type _ _ _ _ _ _ _ _ _ E0).
  - now apply (IH _ _ _ _ Hrun).
Qed.

(** X22: When [insertFrameRange] returns, every frame its scan has come to was
    inside the table and was an element, text, component or region frame:
    an attribute frame at the level of the range (one that is not among the
    leading children of an element frame), a frame of unknown type or a
    read outside the table makes it throw instead.  The same holds for the
    range of a region frame. *)
Theorem materialized_range_frames (componentId : Z) (parent : NodeRef) (childIndex : Z)
    (frames : list RenderTreeFramePointer) (w w' : World) (r : Z) :
  (forall startIndex endIndexExcl,
     insertFrameRange componentId parent childIndex frames startIndex endIndexExcl w
       = Ok r w' ->
     forall j, j ∈ insertFrameRange_indices frames startIndex endIndexExcl ->
       exists frame,
         nthZ frames j = Some frame /\
         match renderTreeFrame.frameType frame with
         | FrameType.attribute | FrameType.unknown _ => False
         | _ => True
         end) /\
  (forall region frameIndex,
     renderTreeFrame.frameType region = FrameType.region ->
     insertFrame componentId parent childIndex frames region frameIndex w = Ok r w' ->
     forall j,
       j ∈ insertFrameRange_indices frames (frameIndex + 1)
             (frameIndex + renderTreeFrame.subtreeLength region) ->
       exists frame,
         nthZ frames j = Some frame /\
         match renderTreeFrame.frameType frame with
         | FrameType.attribute | FrameType.unknown _ => False
         | _ => True
         end).
Proof.
  split.
  - intros startIndex endIndexExcl Hrun j Hj.
    rewrite insertFrameRange_visits in Hrun.
    now apply (visitFrames_Ok_frames _ _ _ _ _ _ _ _ _ Hrun).
  - intros region frameIndex Hty Hrun j Hj.
    rewrite (insertFrame_region_range _ _ _ _ _ _ _ Hty) in Hrun.
    rewrite insertFrameRange_visits in Hrun.
    now apply (visitFrames_Ok_frames _ _ _ _ _ _ _ _ _ Hrun).
Qed.

Lemma materialized_range_frames_witness :
  exists frame,
    nthZ regionTable 2 = Some frame /\
    match renderTreeFrame.frameType frame with
    | FrameType.attribute | FrameType.unknown _ => False
    | _ => True
    end.
Proof.
  apply (proj1 (materialized_range_frames 1 (Some 0%nat) 0 regionTable page regionResult 2)
           1 3).
  - vm_compute. reflexivity.
  - apply (bool_decide_unpack _). vm_compute. exact I.
Defined.

(** ** The first rendering of a component *)

(** X23: A component that still has its marker comment, and whose first update
    is one [prependFrame] edit for a text frame: the marker is taken out of
    the child list, the new text node stands where the marker stood, and
    the component is bound to that text node, without a wrapper. *)
Theorem first_update_one_text (componentId : Z) (marker parent : NodeId) (mn pn : DomNode)
    (k : nat) (prepend : RenderTreeEditPointer)
    (referenceFrames : list RenderTreeFramePointer) (frame : RenderTreeFramePointer)
    (w : World) :
  childComponentLocations w !! componentId = Some (Some marker) ->
  nodes w !! marker = Some mn -> isComment mn = true ->
  childrenConsistent w parent pn -> childNodes pn !! k = Some marker ->
  renderTreeEdit.type prepend = EditType.prependFrame ->
  renderTreeEdit.siblingIndex prepend = 0 ->
  nthZ referenceFrames (renderTreeEdit.newTreeIndex prepend) = Some frame ->
  renderTreeFrame.frameType frame = FrameType.text ->
  let text := length (nodes w) in
  exists w' pn',
    updateComponent componentId [prepend] 0 1 referenceFrames w = Ok tt w' /\
    childComponentLocations w' =
      <[componentId := Some text]> (childComponentLocations w) /\
    nodes w' !! parent = Some pn' /\
    childNodes pn' = <[k := text]> (childNodes pn) /\
    nodes w' !! text = Some (textNodeOf parent frame) /\
    nodes w' !! marker = Some (set_parentNode None mn).
Proof.
  intros Hloc Hm Hcom Hcons Hk Hpre Hsib Hframe Htext text.
  pose proof Hcons as (Hp & Hel & Hnd & Hpar & Hcs).
  assert (Hin : marker ∈ childNodes pn) by (apply list_elem_of_lookup; eauto).
  destruct (Hcs marker Hin) as (mn' & Hm' & Hmp).
  rewrite Hm in Hm'. injection Hm' as <-.
  assert (Hne : marker <> parent) by (intros ->; contradiction).
  assert (Hklt : (k < length (childNodes pn))%nat) by now apply lookup_lt_Some in Hk.
  assert (Hlm : (marker < length (nodes w))%nat) by now apply lookup_lt_Some in Hm.
  assert (Hlp : (parent < length (nodes w))%nat) by now apply lookup_lt_Some in Hp.
  pose proof (removed_consistent _ _ _ _ _ _ Hcons Hk Hm) as Hcons0.
  set (w0 := set_nodes
               (<[marker := set_parentNode None mn]>
                  (<[parent := set_childNodes (removeId marker (childNodes pn)) pn]>
                     (nodes w))) w) in *.
  set (pn0 := set_childNodes (delete k (childNodes pn)) pn) in *.
  assert (Hlen0 : length (nodes w0) = text).
  { subst w0. cbn. now rewrite !length_insert. }
  set (fresh := freshNode TextNode "" (jsToString (renderTreeFrame.textContent frame))).
  set (w1 := linkChild k text parent pn0 fresh (set_nodes (nodes w0 ++ [fresh]) w0)).
  assert (Hk0 : Z.to_nat (Z.min (Z.of_nat k + 0) (Z.of_nat (length (childNodes pn0)))) = k).
  { subst pn0. cbn [childNodes set_childNodes]. rewrite length_delete by eauto. lia. }
  assert (Hwalk : applyEdits componentId (Some parent) (Z.of_nat k) [prepend] 0 1
                    referenceFrames w0 = Ok 1 w1).
  { change 1 with (Z.of_nat (length [prepend])) at 1. rewrite applyEdits_whole.
    cbn [applyEditList].
    assert (Hstep : applyEdit componentId (Z.of_nat k) referenceFrames prepend
                      (mkCursor (Some parent) 0 (Z.of_nat k) 0) w0 =
                    Ok (mkCursor (Some parent) 0 (Z.of_nat k) 1) w1).
    { rewrite (applyEdit_prependText _ _ _ _ _ _ _ Hpre Hframe Htext).
      cbn [cur_parent childIndexAtCurrentDepth currentDepth topLevelNodeCountChange].
      rewrite Hsib.
      assert (Hpos : 0 <= Z.of_nat k + 0) by lia.
      rewrite (bind_Ok _ _ _ _ _ (insertText_exact _ _ _ frame _ Hcons0 Hpos)).
      rewrite Hk0, Hlen0. reflexivity. }
    rewrite bind_assoc, (bind_Ok _ _ _ _ _ Hstep). reflexivity. }
  assert (Hla : length (nodes w0 ++ [fresh]) = S text).
  { rewrite length_app, Hlen0. cbn. lia. }
  assert (Hp1 : nodes w1 !! parent =
                Some (set_childNodes
                        (take k (childNodes pn0) ++ text :: drop k (childNodes pn0)) pn0)).
  { subst w1. unfold linkChild. cbn [nodes set_nodes].
    rewrite list_lookup_insert_ne by lia. apply list_lookup_insert_eq. rewrite Hla. lia. }
  assert (Hchildren : take k (childNodes pn0) ++ text :: drop k (childNodes pn0)
                      = <[k := text]> (childNodes pn)).
  { subst pn0. cbn [childNodes set_childNodes].
    rewrite (insert_take_drop _ _ _ Hklt).
    rewrite delete_take_drop.
    rewrite take_app_le by (rewrite length_take; lia).
    rewrite take_take, Nat.min_id.
    rewrite drop_app_ge by (rewrite length_take; lia).
    rewrite length_take, Nat.min_l by lia. now rewrite Nat.sub_diag. }
  exists (set_locations (<[componentId := Some text]> (childComponentLocations w1)) w1).
  eexists. split.
  { unfold updateComponent. rewrite bind_getWorld, Hloc.
    rewrite (bind_Ok _ _ _ _ _ (locateAnchor_comment _ _ _ _ _ Hm Hcom Hmp Hp Hel)).
    fold w0. rewrite (indexOf_NoDup _ _ _ Hnd Hk).
    rewrite (bind_Ok _ _ _ _ _ Hwalk).
    change (negb false) with true. change (0 + 1 =? 1) with true. cbv iota.
    unfold childAt. rewrite bind_assoc.
    rewrite (bind_Ok _ _ _ _ _ (deref_Some _ _ _ Hp1)). cbn [fst snd].
    rewrite bind_ret_l. cbn [childNodes set_childNodes].
    assert (Hnth : nthZ (take k (childNodes pn0) ++ text :: drop k (childNodes pn0))
                     (Z.of_nat k) = Some text).
    { rewrite Hchildren, nthZ_of_nat. apply list_lookup_insert_eq. exact Hklt. }
    now rewrite Hnth. }
  cbn [nodes childComponentLocations set_locations].
  split; [reflexivity|]. split; [exact Hp1|]. split; [exact Hchildren|]. split.
  - subst w1. unfold linkChild. cbn [nodes set_nodes].
    apply list_lookup_insert_eq. rewrite length_insert, Hla. lia.
  - subst w1. unfold linkChild. cbn [nodes set_nodes].
    rewrite !list_lookup_insert_ne by lia.
    rewrite lookup_app_l by (rewrite Hlen0; lia).
    subst w0. cbn [nodes set_nodes]. apply list_lookup_insert_eq.
    now rewrite length_insert.
Qed.

Lemma first_update_one_text_witness :
  exists w' pn',
    updateComponent 7 [prependFrameEdit 0 0] 0 1 [textFrame "x"] markedPage = Ok tt w' /\
    childComponentLocations w' !! 7 = Some (Some 2%nat) /\
    nodes w' !! 0%nat = Some pn' /\
    childNodes pn' = [2%nat] /\
    nodes w' !! 2%nat = Some (textNodeOf 0%nat (textFrame "x")).
Proof.
  destruct (first_update_one_text 7 1%nat 0%nat
              (set_parentNode (Some 0%nat) (freshNode CommentNode "" "blazor-component"))
              (set_childNodes [1%nat] (freshNode ElementNode "DIV" ""))
              0%nat (prependFrameEdit 0 0) [textFrame "x"] (textFrame "x") markedPage
              eq_refl eq_refl eq_refl ltac:(consistent) eq_refl
              eq_refl eq_refl eq_refl eq_refl)
    as (w' & pn' & Hrun & Hloc & Hp & Hch & Ht & _).
  exists w', pn'. split; [exact Hrun|]. split; [|now repeat split].
  rewrite Hloc. apply lookup_insert_eq.
Defined.

(** ** A component that has a wrapper *)

(** X24: A component that has a wrapper keeps it.  When an update that
    only prepends and removes nodes at the top level returns, then however
    many nodes the component is left with (one, or none at all), it is
    still bound to the same wrapper; the wrapper is the element it was, in
    the place it was, with a child list that is in order; and no node
    outside the wrapper has changed. *)
Theorem wrapped_update_keeps_wrapper (componentId : Z) (wrapper : NodeId) (wn : DomNode)
    (edits : list RenderTreeEditPointer) (frames : list RenderTreeFramePointer)
    (w w' : World) :
  childComponentLocations w !! componentId = Some (Some wrapper) ->
  childrenConsistent w wrapper wn ->
  tagName wn = Some "BLAZOR-COMPONENT"%string ->
  (forall frame, frame ∈ frames -> selfFree componentId frame) ->
  Forall (fun e =>
    (renderTreeEdit.type e = EditType.prependFrame \/
     renderTreeEdit.type e = EditType.removeFrame) /\
    0 <= renderTreeEdit.siblingIndex e) edits ->
  updateComponent componentId edits 0 (Z.of_nat (length edits)) frames w = Ok tt w' ->
  childComponentLocations w' !! componentId = Some (Some wrapper) /\
  (exists cs', childrenConsistent w' wrapper (set_childNodes cs' wn)) /\
  (forall x xn,
     nodes w !! x = Some xn -> x <> wrapper -> parentNode xn <> Some wrapper ->
     nodes w' !! x = Some xn).
Proof.
  intros Hloc Hcons Htag Hfree Hes Hrun.
  pose proof Hcons as (Hm & _).
  unfold updateComponent in Hrun. rewrite bind_getWorld, Hloc in Hrun.
  rewrite (bind_Ok _ _ _ _ _ (locateAnchor_wrapper _ _ _ Hm Htag)) in Hrun.
  inv_bind Hrun. change (negb true) with false in Hrun. cbv iota in Hrun.
  apply ret_inv_Ok in Hrun as [_ <-].
  split.
  - pose proof (keeps_applyEdits componentId componentId (Some wrapper) 0 edits 0
                  (Z.of_nat (length edits)) frames Hfree w) as Hkeep.
    rewrite E in Hkeep. now rewrite Hkeep.
  - rewrite applyEdits_whole in E. inv_bind E. apply ret_inv_Ok in E as [_ <-].
    destruct (top_level_walk componentId 0 wrapper frames edits (Z.le_refl 0) Hes
                _ _ _ _ _ Hcons E0)
      as (_ & (cs' & Hcons' & _) & Hframe).
    split; [now exists cs'|exact Hframe].
Qed.

Lemma wrapped_update_keeps_wrapper_witness :
  childComponentLocations wrappedPageEmptied !! 7 = Some (Some 1%nat) /\
  (exists cs',
     childrenConsistent wrappedPageEmptied 1%nat
       (set_childNodes cs'
          (set_parentNode (Some 0%nat)
             (set_childNodes [2; 3]%nat
                (freshNode ElementNode "BLAZOR-COMPONENT" ""))))) /\
  (forall x xn,
     nodes wrappedPage !! x = Some xn -> x <> 1%nat -> parentNode xn <> Some 1%nat ->
     nodes wrappedPageEmptied !! x = Some xn).
Proof.
  assert (Hcons : childrenConsistent wrappedPage 1%nat
                    (set_parentNode (Some 0%nat)
                       (set_childNodes [2; 3]%nat
                          (freshNode ElementNode "BLAZOR-COMPONENT" ""))))
    by consistent.
  assert (Hfree : forall frame, frame ∈ @nil RenderTreeFramePointer -> selfFree 7 frame).
  { intros frame Hin. now apply elem_of_nil in Hin. }
  assert (Hes : Forall (fun e =>
            (renderTreeEdit.type e = EditType.prependFrame \/
             renderTreeEdit.type e = EditType.removeFrame) /\
            0 <= renderTreeEdit.siblingIndex e) [removeFrameEdit 0; removeFrameEdit 0]).
  { repeat constructor; cbn; lia. }
  assert (Hrun : updateComponent 7 [removeFrameEdit 0; removeFrameEdit 0] 0
                   (Z.of_nat (length [removeFrameEdit 0; removeFrameEdit 0])) []
                   wrappedPage
                 = Ok tt wrappedPageEmptied) by (vm_compute; reflexivity).
  exact (wrapped_update_keeps_wrapper 7 1%nat _ [removeFrameEdit 0; removeFrameEdit 0] []
           wrappedPage wrappedPageEmptied eq_refl Hcons eq_refl Hfree Hes Hrun).
Defined.
